(** * Vote tracker backend: maintenance scripts and HTTP handlers

    A shallow embedding of the three maintenance scripts
    (import-family-classification.js, the deduplication script and the
    register-number repair script) and of server.js (the single-voter
    handlers, the statistics and religions handlers and the spreadsheet
    mirror), over a small model of the hosted "voters" table.

    Conventions.
    - JavaScript strings are modelled by [string]; [toLowerCase] and [trim]
      act on the ASCII range the way the ECMAScript functions do and leave
      every other character alone: letters and white space beyond ASCII
      are outside this model. Numbers are integers; [JsNumber.of_Z] rounds
      the integers that [parseInt] reads to the nearest double.
    - An object literal used as a dictionary is modelled by the list of its
      own properties in insertion order; [Object_entries] enumerates it the
      way the language does (array-index keys first, in numeric order).
      Keys that name members of Object.prototype ([Object_prototype]) are
      outside this model; [plain_name_keys], [plain_register_numbers] and
      [plain_religions] say that a table holds none.
    - The store is passed explicitly: every call of the client takes the
      table state and returns the new state with the response. *)

From Stdlib Require Import ZArith NArith String Ascii List Lia.
From Stdlib Require Import DecimalString DecimalNat.
From Stdlib Require OrderedTypeEx.
From stdpp Require Import base tactics option list strings numbers sorting.

Local Open Scope Z_scope.
Local Open Scope nat_scope.

(* ===================================================================== *)
(** ** JavaScript values *)
(* ===================================================================== *)

Module Js.

(** The primitive values that reach the code: database columns and
    spreadsheet cells. *)
Inductive value :=
| Null
| Num (n : Z)
| Str (s : string)
| Bool (b : bool).

#[global] Instance value_eq_dec : EqDecision value.
Proof. solve_decision. Defined.

(** ToBoolean *)
Definition truthy (v : value) : bool :=
  match v with
  | Null => false
  | Num n => negb (n =? 0)%Z
  | Str s => negb (bool_decide (s = ""))
  | Bool b => b
  end.

(** [v || null] *)
Definition or_null (v : value) : value :=
  if truthy v then v else Null.

(** ToBoolean of a nullable string (a text column). *)
Definition truthy_text (o : option string) : bool :=
  match o with
  | None => false
  | Some s => negb (bool_decide (s = ""))
  end.

(** A nullable string inside a template literal: null prints as "null". *)
Definition template (o : option string) : string :=
  match o with
  | None => "null"
  | Some s => s
  end.

End Js.

(* ===================================================================== *)
(** ** Strings *)
(* ===================================================================== *)

Module JsString.

Definition lower_char (c : ascii) : ascii :=
  let n := nat_of_ascii c in
  if (65 <=? n) && (n <=? 90) then ascii_of_nat (n + 32) else c.

(** [String.prototype.toLowerCase] on the ASCII range: A-Z are lowered and
    every other character is kept. The builtin also lowers the letters
    beyond ASCII; [ascii_only] names the texts on which the two agree. *)
Fixpoint toLowerCase (s : string) : string :=
  match s with
  | EmptyString => EmptyString
  | String c r => String (lower_char c) (toLowerCase r)
  end.

(** The white space and line terminators of the ASCII range: TAB, LF, VT,
    FF, CR and SP. The builtins also strip U+00A0, U+FEFF, U+2028, U+2029
    and the space separators. *)
Definition is_white_space (c : ascii) : bool := Ascii.is_space c.

Fixpoint trimStart (s : string) : string :=
  match s with
  | EmptyString => EmptyString
  | String c r => if is_white_space c then trimStart r else s
  end.

Fixpoint trimEnd (s : string) : string :=
  match s with
  | EmptyString => EmptyString
  | String c r =>
      match trimEnd r with
      | EmptyString => if is_white_space c then EmptyString else String c EmptyString
      | r' => String c r'
      end
  end.

(** [String.prototype.trim] *)
Definition trim (s : string) : string := trimEnd (trimStart s).

(** A non-negative integer inside a template literal. *)
Definition of_nat (n : nat) : string :=
  NilEmpty.string_of_uint (Nat.to_uint n).

Definition of_N (n : N) : string :=
  NilEmpty.string_of_uint (N.to_uint n).

(** Does the character occur in the string? *)
Fixpoint includes_char (c : ascii) (s : string) : bool :=
  match s with
  | EmptyString => false
  | String x r => bool_decide (x = c) || includes_char c r
  end.

(** The confirmation test of the scripts:
    [answer.toLowerCase() === 'yes' || answer.toLowerCase() === 'y'] *)
Definition confirms (answer : string) : bool :=
  bool_decide (toLowerCase answer = "yes") || bool_decide (toLowerCase answer = "y").

End JsString.

(* ===================================================================== *)
(** ** Objects used as dictionaries, and Map *)
(* ===================================================================== *)

Module JsObject.

(** The entries, oldest first; no key occurs twice. *)
Abbreviation assoc K V := (list (K * V)).

Section Assoc.
Context {K V : Type} `{EqDecision K}.

Fixpoint get (o : assoc K V) (k : K) : option V :=
  match o with
  | [] => None
  | (k', v) :: r => if decide (k' = k) then Some v else get r k
  end.

(** Writing an existing key keeps its place; a new key goes last. *)
Fixpoint set (o : assoc K V) (k : K) (v : V) : assoc K V :=
  match o with
  | [] => [(k, v)]
  | (k', v') :: r =>
      if decide (k' = k) then (k, v) :: r else (k', v') :: set r k v
  end.

Definition has (o : assoc K V) (k : K) : bool :=
  match get o k with Some _ => true | None => false end.
End Assoc.

(** An array index: the canonical decimal form of an integer below
    2^32 - 1. *)
Definition array_index (k : string) : option N :=
  match NilEmpty.uint_of_string k with
  | Some d =>
      let n := N.of_uint d in
      if bool_decide (JsString.of_N n = k) && (n <? 4294967295)%N
      then Some n else None
  | None => None
  end.

Definition index_le {V} (a b : N * (string * V)) : Prop := (a.1 ≤ b.1)%N.

#[global] Instance index_le_dec {V} : RelDecision (@index_le V).
Proof. intros a b. unfold index_le. apply _. Defined.

(** [Object.entries]: the array-index keys in ascending numeric order,
    then the other keys in insertion order. *)
Definition Object_entries {V} (o : assoc string V) : list (string * V) :=
  (snd <$> merge_sort index_le
     (omap (λ e, n ← array_index e.1; Some (n, e)) o))
  ++ filter (λ e, array_index e.1 = None) o.

(** The grouping idiom of both clean-up scripts:
    [if (!o[key]) o[key] = []; o[key].push(x)], for a key that names no
    member of Object.prototype. On such a key the code reads the inherited
    member, makes no array and throws a TypeError at [push]; this is not
    modelled. *)
Definition push {A} (o : assoc string (list A)) (key : string) (x : A)
    : assoc string (list A) :=
  let o := match get o key with
           | None => set o key []
           | Some _ => o
           end in
  match get o key with
  | Some xs => set o key (xs ++ [x])
  | None => o
  end.

End JsObject.

(* ===================================================================== *)
(** ** The voters table *)
(* ===================================================================== *)

Module Voter.

Record t := {
  id : Z;
  original_id : Js.value;
  full_name : option string;
  father_name : option string;
  register_number : option string;
  family : Js.value;
  classification : Js.value;
  has_voted : bool;
  voted_at : option string;
  religion : option string
}.

#[global] Instance eq_dec : EqDecision t.
Proof. solve_decision. Defined.

Definition set_register_number (r : option string) (v : t) : t :=
  {| id := id v; original_id := original_id v; full_name := full_name v;
     father_name := father_name v; register_number := r;
     family := family v; classification := classification v;
     has_voted := has_voted v; voted_at := voted_at v;
     religion := religion v |}.

Definition set_family_classification (f c : Js.value) (v : t) : t :=
  {| id := id v; original_id := original_id v; full_name := full_name v;
     father_name := father_name v; register_number := register_number v;
     family := f; classification := c;
     has_voted := has_voted v; voted_at := voted_at v;
     religion := religion v |}.

Definition set_vote (hv : bool) (at_ : option string) (v : t) : t :=
  {| id := id v; original_id := original_id v; full_name := full_name v;
     father_name := father_name v; register_number := register_number v;
     family := family v; classification := classification v;
     has_voted := hv; voted_at := at_;
     religion := religion v |}.

End Voter.

(* ===================================================================== *)
(** ** The store client *)
(* ===================================================================== *)

Module Supabase.

Record PostgrestError := { message : string }.

#[global] Instance error_eq_dec : EqDecision PostgrestError.
Proof. solve_decision. Defined.

(** Every call resolves to an object with a [data] and an [error] field. *)
Record response (A : Type) := { data : option A; error : option PostgrestError }.
Arguments data {A} _.
Arguments error {A} _.

Definition ok {A} (a : A) : response A := {| data := Some a; error := None |}.
Definition failed {A} (e : PostgrestError) : response A := {| data := None; error := Some e |}.

(** What the server saw: one entry per call, with the number of rows it
    returned or touched. *)
Inductive event :=
| Ranged (from to returned : nat)
| Selected (returned : nat)
| Counted
| SingleSelected (id : Z)
| Updated (id : Z)
| Deleted (ids : list Z)
| Refused.

#[global] Instance event_eq_dec : EqDecision event.
Proof. solve_decision. Defined.

End Supabase.

Module Store.
Import Supabase.

(** The table, the bound the server puts on the rows of one response
    ([None]: no bound), the calls served so far, and the calls that fail:
    [fault n] is the error of the [n]-th call, if it fails. *)
Record t := {
  rows : list Voter.t;
  max_rows : option nat;
  log : list event;
  fault : nat → option PostgrestError
}.

Definition M (A : Type) : Type := t → t * A.

Definition ret {A} (a : A) : M A := λ s, (s, a).
Definition bind {A B} (m : M A) (k : A → M B) : M B :=
  λ s, let '(s1, a) := m s in k a s1.

Definition with_rows (rs : list Voter.t) (s : t) : t :=
  {| rows := rs; max_rows := max_rows s; log := log s; fault := fault s |}.

Definition logged (es : list event) (s : t) : t :=
  {| rows := rows s; max_rows := max_rows s; log := log s ++ es; fault := fault s |}.

Definition record (e : event) (s : t) : t := logged [e] s.

(** One call: it fails when the fault schedule says so, and runs
    otherwise. *)
Definition call {A} (run : t → t * A) (seen : A → event) : M (response A) :=
  λ s,
    match fault s (length (log s)) with
    | Some e => (record Refused s, failed e)
    | None => let '(s1, a) := run s in (record (seen a) s1, ok a)
    end.

(** [.order('id', { ascending: true })] *)
Definition id_le (u v : Voter.t) : Prop := (Voter.id u ≤ Voter.id v)%Z.

#[global] Instance id_le_dec : RelDecision id_le.
Proof. intros u v. unfold id_le. apply _. Defined.

Definition order_by_id (rs : list Voter.t) : list Voter.t :=
  merge_sort id_le rs.

Definition bounded (s : t) (rs : list Voter.t) : list Voter.t :=
  match max_rows s with
  | None => rs
  | Some c => take c rs
  end.

(** [.select(..).order('id').range(from, to)]: the window is inclusive. *)
Definition range (from to : nat) : M (response (list Voter.t)) :=
  call (λ s, (s, bounded s (take (to + 1 - from) (drop from (order_by_id (rows s))))))
       (λ d, Ranged from to (length d)).

(** [.select('*').order('id')] with no window. *)
Definition select_ordered : M (response (list Voter.t)) :=
  call (λ s, (s, bounded s (order_by_id (rows s))))
       (λ d, Selected (length d)).

(** [.select('register_number')] *)
Definition select_register_numbers : M (response (list (option string))) :=
  call (λ s, (s, Voter.register_number <$> bounded s (rows s)))
       (λ d, Selected (length d)).

(** [.update({ register_number }).eq('id', id)] *)
Definition update_register_number (id : Z) (r : string) : M (response unit) :=
  call (λ s, (with_rows ((λ v, if decide (Voter.id v = id)
                                then Voter.set_register_number (Some r) v
                                else v) <$> rows s) s, tt))
       (λ _, Updated id).

(** [.update({ family, classification }).eq('id', id)] *)
Definition update_family_classification (id : Z) (f c : Js.value) : M (response unit) :=
  call (λ s, (with_rows ((λ v, if decide (Voter.id v = id)
                                then Voter.set_family_classification f c v
                                else v) <$> rows s) s, tt))
       (λ _, Updated id).

(** [.delete().in('id', batch)] *)
Definition delete_in (batch : list Z) : M (response unit) :=
  call (λ s, (with_rows (filter (λ v, Voter.id v ∉ batch) (rows s)) s, tt))
       (λ _, Deleted batch).

(** [.select('*', { count: 'exact', head: true })] *)
Definition count : M (response nat) :=
  call (λ s, (s, length (rows s))) (λ _, Counted).

(** [.select('id, full_name, family, classification')
     .not('family', 'is', null).limit(5)] *)
Definition select_sample : M (response (list Voter.t)) :=
  call (λ s, (s, bounded s (take 5 (filter (λ v, Voter.family v ≠ Js.Null) (rows s)))))
       (λ d, Selected (length d)).

(** [.single()]: exactly one row, or an error and no data. *)
Definition no_single_row : PostgrestError :=
  {| message := "JSON object requested, multiple (or no) rows returned" |}.

Definition single {A} (r : response (list A)) : response A :=
  match error r, data r with
  | Some e, _ => failed e
  | None, Some [x] => ok x
  | None, _ => failed no_single_row
  end.

(** [.select('*').eq('id', id).single()] *)
Definition select_single (id : Z) : M (response Voter.t) :=
  λ s, let '(s1, r) := call (λ s, (s, filter (λ v, Voter.id v = id) (rows s)))
                            (λ _, SingleSelected id) s in
       (s1, single r).

(** [.update({ has_voted, voted_at }).eq('id', id).select().single()] *)
Definition update_vote (id : Z) (hv : bool) (at_ : option string)
    : M (response Voter.t) :=
  λ s, let '(s1, r) :=
         call (λ s, let rs := (λ v, if decide (Voter.id v = id)
                                    then Voter.set_vote hv at_ v else v) <$> rows s in
                    (with_rows rs s, filter (λ v, Voter.id v = id) rs))
              (λ _, Updated id) s in
       (s1, single r).

End Store.

Notation "'let*' x := m 'in' k" := (Store.bind m (λ x, k))
  (at level 10, x name, m at level 100, k at level 200, only parsing).

(** What a script's [try] block comes to: it runs to its end, or an
    exception reaches the [catch] (which prints and exits with status 1). *)
Inductive outcome (A : Type) :=
| Finished (a : A)
| Thrown (e : Supabase.PostgrestError).
Arguments Finished {A} _.
Arguments Thrown {A} _.

(** A TypeError raised by the language itself. *)
Definition type_error : Supabase.PostgrestError :=
  {| Supabase.message := "TypeError" |}.

(* ===================================================================== *)
(** ** Bulk fetch (import-family-classification.js 25-44, part_000 14-35) *)
(* ===================================================================== *)

Module BulkFetch.
Import Supabase.

Definition pageSize : nat := 1000.

(** The [while (hasMore)] loop, entered with [hasMore] true. [None]: the
    fuel ran out before the loop ended. *)
Fixpoint loop (fuel : nat) (allVoters : list Voter.t) (from : nat)
    : Store.M (option (outcome (list Voter.t))) :=
  match fuel with
  | 0 => Store.ret None
  | S fuel =>
      let* r := Store.range from (from + pageSize - 1) in
      match error r, data r with
      | Some e, _ => Store.ret (Some (Thrown e))
      | None, None => Store.ret (Some (Thrown type_error))
      | None, Some d =>
          let allVoters := allVoters ++ d in
          let hasMore := bool_decide (length d = pageSize) in
          let from := from + pageSize in
          if hasMore then loop fuel allVoters from
          else Store.ret (Some (Finished allVoters))
      end
  end.

Definition fetchAll (fuel : nat) : Store.M (option (outcome (list Voter.t))) :=
  loop fuel [] 0.

End BulkFetch.

(* ===================================================================== *)
(** ** Deduplication script (part_000 1-137) *)
(* ===================================================================== *)

Module Dedup.
Import Supabase.

(** Line 42: the key of a record. *)
Definition nameKey (voter : Voter.t) : string :=
  JsString.trim (JsString.toLowerCase
    (Js.template (Voter.full_name voter) +:+ "_" +:+
     Js.template (Voter.father_name voter))).

(** Lines 40-47. *)
Definition groupedByName (allVoters : list Voter.t)
    : JsObject.assoc string (list Voter.t) :=
  foldl (λ o voter, JsObject.push o (nameKey voter) voter) [] allVoters.

(** Lines 50-51. *)
Definition duplicateGroups (allVoters : list Voter.t)
    : list (string * list Voter.t) :=
  filter (λ e, 1 < length e.2) (JsObject.Object_entries (groupedByName allVoters)).

(** Lines 61-81: every member of a duplicate group but the first. *)
Definition idsToDelete (allVoters : list Voter.t) : list Z :=
  duplicateGroups allVoters ≫= λ e, Voter.id <$> drop 1 e.2.

(** Lines 98-110: batches of 100; a failed batch is reported and the
    loop goes on. [i] is the loop index. *)
Fixpoint deleteBatches (fuel i : nat) (ids : list Z) : Store.M (list PostgrestError) :=
  match fuel with
  | 0 => Store.ret []
  | S fuel =>
      if bool_decide (i < length ids) then
        let batch := take 100 (drop i ids) in
        let* r := Store.delete_in batch in
        let* errs := deleteBatches fuel (i + 100) ids in
        Store.ret (match error r with Some e => e :: errs | None => errs end)
      else Store.ret []
  end.

Inductive result :=
| Clean
| Cancelled (ids : list Z)
| Applied (ids : list Z) (errors : list PostgrestError) (removed : option Z).

(** The whole script. [fuel] bounds the fetch loop, [answer] is what the
    operator types at the prompt. *)
Definition removeDuplicates (fuel : nat) (answer : string)
    : Store.M (option (outcome result)) :=
  let* fetched := BulkFetch.fetchAll fuel in
  match fetched with
  | None => Store.ret None
  | Some (Thrown e) => Store.ret (Some (Thrown e))
  | Some (Finished allVoters) =>
      if bool_decide (length (duplicateGroups allVoters) = 0)
      then Store.ret (Some (Finished Clean))
      else
        let ids := idsToDelete allVoters in
        if JsString.confirms answer then
          let* errs := deleteBatches (length ids) 0 ids in
          let* c := Store.count in
          let removed :=
            match error c, data c with
            | None, Some n => Some (Z.of_nat (length allVoters) - Z.of_nat n)%Z
            | _, _ => None
            end in
          Store.ret (Some (Finished (Applied ids errs removed)))
        else Store.ret (Some (Finished (Cancelled ids)))
  end.

End Dedup.

(* ===================================================================== *)
(** ** Register-number repair script (part_000 138-281) *)
(* ===================================================================== *)

Module RegisterRepair.
Import Supabase.

Record update := {
  id : Z;
  oldRegNum : string;
  newRegNum : string
}.

#[global] Instance update_eq_dec : EqDecision update.
Proof. solve_decision. Defined.

(** Lines 163-172: records with a null or empty register number are left
    out. *)
Definition byRegisterNumber (allVoters : list Voter.t)
    : JsObject.assoc string (list Voter.t) :=
  foldl (λ o voter,
           match Voter.register_number voter with
           | Some key =>
               if Js.truthy_text (Some key) then JsObject.push o key voter else o
           | None => o
           end) [] allVoters.

(** Lines 174-175. *)
Definition duplicateGroups (allVoters : list Voter.t)
    : list (string * list Voter.t) :=
  filter (λ e, 1 < length e.2)
         (JsObject.Object_entries (byRegisterNumber allVoters)).

(** Lines 190-204, for one group: the member at index 0 is kept, the
    member at index [index] is renamed. *)
Definition groupUpdates (regNum : string) (voters : list Voter.t) : list update :=
  mjoin (imap (λ index voter,
                 if bool_decide (index = 0) then []
                 else [ {| id := Voter.id voter;
                           oldRegNum := regNum;
                           newRegNum := regNum +:+ "-" +:+ JsString.of_nat index |} ])
              voters).

(** Lines 184-206. *)
Definition updates (allVoters : list Voter.t) : list update :=
  duplicateGroups allVoters ≫= λ e, groupUpdates e.1 e.2.

(** Lines 226-241: one call per update; failures are counted. *)
Fixpoint applyUpdates (us : list update) (successCount errorCount : nat)
    : Store.M (nat * nat) :=
  match us with
  | [] => Store.ret (successCount, errorCount)
  | u :: us =>
      let* r := Store.update_register_number (id u) (newRegNum u) in
      match error r with
      | Some _ => applyUpdates us successCount (errorCount + 1)
      | None => applyUpdates us (successCount + 1) errorCount
      end
  end.

(** [new Set(regNums).size] *)
Definition unique_count (regNums : list (option string)) : nat :=
  length (remove_dups regNums).

Inductive result :=
| Clean
| Cancelled (us : list update)
| Applied (us : list update) (successCount errorCount : nat) (remaining : nat).

Definition fixRegisterNumbers (answer : string) : Store.M (outcome result) :=
  let* r := Store.select_ordered in
  match error r, data r with
  | Some e, _ => Store.ret (Thrown e)
  | None, None => Store.ret (Thrown type_error)
  | None, Some allVoters =>
      if bool_decide (length (duplicateGroups allVoters) = 0)
      then Store.ret (Finished Clean)
      else
        let us := updates allVoters in
        if JsString.confirms answer then
          let* counts := applyUpdates us 0 0 in
          let* after := Store.select_register_numbers in
          match data after with
          | None => Store.ret (Thrown type_error)
          | Some regNums =>
              Store.ret (Finished (Applied us counts.1 counts.2
                                     (length regNums - unique_count regNums)))
          end
        else Store.ret (Finished (Cancelled us))
  end.

End RegisterRepair.

(* ===================================================================== *)
(** ** Import script (import-family-classification.js) *)
(* ===================================================================== *)

Module ImportScript.
Import Supabase.

(** The worksheet: the value [v] of the cell at each address that has
    one, and the last row index [range.e.r]. *)
Record worksheet := {
  cells : string → option Js.value;
  e_r : nat
}.

Record update := {
  id : Z;
  family : Js.value;
  classification : Js.value
}.

#[global] Instance update_eq_dec : EqDecision update.
Proof. solve_decision. Defined.

(** [cell ? cell.v : null] for the cell in column [col] of sheet row
    [row + 1]. *)
Definition cell_value (ws : worksheet) (col : string) (row : nat) : Js.value :=
  match cells ws (col +:+ JsString.of_nat (row + 1)) with
  | Some v => v
  | None => Js.Null
  end.

(** Lines 49-52: a later record replaces an earlier one with the same
    original_id. *)
Definition voterMap (allVoters : list Voter.t) : JsObject.assoc Js.value Voter.t :=
  foldl (λ m voter, JsObject.set m (Voter.original_id voter) voter) [] allVoters.

Record progress := {
  updates : list update;
  matchedCount : nat;
  unmatchedCount : nat
}.

(** Lines 61-83: one turn of the loop over the rows. *)
Definition processRow (ws : worksheet) (m : JsObject.assoc Js.value Voter.t)
    (p : progress) (row : nat) : progress :=
  let originalId := cell_value ws "L" row in
  let family := cell_value ws "J" row in
  let classification := cell_value ws "U" row in
  if Js.truthy originalId && JsObject.has m originalId then
    match JsObject.get m originalId with
    | Some voter =>
        {| updates := updates p ++
                      [ {| id := Voter.id voter;
                           family := Js.or_null family;
                           classification := Js.or_null classification |} ];
           matchedCount := matchedCount p + 1;
           unmatchedCount := unmatchedCount p |}
    | None => p
    end
  else if Js.truthy originalId then
    {| updates := updates p;
       matchedCount := matchedCount p;
       unmatchedCount := unmatchedCount p + 1 |}
  else p.

(** Lines 55-88: [for (let row = 1; row <= range.e.r; row++)] *)
Definition processExcel (ws : worksheet) (allVoters : list Voter.t) : progress :=
  foldl (processRow ws (voterMap allVoters))
        {| updates := []; matchedCount := 0; unmatchedCount := 0 |}
        (seq 1 (e_r ws)).

(** Lines 111-126: the updates of one batch. *)
Fixpoint applyBatch (batch : list update) (successCount errorCount : nat)
    : Store.M (nat * nat) :=
  match batch with
  | [] => Store.ret (successCount, errorCount)
  | u :: batch =>
      let* r := Store.update_family_classification (id u) (family u) (classification u) in
      match error r with
      | Some _ => applyBatch batch successCount (errorCount + 1)
      | None => applyBatch batch (successCount + 1) errorCount
      end
  end.

(** Lines 108-129. *)
Fixpoint applyUpdates (fuel i : nat) (us : list update) (successCount errorCount : nat)
    : Store.M (nat * nat) :=
  match fuel with
  | 0 => Store.ret (successCount, errorCount)
  | S fuel =>
      if bool_decide (i < length us) then
        let* counts := applyBatch (take 100 (drop i us)) successCount errorCount in
        applyUpdates fuel (i + 100) us counts.1 counts.2
      else Store.ret (successCount, errorCount)
  end.

Inductive result :=
| Cancelled (p : progress)
| Applied (p : progress) (successCount errorCount : nat).

Definition importData (ws : worksheet) (fuel : nat) (answer : string)
    : Store.M (option (outcome result)) :=
  let* fetched := BulkFetch.fetchAll fuel in
  match fetched with
  | None => Store.ret None
  | Some (Thrown e) => Store.ret (Some (Thrown e))
  | Some (Finished allVoters) =>
      let p := processExcel ws allVoters in
      if JsString.confirms answer then
        let* counts := applyUpdates (length (updates p)) 0 (updates p) 0 0 in
        let* _sample := Store.select_sample in
        Store.ret (Some (Finished (Applied p counts.1 counts.2)))
      else Store.ret (Some (Finished (Cancelled p)))
  end.

End ImportScript.

(* ===================================================================== *)
(** ** HTTP handlers (server.js) *)
(* ===================================================================== *)

Module Server.
Import Supabase.

(** The response: the status line and the JSON envelope. *)
Record http_response := {
  status : nat;
  success : bool;
  body_data : option Voter.t;
  body_error : option string;
  body_message : option string
}.

#[global] Instance http_response_eq_dec : EqDecision http_response.
Proof. solve_decision. Defined.

(** The [catch] of every handler. *)
Definition internal_error (e : PostgrestError) : http_response :=
  {| status := 500; success := false; body_data := None;
     body_error := Some (message e); body_message := None |}.

(** GET /api/voters/:id (lines 118-139) *)
Definition getVoter (id : Z) : Store.M http_response :=
  let* r := Store.select_single id in
  match error r with
  | Some e => Store.ret (internal_error e)
  | None =>
      match data r with
      | None =>
          Store.ret {| status := 404; success := false; body_data := None;
                       body_error := Some "Voter not found"; body_message := None |}
      | Some d =>
          Store.ret {| status := 200; success := true; body_data := Some d;
                       body_error := None; body_message := None |}
      end
  end.

(** The spreadsheet mirror as the handlers see it: absent when the sheets
    client or the sheet id is not configured; otherwise a call that
    returns or throws. *)
Definition mirror : Type := option (option Voter.t → outcome unit).

(** Lines 161-168 and 199-205: the guarded, isolated mirror write. The
    result is what goes to the console. *)
Definition mirrorWrite (sheets : mirror) (d : option Voter.t) : list string :=
  match sheets with
  | None => []
  | Some updateGoogleSheet =>
      match updateGoogleSheet d with
      | Finished _ => []
      | Thrown sheetsError => ["Error updating Google Sheets: " +:+ message sheetsError]
      end
  end.

(** POST /api/voters/:id/vote (lines 142-179). [now] is
    [new Date().toISOString()]. *)
Definition vote (sheets : mirror) (now : string) (id : Z)
    : Store.M (http_response * list string) :=
  let votedAt := now in
  let* r := Store.update_vote id true (Some votedAt) in
  match error r with
  | Some e => Store.ret (internal_error e, [])
  | None =>
      let console := mirrorWrite sheets (data r) in
      Store.ret ({| status := 200; success := true; body_data := data r;
                    body_error := None;
                    body_message := Some "Vote recorded successfully" |}, console)
  end.

(** POST /api/voters/:id/unvote (lines 182-216) *)
Definition unvote (sheets : mirror) (id : Z)
    : Store.M (http_response * list string) :=
  let* r := Store.update_vote id false None in
  match error r with
  | Some e => Store.ret (internal_error e, [])
  | None =>
      let console := mirrorWrite sheets (data r) in
      Store.ret ({| status := 200; success := true; body_data := data r;
                    body_error := None;
                    body_message := Some "Vote removed successfully" |}, console)
  end.

End Server.

(* ===================================================================== *)
(** ** Arrays of strings (server.js 275) *)
(* ===================================================================== *)

Module JsArray.

(** [[...new Set(xs)]]: the values in the order of their first
    occurrence. *)
Definition unique {A} `{EqDecision A} (xs : list A) : list A :=
  foldl (λ seen x, if decide (x ∈ seen) then seen else seen ++ [x]) [] xs.

(** The order of [Array.prototype.sort] without a comparator, on strings,
    taken on the bytes of the text. The builtin compares UTF-16 code
    units: the two orders agree on text below U+D800 and differ where a
    character from U+E000 to U+FFFF meets one beyond U+FFFF. *)
Definition code_unit_le (a b : string) : Prop := String.leb a b = true.

#[global] Instance code_unit_le_dec : RelDecision code_unit_le.
Proof. intros a b. unfold code_unit_le. apply _. Defined.

Definition sort (xs : list string) : list string := merge_sort code_unit_le xs.

End JsArray.

(* ===================================================================== *)
(** ** Statistics and religions (server.js 219-282) *)
(* ===================================================================== *)

Module Queries.
Import Supabase.

(** [.select('*', { count: 'exact', head: true }).eq('has_voted', true)] *)
Definition count_voted : Store.M (response nat) :=
  Store.call (λ s, (s, length (filter (λ v, Voter.has_voted v = true) (Store.rows s))))
             (λ _, Counted).

(** [.select('religion, has_voted')] *)
Definition select_religion_has_voted
    : Store.M (response (list (option string * bool))) :=
  Store.call (λ s, (s, (λ v, (Voter.religion v, Voter.has_voted v))
                         <$> Store.bounded s (Store.rows s)))
             (λ d, Selected (length d)).

(** [.select('religion').not('religion', 'is', null)] *)
Definition select_religion_not_null : Store.M (response (list string)) :=
  Store.call (λ s, (s, omap Voter.religion
                         (Store.bounded s
                            (filter (λ v, Voter.religion v ≠ None) (Store.rows s)))))
             (λ d, Selected (length d)).

End Queries.

Module Stats.
Import Supabase.

Record tally := { total : nat; voted : nat }.

#[global] Instance tally_eq_dec : EqDecision tally.
Proof. solve_decision. Defined.

(** The key of the voters without a religion. *)
Definition unspecified : string := "غير محدد".

(** [voter.religion || 'غير محدد'] *)
Definition religion_key (religion : option string) : string :=
  if Js.truthy_text religion then Js.template religion else unspecified.

(** The body of the [forEach] (lines 239-246), for a religion that names
    no member of Object.prototype: on such a key the code finds the
    inherited member and makes no entry; this is not modelled. *)
Definition count_voter (byReligion : JsObject.assoc string tally)
    (voter : option string * bool) : JsObject.assoc string tally :=
  let rel := religion_key voter.1 in
  let byReligion :=
    match JsObject.get byReligion rel with
    | None => JsObject.set byReligion rel {| total := 0; voted := 0 |}
    | Some _ => byReligion
    end in
  let byReligion :=
    match JsObject.get byReligion rel with
    | Some t => JsObject.set byReligion rel {| total := total t + 1; voted := voted t |}
    | None => byReligion
    end in
  if voter.2 then
    match JsObject.get byReligion rel with
    | Some t => JsObject.set byReligion rel {| total := total t; voted := voted t + 1 |}
    | None => byReligion
    end
  else byReligion.

(** [religionStats?.forEach(..)] *)
Definition byReligion (religionStats : option (list (option string * bool)))
    : JsObject.assoc string tally :=
  match religionStats with
  | Some voters => foldl count_voter [] voters
  | None => []
  end.

(** A count inside an arithmetic expression: null counts as 0. *)
Definition to_number (count : option nat) : Z :=
  match count with
  | Some n => Z.of_nat n
  | None => 0
  end.

Record stats := {
  stats_total : option nat;
  stats_voted : option nat;
  notVoted : Z;
  percentage : Js.value;
  stats_byReligion : JsObject.assoc string tally
}.

Record http_response := {
  status : nat;
  success : bool;
  body_data : option stats;
  body_error : option string
}.

(** GET /api/stats (lines 219-263). [percent voted total] is the text of
    [((voted / total) * 100).toFixed(2)]. The responses' errors are not
    looked at. *)
Definition getStats (percent : Z → Z → string) : Store.M http_response :=
  let* r1 := Store.count in
  let total := data r1 in
  let* r2 := Queries.count_voted in
  let voted := data r2 in
  let* r3 := Queries.select_religion_has_voted in
  let religionStats := data r3 in
  Store.ret
    {| status := 200; success := true;
       body_data :=
         Some {| stats_total := total;
                 stats_voted := voted;
                 notVoted := (to_number total - to_number voted)%Z;
                 percentage :=
                   if (0 <? to_number total)%Z
                   then Js.Str (percent (to_number voted) (to_number total))
                   else Js.Num 0;
                 stats_byReligion := byReligion religionStats |};
       body_error := None |}.

End Stats.

Module Religions.
Import Supabase.

Record http_response := {
  status : nat;
  success : bool;
  body_data : option (list string);
  body_error : option string
}.

Definition internal_error (e : PostgrestError) : http_response :=
  {| status := 500; success := false; body_data := None;
     body_error := Some (message e) |}.

(** [r && r !== '--'] *)
Definition listed (r : string) : bool :=
  negb (bool_decide (r = "")) && negb (bool_decide (r = "--")).

(** GET /api/religions (lines 266-282) *)
Definition getReligions : Store.M http_response :=
  let* r := Queries.select_religion_not_null in
  match error r with
  | Some e => Store.ret (internal_error e)
  | None =>
      match data r with
      | None => Store.ret (internal_error type_error)
      | Some data =>
          let religions := JsArray.sort (filter (λ r, listed r = true) (JsArray.unique data)) in
          Store.ret {| status := 200; success := true;
                       body_data := Some religions; body_error := None |}
      end
  end.

End Religions.

(* ===================================================================== *)
(** ** Numbers read from text *)
(* ===================================================================== *)

Module JsNumber.

(** A Number: not a number, an infinity, or a finite value (here always
    an integer; the two zeros are one). *)
Inductive number :=
| NaN
| Infinity (negative : bool)
| Finite (n : Z).

#[global] Instance number_eq_dec : EqDecision number.
Proof. solve_decision. Defined.

(** The Number value of an integer: the nearest double, ties to the even
    significand; beyond the largest double, an infinity. *)
Definition of_Z (n : Z) : number :=
  let a := Z.abs n in
  let k := (Z.log2 a - 52)%Z in
  if (k <=? 0)%Z then Finite n
  else
    let q := Z.shiftr a k in
    let r := Z.land a (Z.ones k) in
    let half := Z.shiftl 1 (k - 1) in
    let q := if (half <? r)%Z || ((r =? half)%Z && Z.odd q) then (q + 1)%Z else q in
    let m := Z.shiftl q k in
    if (2 ^ 1024 <=? m)%Z then Infinity (n <? 0)%Z
    else Finite (Z.sgn n * m).

(** The value of a character as a digit: 0-9, then a-z or A-Z for 10-35. *)
Definition digit_value (c : ascii) : option Z :=
  let n := Z.of_nat (nat_of_ascii c) in
  if (48 <=? n)%Z && (n <=? 57)%Z then Some (n - 48)%Z
  else if (97 <=? n)%Z && (n <=? 122)%Z then Some (n - 87)%Z
  else if (65 <=? n)%Z && (n <=? 90)%Z then Some (n - 55)%Z
  else None.

(** The integer written by the longest prefix of radix-[R] digits; [seen]
    is its value so far, [None] before the first digit. *)
Fixpoint digits (R : Z) (s : string) (seen : option Z) : option Z :=
  match s with
  | EmptyString => seen
  | String c rest =>
      match digit_value c with
      | Some d =>
          if (d <? R)%Z then digits R rest (Some (R * default 0%Z seen + d)%Z)
          else seen
      | None => seen
      end
  end.

(** [parseInt(string)] with no radix: leading white space, a sign, a hex
    prefix, then the longest run of digits; the rest of the text is
    ignored. The value is taken exactly before it is rounded (the language
    lets an implementation round after the 20th digit). *)
Definition parseInt (inputString : string) : number :=
  let text := JsString.trimStart inputString in
  let '(negative, text) :=
    match text with
    | String "-" rest => (true, rest)
    | String "+" rest => (false, rest)
    | _ => (false, text)
    end in
  let '(R, text) :=
    match text with
    | String "0" (String "x" rest) => (16%Z, rest)
    | String "0" (String "X" rest) => (16%Z, rest)
    | _ => (10%Z, text)
    end in
  match digits R text None with
  | None => NaN
  | Some mathInt => of_Z (if negative then - mathInt else mathInt)
  end.

(** [x === v] for a Number [x] and a value [v]. *)
Definition strict_equal (x : number) (v : Js.value) : bool :=
  match x, v with
  | Finite n, Js.Num m => (n =? m)%Z
  | _, _ => false
  end.

(** An integer inside a template literal (integers below 10^21 print in
    decimal). *)
Definition to_text (n : Z) : string :=
  if (n <? 0)%Z then "-" +:+ JsString.of_N (Z.to_N (- n))
  else JsString.of_N (Z.to_N n).

End JsNumber.

(* ===================================================================== *)
(** ** The spreadsheet mirror (server.js 285-357) *)
(* ===================================================================== *)

Module Sheets.

(** The environment: GOOGLE_SHEET_ID and GOOGLE_SHEET_NAME. *)
Record env := {
  GOOGLE_SHEET_ID : option string;
  GOOGLE_SHEET_NAME : option string
}.

(** The two calls of the Sheets client. [get] resolves with
    [response.data.values] (absent for an empty range) or rejects;
    [update] resolves or rejects. *)
Record client := {
  get : option string → string → outcome (option (list (list string)));
  update : option string → string → string → outcome unit
}.

Inductive request :=
| Get (spreadsheetId : option string) (range : string)
| Update (spreadsheetId : option string) (range : string) (value : string).

#[global] Instance request_eq_dec : EqDecision request.
Proof. solve_decision. Defined.

(** A console line: its template and what fills it. *)
Inductive line :=
| RowNotFound (original_id : Js.value)
| RowUpdated (rowIndex : Z) (original_id : Js.value)
| RowCleared (rowIndex : Z) (original_id : Js.value).

Record run := {
  requests : list request;
  console : list line;
  result : outcome unit
}.

(** [rows[i][11] && parseInt(rows[i][11]) === voter.original_id] *)
Definition matches (original_id : Js.value) (row : list string) : bool :=
  match row !! 11 with
  | Some cell =>
      negb (bool_decide (cell = ""))
      && JsNumber.strict_equal (JsNumber.parseInt cell) original_id
  | None => false
  end.

(** The search loop (lines 297-305 and 335-342), from row [i] on: the
    1-based index of the first matching row, or -1. *)
Fixpoint findRow (rows : list (list string)) (i : nat) (original_id : Js.value) : Z :=
  match rows with
  | [] => (-1)%Z
  | row :: rest =>
      if matches original_id row then Z.of_nat (i + 1)
      else findRow rest (i + 1) original_id
  end.

(** [process.env.GOOGLE_SHEET_NAME || 'Sheet1'] *)
Definition sheetName (e : env) : string :=
  if Js.truthy_text (GOOGLE_SHEET_NAME e) then Js.template (GOOGLE_SHEET_NAME e)
  else "Sheet1".

(** Lines 285-323. *)
Definition updateGoogleSheet (e : env) (sheets : client) (voter : Voter.t) : run :=
  let sheetId := GOOGLE_SHEET_ID e in
  let sheetName := sheetName e in
  let all := sheetName +:+ "!A:L" in
  match get sheets sheetId all with
  | Thrown err => {| requests := [Get sheetId all]; console := []; result := Thrown err |}
  | Finished values =>
      let rows := default [] values in
      let rowIndex := findRow rows 0 (Voter.original_id voter) in
      if (rowIndex =? -1)%Z then
        {| requests := [Get sheetId all];
           console := [RowNotFound (Voter.original_id voter)];
           result := Finished tt |}
      else
        let cell := sheetName +:+ "!B" +:+ JsNumber.to_text rowIndex in
        match update sheets sheetId cell "Yes" with
        | Thrown err =>
            {| requests := [Get sheetId all; Update sheetId cell "Yes"];
               console := []; result := Thrown err |}
        | Finished _ =>
            {| requests := [Get sheetId all; Update sheetId cell "Yes"];
               console := [RowUpdated rowIndex (Voter.original_id voter)];
               result := Finished tt |}
        end
  end.

(** Lines 325-357. *)
Definition updateGoogleSheetUnvote (e : env) (sheets : client) (voter : Voter.t) : run :=
  let sheetId := GOOGLE_SHEET_ID e in
  let sheetName := sheetName e in
  let all := sheetName +:+ "!A:L" in
  match get sheets sheetId all with
  | Thrown err => {| requests := [Get sheetId all]; console := []; result := Thrown err |}
  | Finished values =>
      let rows := default [] values in
      let rowIndex := findRow rows 0 (Voter.original_id voter) in
      if (rowIndex =? -1)%Z then
        {| requests := [Get sheetId all]; console := []; result := Finished tt |}
      else
        let cell := sheetName +:+ "!B" +:+ JsNumber.to_text rowIndex in
        match update sheets sheetId cell "" with
        | Thrown err =>
            {| requests := [Get sheetId all; Update sheetId cell ""];
               console := []; result := Thrown err |}
        | Finished _ =>
            {| requests := [Get sheetId all; Update sheetId cell ""];
               console := [RowCleared rowIndex (Voter.original_id voter)];
               result := Finished tt |}
        end
  end.

End Sheets.

(* ===================================================================== *)
(** ** Sample tables *)
(* ===================================================================== *)

Module Sample.

Definition voter (id : Z) (full_name father_name register_number : option string)
    : Voter.t :=
  {| Voter.id := id; Voter.original_id := Js.Num id;
     Voter.full_name := full_name; Voter.father_name := father_name;
     Voter.register_number := register_number;
     Voter.family := Js.Null; Voter.classification := Js.Null;
     Voter.has_voted := false; Voter.voted_at := None;
     Voter.religion := None |}.

(** A table served without failures; [bound] is the server's bound on the
    rows of one response. *)
Definition table (bound : option nat) (rs : list Voter.t) : Store.t :=
  {| Store.rows := rs; Store.max_rows := bound;
     Store.log := []; Store.fault := λ _, None |}.

(** [n] records with ids [1..n] and distinct names. *)
Definition numbered (n : nat) : list Voter.t :=
  (λ i, voter (Z.of_nat i) (Some (JsString.of_nat i)) (Some "x")
              (Some (JsString.of_nat i))) <$> seq 1 n.

End Sample.

(* ===================================================================== *)
(** ** Vocabulary of the properties *)
(* ===================================================================== *)

(** No call fails. *)
Definition healthy (s : Store.t) : Prop := ∀ n, Store.fault s n = None.

(** The server's bound on a response, if any, admits a full page. *)
Definition page_fits (s : Store.t) : Prop :=
  match Store.max_rows s with
  | None => True
  | Some c => BulkFetch.pageSize ≤ c
  end.

(** The [k]-th window over a table of [N] rows, as the server sees it. *)
Definition window (N k : nat) : Supabase.event :=
  Supabase.Ranged (k * BulkFetch.pageSize)
                  (k * BulkFetch.pageSize + BulkFetch.pageSize - 1)
                  (Nat.min BulkFetch.pageSize (N - k * BulkFetch.pageSize)).

(** Ordered by id, ascending; ids are unique. *)
Definition ascending (l : list Voter.t) : Prop :=
  StronglySorted (λ u v, (Voter.id u < Voter.id v)%Z) l.


(** The import matcher in the words of its description: the row of the
    sheet yields an update when its id cell is not empty and some record has
    that original_id (the last such record of the snapshot gives the id);
    empty family and classification cells become null. *)
Definition matching (allVoters : list Voter.t) (originalId : Js.value) : list Voter.t :=
  filter (λ v, Voter.original_id v = originalId) allVoters.


Definition unmatched_row (ws : ImportScript.worksheet) (allVoters : list Voter.t)
    (row : nat) : Prop :=
  Js.truthy (ImportScript.cell_value ws "L" row) = true ∧
  matching allVoters (ImportScript.cell_value ws "L" row) = [].

#[global] Instance unmatched_row_dec ws allVoters row :
  Decision (unmatched_row ws allVoters row).
Proof. unfold unmatched_row. apply _. Defined.

(** What the updates of a plan, applied in order, make of a record. *)
Definition rename (us : list RegisterRepair.update) (v : Voter.t) : Voter.t :=
  foldl (λ v u, if decide (Voter.id v = RegisterRepair.id u)
                then Voter.set_register_number (Some (RegisterRepair.newRegNum u)) v
                else v) v us.

(** The server's bound on a response, if any, admits the whole table. *)
Definition table_fits (s : Store.t) : Prop :=
  match Store.max_rows s with
  | None => True
  | Some c => length (Store.rows s) ≤ c
  end.

(** The records of [rs'] are those of [rs], in the same order, with
    possibly other register numbers. *)
Definition same_but_register_number (rs rs' : list Voter.t) : Prop :=
  Forall2 (λ v v', v' = Voter.set_register_number (Voter.register_number v') v) rs rs'.

(** The records of [rs'] are those of [rs], in the same order, with
    possibly other families and classifications. *)
Definition same_but_family (rs rs' : list Voter.t) : Prop :=
  Forall2 (λ v v', v' = Voter.set_family_classification
                          (Voter.family v') (Voter.classification v') v) rs rs'.

(** The store [s'] comes from [s] by calls that keep the relation [R]
    between the tables: the server's bound and the fault schedule are the
    same. *)
Definition evolves (R : relation (list Voter.t)) (s s' : Store.t) : Prop :=
  R (Store.rows s) (Store.rows s') ∧
  Store.max_rows s' = Store.max_rows s ∧
  Store.fault s' = Store.fault s.

(** The records of [rs'] are records of [rs], unchanged and in the same
    order: some may be gone. *)
Definition remains_of (rs rs' : list Voter.t) : Prop := rs' `sublist_of` rs.

(** The [j]-th batch of the deletion loop. *)
Definition batch (ids : list Z) (j : nat) : list Z := take 100 (drop (j * 100) ids).

(** What the server sees of the [j]-th batch when the calls counted from
    [base] fail as [fault] says. *)
Definition batch_event (fault : nat → option Supabase.PostgrestError)
    (base : nat) (ids : list Z) (j : nat) : Supabase.event :=
  match fault (base + j) with
  | Some _ => Supabase.Refused
  | None => Supabase.Deleted (batch ids j)
  end.

(** What the server sees of the update of record [id] issued as call
    number [base + j]. *)
Definition update_event (fault : nat → option Supabase.PostgrestError)
    (base j : nat) (id : Z) : Supabase.event :=
  match fault (base + j) with
  | Some _ => Supabase.Refused
  | None => Supabase.Updated id
  end.

(** How many of the [n] calls from number [base] on fail. *)
Fixpoint failures (fault : nat → option Supabase.PostgrestError)
    (base n : nat) : nat :=
  match n with
  | 0 => 0
  | S n => (match fault base with Some _ => 1 | None => 0 end)
           + failures fault (S base) n
  end.

(** The voters of a list of [(religion, has_voted)] pairs counted under a
    key, and those of them that voted. *)
Definition counted (k : string) (voters : list (option string * bool)) : Stats.tally :=
  let members := filter (λ v, Stats.religion_key v.1 = k) voters in
  {| Stats.total := length members;
     Stats.voted := length (filter (λ v, v.2 = true) members) |}.

Definition sum_total (o : JsObject.assoc string Stats.tally) : nat :=
  sum_list (Stats.total <$> o.*2).

Definition sum_voted (o : JsObject.assoc string Stats.tally) : nat :=
  sum_list (Stats.voted <$> o.*2).

(** Text made of white space only. *)
Fixpoint blank (s : string) : Prop :=
  match s with
  | EmptyString => True
  | String c rest => JsString.is_white_space c = true ∧ blank rest
  end.

(** Text that is empty or starts with a character that is neither a digit
    nor a letter. *)
Definition ends_number (s : string) : Prop :=
  match s with
  | EmptyString => True
  | String c _ => JsNumber.digit_value c = None
  end.

(** Row [i] (from 0) is the first row of the sheet that answers to the
    id. *)
Definition first_match (original_id : Js.value) (rows : list (list string))
    (i : nat) : Prop :=
  (∃ row, rows !! i = Some row ∧ Sheets.matches original_id row = true) ∧
  ∀ j row, j < i → rows !! j = Some row → Sheets.matches original_id row = false.

(** The same request with another value to write. *)
Definition writing (value : string) (r : Sheets.request) : Sheets.request :=
  match r with
  | Sheets.Get i range => Sheets.Get i range
  | Sheets.Update i range _ => Sheets.Update i range value
  end.

(** A sheet with a header and two voters, the client that serves it, and
    a voter. *)
Definition sample_sheet : list (list string) :=
  [ ["Name"; "Voted"; "c"; "d"; "e"; "f"; "g"; "h"; "i"; "j"; "k"; "ID"];
    ["Ali"; ""; "c"; "d"; "e"; "f"; "g"; "h"; "i"; "j"; "k"; "7"];
    ["Sami"; ""; "c"; "d"; "e"; "f"; "g"; "h"; "i"; "j"; "k"; "8"] ].

Definition sample_client : Sheets.client :=
  {| Sheets.get := λ _ _, Finished (Some sample_sheet);
     Sheets.update := λ _ _ _, Finished tt |}.

Definition sample_env : Sheets.env :=
  {| Sheets.GOOGLE_SHEET_ID := Some "sheet"; Sheets.GOOGLE_SHEET_NAME := None |}.

Definition text_id_voter : Voter.t :=
  {| Voter.id := 7; Voter.original_id := Js.Str "7";
     Voter.full_name := Some "Ali"; Voter.father_name := Some "Omar";
     Voter.register_number := None;
     Voter.family := Js.Null; Voter.classification := Js.Null;
     Voter.has_voted := false; Voter.voted_at := None;
     Voter.religion := None |}.

(** What the updates of the import, applied in order, make of a record. *)
Definition enrich (us : list ImportScript.update) (v : Voter.t) : Voter.t :=
  foldl (λ v u, if decide (Voter.id v = ImportScript.id u)
                then Voter.set_family_classification
                       (ImportScript.family u) (ImportScript.classification u) v
                else v) v us.



(** The property names of Object.prototype. Read on a fresh object
    literal, such a key gives the inherited member, not [undefined]: the
    grouping idiom then has no array to push to, and the model of an object
    by its own keys does not apply. *)
Definition Object_prototype : list string :=
  [ "constructor"; "__defineGetter__"; "__defineSetter__"; "hasOwnProperty";
    "__lookupGetter__"; "__lookupSetter__"; "isPrototypeOf";
    "propertyIsEnumerable"; "toString"; "valueOf"; "__proto__";
    "toLocaleString" ].

(** No deduplication key of the table names a member of Object.prototype. *)
Definition plain_name_keys (rs : list Voter.t) : Prop :=
  Forall (λ v, Dedup.nameKey v ∉ Object_prototype) rs.

(** No register number of the table names a member of Object.prototype. *)
Definition plain_register_numbers (rs : list Voter.t) : Prop :=
  Forall (λ v, Js.template (Voter.register_number v) ∉ Object_prototype) rs.

(** The import matcher in the words of its description, read off the
    cells of the sheet. The value of a cell that is not empty: a missing
    cell and a cell holding null, the empty text, the number 0 or false
    are empty. *)
Definition filled (cell : option Js.value) : option Js.value :=
  match cell with
  | Some (Js.Num n) => if decide (n = 0%Z) then None else Some (Js.Num n)
  | Some (Js.Str s) => if decide (s = "") then None else Some (Js.Str s)
  | Some (Js.Bool true) => Some (Js.Bool true)
  | _ => None
  end.

(** The cell in column [col] of the sheet row that the loop index [row]
    stands for. *)
Definition sheet_cell (ws : ImportScript.worksheet) (col : string) (row : nat)
    : option Js.value :=
  ImportScript.cells ws (col +:+ JsString.of_nat (row + 1)).

(** The update that the description asks of a row: none when the id cell
    (column L) is empty or no record has that original_id; otherwise the id
    of the last such record with the family (column J) and the
    classification (column U) of the row, null where the cell is empty. *)
Definition described_update (ws : ImportScript.worksheet) (allVoters : list Voter.t)
    (row : nat) : option ImportScript.update :=
  match filled (sheet_cell ws "L" row) with
  | Some originalId =>
      match last (filter (λ v, Voter.original_id v = originalId) allVoters) with
      | Some voter =>
          Some {| ImportScript.id := Voter.id voter;
                  ImportScript.family := default Js.Null (filled (sheet_cell ws "J" row));
                  ImportScript.classification :=
                    default Js.Null (filled (sheet_cell ws "U" row)) |}
      | None => None
      end
  | None => None
  end.

(** A row that the description counts as unmatched: its id cell is not
    empty and it gets no update. *)
Definition described_unmatched (ws : ImportScript.worksheet) (allVoters : list Voter.t)
    (row : nat) : Prop :=
  is_Some (filled (sheet_cell ws "L" row)) ∧ described_update ws allVoters row = None.

#[global] Instance described_unmatched_dec ws allVoters row :
  Decision (described_unmatched ws allVoters row).
Proof. unfold described_unmatched. apply _. Defined.

(** The key under which the statistics count a religion, in the words of
    the handler's description: the religion itself, and one fixed key for
    the voters whose religion is null or empty. *)
Definition bucket (religion : option string) : string :=
  match religion with
  | Some r => if decide (r = "") then "غير محدد" else r
  | None => "غير محدد"
  end.

(** No religion of the table names a member of Object.prototype. *)
Definition plain_religions (rs : list Voter.t) : Prop :=
  Forall (λ v, bucket (Voter.religion v) ∉ Object_prototype) rs.

(** The voters of a list of [(religion, has_voted)] pairs that fall under
    a key, and those of them that voted. *)
Definition tallied (k : string) (voters : list (option string * bool)) : Stats.tally :=
  let members := filter (λ v, bucket v.1 = k) voters in
  {| Stats.total := length members;
     Stats.voted := length (filter (λ v, v.2 = true) members) |}.

(** [ceil(n / p)] *)
Definition ceil_div (n p : nat) : nat := (n + p - 1) / p.

(* ===================================================================== *)
(** * Properties *)
(* ===================================================================== *)

(** Closed decidable goals are settled by evaluation. *)
Ltac decide_closed := apply (bool_decide_unpack _); vm_compute; exact I.

(** ** The store model *)

Lemma logged_logged es1 es2 s :
  Store.logged es2 (Store.logged es1 s) = Store.logged (es1 ++ es2) s.
Proof. unfold Store.logged; simpl. by rewrite <- app_assoc. Qed.

Lemma logged_nil s : Store.logged [] s = s.
Proof. destruct s; unfold Store.logged; simpl. by rewrite app_nil_r. Qed.

Lemma healthy_logged es s : healthy s → healthy (Store.logged es s).
Proof. intros H n. apply H. Qed.

Lemma healthy_with_rows rs s : healthy s → healthy (Store.with_rows rs s).
Proof. intros H n. apply H. Qed.

Lemma call_healthy {A} (run : Store.t → Store.t * A) seen s :
  healthy s →
  Store.call run seen s =
    (Store.record (seen (run s).2) (run s).1, Supabase.ok (run s).2).
Proof.
  intros H. unfold Store.call. rewrite H. by destruct (run s).
Qed.

Lemma order_by_id_perm rs : Store.order_by_id rs ≡ₚ rs.
Proof. apply merge_sort_Permutation. Qed.

Lemma order_by_id_length rs : length (Store.order_by_id rs) = length rs.
Proof. by rewrite order_by_id_perm. Qed.

Lemma bounded_page s l :
  page_fits s →
  Store.bounded s (take BulkFetch.pageSize l) = take BulkFetch.pageSize l.
Proof.
  unfold page_fits, Store.bounded. destruct (Store.max_rows s) as [c|]; [|done].
  intros H. rewrite take_take. f_equal. lia.
Qed.

(** ** Bulk fetch *)

Section BulkFetchFacts.
Import Supabase.
Local Abbreviation P := BulkFetch.pageSize.

Lemma range_page s from :
  healthy s → page_fits s →
  Store.range from (from + P - 1) s =
    (let d := take P (drop from (Store.order_by_id (Store.rows s))) in
     (Store.record (Ranged from (from + P - 1) (length d)) s, ok d)).
Proof.
  intros Hh Hp. unfold Store.range. rewrite call_healthy by done. simpl.
  replace (from + P - 1 + 1 - from) with P by (unfold P; lia).
  by rewrite bounded_page.
Qed.

Lemma loop_pages n : ∀ k fuel acc s,
  healthy s → page_fits s →
  k + S n = length (Store.rows s) / P + 1 →
  S n ≤ fuel →
  BulkFetch.loop fuel acc (k * P) s =
    (Store.logged (window (length (Store.rows s)) <$> seq k (S n)) s,
     Some (Finished (acc ++ drop (k * P) (Store.order_by_id (Store.rows s))))).
Proof.
  induction n as [|n IH]; intros k fuel acc s Hh Hp Hk Hfuel;
    (destruct fuel as [|fuel]; [lia|]); simpl BulkFetch.loop;
    unfold Store.bind; rewrite range_page by done; cbv zeta;
    set (L := Store.order_by_id (Store.rows s));
    set (N := length (Store.rows s)) in *;
    assert (HL : length L = N) by apply order_by_id_length;
    assert (HP : 0 < P) by (unfold P; lia);
    pose proof (Nat.div_mod_eq N P) as Hdm;
    pose proof (Nat.mod_upper_bound N P ltac:(lia)) as Hmod;
    remember (N / P) as q eqn:Hq; remember (N mod P) as r eqn:Hr;
    cbn [error data ok].
  - assert (k = q) as Hk' by lia.
    assert (Hlen : length (take P (drop (k * P) L)) = N - k * P).
    { rewrite length_take, length_drop. nia. }
    rewrite bool_decide_eq_false_2 by (rewrite Hlen; nia).
    unfold Store.ret, Store.record. f_equal.
    + simpl. unfold window. rewrite Hlen. do 3 f_equal. nia.
    + do 3 f_equal. apply take_ge. rewrite length_drop. nia.
  - assert (Hlt : k < q) by lia.
    assert (Hlen : length (take P (drop (k * P) L)) = P).
    { rewrite length_take, length_drop. nia. }
    rewrite bool_decide_eq_true_2 by done.
    replace (k * P + P) with (S k * P) by lia.
    rewrite IH; [|by apply healthy_logged|done|unfold Store.record, Store.logged; cbn [Store.rows]; fold N; rewrite <- Hq; lia|lia].
    unfold Store.record. rewrite logged_logged. f_equal.
    + change (seq k (S (S n))) with (k :: seq (S k) (S n)).
      rewrite fmap_cons. cbn [Store.log app]. do 2 f_equal.
      unfold window. rewrite Hlen. f_equal; nia.
    + do 2 f_equal. simpl Store.rows. fold L. rewrite <- app_assoc. f_equal.
      replace (S k * P) with (k * P + P) by lia.
      rewrite <- drop_drop. apply take_drop.
Qed.

End BulkFetchFacts.

#[local] Instance id_le_total : Total Store.id_le.
Proof. intros u v. unfold Store.id_le. lia. Qed.

#[local] Instance id_le_trans : Transitive Store.id_le.
Proof. intros u v w. unfold Store.id_le. lia. Qed.

Lemma order_by_id_sorted rs : StronglySorted Store.id_le (Store.order_by_id rs).
Proof. apply StronglySorted_merge_sort; apply _. Qed.

(** C1 (as stated): the number of windowed requests is not ceil(N/P). On the
    empty table the loop issues one request, and ceil(0/1000) = 0. *)
Lemma fetchAll_requests_not_ceil :
  let s := Sample.table None [] in
  (BulkFetch.fetchAll 1 s).2 = Some (Finished []) ∧
  Store.log (BulkFetch.fetchAll 1 s).1 = [Supabase.Ranged 0 999 0] ∧
  length (Store.log (BulkFetch.fetchAll 1 s).1)
    ≠ ceil_div (length (Store.rows s)) BulkFetch.pageSize.
Proof. by vm_compute. Qed.

(** A full last page is followed by one more request: a table of exactly
    1000 records takes two, where ceil(1000/1000) = 1. *)
Lemma fetchAll_full_page (s : Store.t) (fuel : nat) :
  healthy s → page_fits s → length (Store.rows s) = 1000 → 1 < fuel →
  Store.log (BulkFetch.fetchAll fuel s).1
    = Store.log s ++ [Supabase.Ranged 0 999 1000; Supabase.Ranged 1000 1999 0] ∧
  ceil_div (length (Store.rows s)) BulkFetch.pageSize = 1.
Proof.
  intros Hh Hp HN Hfuel.
  pose proof (loop_pages 1 0 fuel [] s Hh Hp) as E. rewrite HN in *.
  unfold BulkFetch.fetchAll. change (0 * BulkFetch.pageSize) with 0 in E.
  rewrite E by (done || lia). done.
Qed.

(** C1 (amended): on a table of N records served without failures, whose
    bound on a response (if any) admits a page of P = 1000 rows, the loop
    ends after exactly N/P + 1 windowed requests, the k-th for the window
    [k*P, k*P + P - 1]; every page but the last is full and the last one is
    shorter than P, which is what stops the loop; and the pages put together
    are the records of the table in ascending order of id. *)
Theorem fetchAll_complete (s : Store.t) (fuel : nat) :
  healthy s → page_fits s →
  length (Store.rows s) / BulkFetch.pageSize < fuel →
  let N := length (Store.rows s) in
  let P := BulkFetch.pageSize in
  let s' := (BulkFetch.fetchAll fuel s).1 in
  (BulkFetch.fetchAll fuel s).2 = Some (Finished (Store.order_by_id (Store.rows s))) ∧
  Store.order_by_id (Store.rows s) ≡ₚ Store.rows s ∧
  StronglySorted Store.id_le (Store.order_by_id (Store.rows s)) ∧
  Store.rows s' = Store.rows s ∧
  Store.log s' = Store.log s ++ (window N <$> seq 0 (N / P + 1)) ∧
  length (window N <$> seq 0 (N / P + 1)) = N / P + 1 ∧
  (∀ k, k < N / P → window N k = Supabase.Ranged (k * P) (k * P + P - 1) P) ∧
  window N (N / P) = Supabase.Ranged (N / P * P) (N / P * P + P - 1) (N mod P) ∧
  N mod P < P.
Proof.
  intros Hh Hp Hfuel. cbv zeta.
  pose proof (loop_pages (length (Store.rows s) / BulkFetch.pageSize)
                0 fuel [] s Hh Hp) as E.
  change (0 * BulkFetch.pageSize) with 0 in E. rewrite drop_0 in E.
  unfold BulkFetch.fetchAll. rewrite E by lia. clear E.
  cbn [fst snd Store.logged Store.rows Store.log app].
  rewrite Nat.add_1_r.
  remember (length (Store.rows s)) as N eqn:HN.
  pose proof (Nat.div_mod_eq N BulkFetch.pageSize) as Hdm.
  assert (HP : 0 < BulkFetch.pageSize) by (unfold BulkFetch.pageSize; lia).
  pose proof (Nat.mod_upper_bound N BulkFetch.pageSize ltac:(lia)) as Hmod.
  remember (N / BulkFetch.pageSize) as q eqn:Hq.
  remember (N mod BulkFetch.pageSize) as r eqn:Hr.
  split_and!; auto using order_by_id_perm, order_by_id_sorted.
  - by rewrite length_fmap, length_seq.
  - intros k Hk. unfold window. f_equal. nia.
  - unfold window. f_equal. nia.
Qed.

Lemma fetchAll_complete_witness :
  let s := Sample.table (Some 1000) (Sample.numbered 3) in
  (BulkFetch.fetchAll 1 s).2 = Some (Finished (Store.order_by_id (Store.rows s))) ∧
  Store.log (BulkFetch.fetchAll 1 s).1 = [Supabase.Ranged 0 999 3].
Proof.
  pose proof (fetchAll_complete (Sample.table (Some 1000) (Sample.numbered 3)) 1) as H.
  cbv zeta in H.
  destruct H as (H1 & _ & _ & _ & H2 & _).
  - intros n. reflexivity.
  - vm_compute. lia.
  - vm_compute. lia.
  - split; [exact H1|]. rewrite H2. reflexivity.
Defined.

(** ** Single-voter handlers *)

Section ServerFacts.
Import Supabase.

Lemma single_cases {A} (r : response (list A)) :
  (∃ e, Store.single r = failed e) ∨ (∃ x, Store.single r = ok x).
Proof.
  unfold Store.single. destruct (error r) as [e|]; [by left; eexists|].
  destruct (data r) as [[|x [|y l]]|]; (by left; eexists) || (by right; eexists).
Qed.

(** The 404 branch of the handler is dead: [.single()] never resolves
    with neither data nor error. *)
Lemma getVoter_never_404 (id : Z) (s : Store.t) :
  Server.status (Server.getVoter id s).2 ≠ 404.
Proof.
  unfold Server.getVoter, Store.bind, Store.select_single.
  destruct (Store.call _ _ s) as [s1 r].
  destruct (single_cases r) as [[e ->]|[x ->]]; simpl; lia.
Qed.

Lemma filter_absent_id (id : Z) (rs : list Voter.t) :
  (∀ v, v ∈ rs → Voter.id v ≠ id) →
  filter (λ v, Voter.id v = id) rs = [].
Proof.
  intros H. induction rs as [|u rs IH]; [done|].
  rewrite filter_cons_False by (apply H; left).
  apply IH. intros v Hv. apply H. by right.
Qed.

(** Whatever the table, a request for an id that belongs to no record is
    answered with status 500 and the message of the store's error. *)
Lemma getVoter_absent_id (id : Z) (s : Store.t) :
  healthy s →
  (∀ v, v ∈ Store.rows s → Voter.id v ≠ id) →
  (Server.getVoter id s).2
    = {| Server.status := 500; Server.success := false;
         Server.body_data := None;
         Server.body_error := Some (message Store.no_single_row);
         Server.body_message := None |}.
Proof.
  intros Hh Habs.
  unfold Server.getVoter, Store.bind, Store.select_single.
  rewrite call_healthy by done. cbn [fst snd].
  by rewrite filter_absent_id.
Qed.

Lemma filter_present_id (f : Voter.t → Voter.t) (v : Voter.t) (rs : list Voter.t) :
  (∀ u, Voter.id (f u) = Voter.id u) →
  NoDup (Voter.id <$> rs) → v ∈ rs →
  filter (λ u, Voter.id u = Voter.id v)
         ((λ u, if decide (Voter.id u = Voter.id v) then f u else u) <$> rs)
    = [f v].
Proof.
  intros Hf. induction rs as [|u rs IH]; intros Hnd Hin.
  { by apply elem_of_nil in Hin. }
  rewrite fmap_cons in Hnd. apply NoDup_cons in Hnd as [Hu Hnd].
  rewrite fmap_cons. apply elem_of_cons in Hin as [<-|Hin].
  - rewrite decide_True by done. rewrite filter_cons_True by apply Hf.
    f_equal. apply filter_absent_id.
    intros w Hw Heq. apply list_elem_of_fmap in Hw as (w' & -> & Hw').
    apply Hu. apply list_elem_of_fmap. exists w'. split; [|done].
    destruct (decide (Voter.id w' = Voter.id v)) as [E|E]; [done|].
    congruence.
  - assert (Voter.id u ≠ Voter.id v) as Hne.
    { intros E. apply Hu. rewrite E. apply list_elem_of_fmap. by exists v. }
    rewrite decide_False by done. rewrite filter_cons_False by done.
    by apply IH.
Qed.

End ServerFacts.

(** C2: a request for an id that matches no record is answered with status
    500, not 404: here the table holds the ids 1 and 2 and the request is
    for 999. *)
Example getVoter_missing_is_500 :
  let s := Sample.table (Some 1000) (Sample.numbered 2) in
  Server.status (Server.getVoter 999 s).2 = 500 ∧
  Server.body_error (Server.getVoter 999 s).2
    = Some "JSON object requested, multiple (or no) rows returned" ∧
  Server.body_error (Server.getVoter 999 s).2 ≠ Some "Voter not found".
Proof. by vm_compute. Qed.

Section VoteFacts.
Import Supabase.

Lemma update_vote_present (hv : bool) (at_ : option string) (v : Voter.t) (s : Store.t) :
  healthy s → NoDup (Voter.id <$> Store.rows s) → v ∈ Store.rows s →
  Store.update_vote (Voter.id v) hv at_ s =
    (Store.record (Updated (Voter.id v))
       (Store.with_rows
          ((λ u, if decide (Voter.id u = Voter.id v)
                 then Voter.set_vote hv at_ u else u) <$> Store.rows s) s),
     ok (Voter.set_vote hv at_ v)).
Proof.
  intros Hh Hnd Hin. unfold Store.update_vote.
  rewrite call_healthy by done. cbn [fst snd]. f_equal.
  unfold Store.single. cbn [error data ok].
  by rewrite (filter_present_id (Voter.set_vote hv at_)).
Qed.

Lemma vote_mirror_irrelevant sheets sheets' now id s :
  (Server.vote sheets now id s).1 = (Server.vote sheets' now id s).1 ∧
  (Server.vote sheets now id s).2.1 = (Server.vote sheets' now id s).2.1 ∧
  Server.success (Server.vote sheets now id s).2.1
    = bool_decide (error (Store.update_vote id true (Some now) s).2 = None).
Proof.
  unfold Server.vote, Store.bind.
  destruct (Store.update_vote id true (Some now) s) as [s1 r].
  cbn [fst snd]. destruct (error r) as [e|]; cbn; split_and!; try done.
Qed.

Lemma unvote_mirror_irrelevant sheets sheets' id s :
  (Server.unvote sheets id s).1 = (Server.unvote sheets' id s).1 ∧
  (Server.unvote sheets id s).2.1 = (Server.unvote sheets' id s).2.1 ∧
  Server.success (Server.unvote sheets id s).2.1
    = bool_decide (error (Store.update_vote id false None s).2 = None).
Proof.
  unfold Server.unvote, Store.bind.
  destruct (Store.update_vote id false None s) as [s1 r].
  cbn [fst snd]. destruct (error r) as [e|]; cbn; split_and!; try done.
Qed.

End VoteFacts.

(** C8: on a table with unique ids served without failures, for the id of an
    existing record [v]: the vote handler answers 200 with success true and
    leaves the record with has_voted = true and voted_at set to the time of
    the request (not null); the unvote handler answers 200 with success
    true and leaves it with has_voted = false and voted_at = null; no other
    record changes. For every table and every id, the response and the
    table are the same whether the spreadsheet mirror is absent, succeeds
    or throws, and success is true exactly when the store update reported
    no error. *)
Theorem vote_unvote_store_decides
    (sheets : Server.mirror) (now : string) (v : Voter.t) (s : Store.t) :
  healthy s → NoDup (Voter.id <$> Store.rows s) → v ∈ Store.rows s →
  let voted := Voter.set_vote true (Some now) v in
  let unvoted := Voter.set_vote false None v in
  ((Server.vote sheets now (Voter.id v) s).2.1
     = {| Server.status := 200; Server.success := true;
          Server.body_data := Some voted; Server.body_error := None;
          Server.body_message := Some "Vote recorded successfully" |} ∧
   Store.rows (Server.vote sheets now (Voter.id v) s).1
     = (λ u, if decide (Voter.id u = Voter.id v)
             then Voter.set_vote true (Some now) u else u) <$> Store.rows s ∧
   voted ∈ Store.rows (Server.vote sheets now (Voter.id v) s).1 ∧
   Voter.has_voted voted = true ∧ Voter.voted_at voted = Some now) ∧
  ((Server.unvote sheets (Voter.id v) s).2.1
     = {| Server.status := 200; Server.success := true;
          Server.body_data := Some unvoted; Server.body_error := None;
          Server.body_message := Some "Vote removed successfully" |} ∧
   Store.rows (Server.unvote sheets (Voter.id v) s).1
     = (λ u, if decide (Voter.id u = Voter.id v)
             then Voter.set_vote false None u else u) <$> Store.rows s ∧
   unvoted ∈ Store.rows (Server.unvote sheets (Voter.id v) s).1 ∧
   Voter.has_voted unvoted = false ∧ Voter.voted_at unvoted = None) ∧
  (∀ sheets' id s0,
     (Server.vote sheets now id s0).1 = (Server.vote sheets' now id s0).1 ∧
     (Server.vote sheets now id s0).2.1 = (Server.vote sheets' now id s0).2.1 ∧
     Server.success (Server.vote sheets now id s0).2.1
       = bool_decide (Supabase.error (Store.update_vote id true (Some now) s0).2 = None)) ∧
  (∀ sheets' id s0,
     (Server.unvote sheets id s0).1 = (Server.unvote sheets' id s0).1 ∧
     (Server.unvote sheets id s0).2.1 = (Server.unvote sheets' id s0).2.1 ∧
     Server.success (Server.unvote sheets id s0).2.1
       = bool_decide (Supabase.error (Store.update_vote id false None s0).2 = None)).
Proof.
  intros Hh Hnd Hin voted unvoted.
  assert (Hmem : ∀ hv at_,
            Voter.set_vote hv at_ v ∈
              (λ u, if decide (Voter.id u = Voter.id v)
                    then Voter.set_vote hv at_ u else u) <$> Store.rows s).
  { intros hv at_. apply list_elem_of_fmap. exists v.
    by rewrite decide_True. }
  split_and!; try done.
  - unfold Server.vote, Store.bind. by rewrite update_vote_present.
  - unfold Server.vote, Store.bind. by rewrite update_vote_present.
  - unfold Server.vote, Store.bind. rewrite update_vote_present by done.
    apply Hmem.
  - unfold Server.unvote, Store.bind. by rewrite update_vote_present.
  - unfold Server.unvote, Store.bind. by rewrite update_vote_present.
  - unfold Server.unvote, Store.bind. rewrite update_vote_present by done.
    apply Hmem.
  - intros. apply vote_mirror_irrelevant.
  - intros. apply unvote_mirror_irrelevant.
Qed.

Lemma vote_unvote_store_decides_witness :
  let v := Sample.voter 5 (Some "a") (Some "b") None in
  let s := Sample.table (Some 1000) [Sample.voter 4 None None None; v] in
  let throws : Server.mirror :=
    Some (λ _, Thrown {| Supabase.message := "sheet unreachable" |}) in
  Server.status (Server.vote throws "2024-05-12T08:00:00.000Z" 5 s).2.1 = 200 ∧
  Server.success (Server.unvote throws 5 s).2.1 = true.
Proof.
  pose proof (vote_unvote_store_decides
    (Some (λ _, Thrown {| Supabase.message := "sheet unreachable" |}))
    "2024-05-12T08:00:00.000Z"
    (Sample.voter 5 (Some "a") (Some "b") None)
    (Sample.table (Some 1000)
       [Sample.voter 4 None None None; Sample.voter 5 (Some "a") (Some "b") None])) as H.
  cbv zeta in H. destruct H as ((H1 & _) & (H2 & _) & _).
  - intros n. reflexivity.
  - decide_closed.
  - decide_closed.
  - cbv zeta. change (Voter.id (Sample.voter 5 (Some "a") (Some "b") None)) with 5%Z in H1, H2.
    rewrite H1, H2. split; reflexivity.
Defined.

(** ** Objects used as dictionaries *)

Section AssocFacts.
Context {K V : Type} `{EqDecision K}.
Implicit Types (o : JsObject.assoc K V) (k : K) (v : V).

Lemma get_None o k : JsObject.get o k = None ↔ k ∉ o.*1.
Proof.
  induction o as [|[k1 v1] o IH]; simpl.
  - split; [intros _; apply not_elem_of_nil|done].
  - rewrite not_elem_of_cons. destruct (decide (k1 = k)) as [->|Hne].
    + split; [done|]. by intros [? _].
    + rewrite IH. naive_solver.
Qed.

Lemma get_Some o k v :
  NoDup o.*1 → JsObject.get o k = Some v ↔ (k, v) ∈ o.
Proof.
  induction o as [|[k1 v1] o IH]; simpl; intros Hnd.
  - split; [done|]. by intros ?%elem_of_nil.
  - apply NoDup_cons in Hnd as [Hk1 Hnd]. rewrite elem_of_cons.
    destruct (decide (k1 = k)) as [->|Hne].
    + split; [intros [= ->]; by left|].
      intros [[= ->]|Hin]; [done|]. exfalso. apply Hk1.
      apply list_elem_of_fmap. by exists (k, v).
    + rewrite IH by done. split; [by right|]. intros [[= -> ->]|?]; done.
Qed.

Lemma get_set o k v k' :
  JsObject.get (JsObject.set o k v) k'
    = if decide (k = k') then Some v else JsObject.get o k'.
Proof.
  induction o as [|[k1 v1] o IH]; simpl.
  - done.
  - destruct (decide (k1 = k)) as [->|Hne]; simpl.
    + destruct (decide (k = k')); done.
    + rewrite IH. destruct (decide (k1 = k')) as [->|]; [|done].
      by rewrite decide_False.
Qed.

Lemma set_fst o k v :
  (JsObject.set o k v).*1 = if decide (k ∈ o.*1) then o.*1 else o.*1 ++ [k].
Proof.
  induction o as [|[k1 v1] o IH].
  - rewrite decide_False; [done|apply not_elem_of_nil].
  - cbn [JsObject.set]. rewrite fmap_cons. cbn [fst].
    destruct (decide (k1 = k)) as [->|Hne].
    + rewrite decide_True; [done|by left].
    + rewrite fmap_cons, IH. cbn [fst].
      destruct (decide (k ∈ o.*1)) as [Hin|Hout].
      * rewrite decide_True; [done|by right].
      * rewrite decide_False; [done|]. rewrite not_elem_of_cons. done.
Qed.

Lemma NoDup_set o k v : NoDup o.*1 → NoDup (JsObject.set o k v).*1.
Proof.
  intros Hnd. rewrite set_fst. destruct (decide (k ∈ o.*1)); [done|].
  apply NoDup_app. split_and!; [done| |apply NoDup_singleton].
  intros x Hx ->%list_elem_of_singleton. done.
Qed.

Lemma has_true o k : JsObject.has o k = true ↔ k ∈ o.*1.
Proof.
  unfold JsObject.has. pose proof (get_None o k) as Hn.
  destruct (JsObject.get o k).
  - split; [intros _|done]. destruct (decide (k ∈ o.*1)); [done|].
    by apply Hn in n.
  - split; [done|]. intros Hin. by apply Hn in Hin.
Qed.

End AssocFacts.

Section PushFacts.
Context {A : Type}.
Implicit Types (o : JsObject.assoc string (list A)).

Lemma get_push o key x k :
  JsObject.get (JsObject.push o key x) k
    = if decide (key = k) then Some (default [] (JsObject.get o key) ++ [x])
      else JsObject.get o k.
Proof.
  unfold JsObject.push. destruct (JsObject.get o key) as [xs|] eqn:E.
  - rewrite E. by rewrite get_set.
  - rewrite get_set, decide_True by done. rewrite !get_set.
    destruct (decide (key = k)); done.
Qed.

Lemma NoDup_push o key x : NoDup o.*1 → NoDup (JsObject.push o key x).*1.
Proof.
  intros Hnd. unfold JsObject.push. destruct (JsObject.get o key) as [xs|] eqn:E.
  - rewrite E. by apply NoDup_set.
  - rewrite get_set, decide_True by done. by do 2 apply NoDup_set.
Qed.

Lemma Object_entries_perm {V} (o : JsObject.assoc string V) :
  JsObject.Object_entries o ≡ₚ o.
Proof.
  unfold JsObject.Object_entries. rewrite merge_sort_Permutation.
  induction o as [|e o IH]; [done|].
  destruct (JsObject.array_index e.1) as [n|] eqn:E.
  - rewrite filter_cons_False by (by rewrite E).
    cbn [omap list_omap]. rewrite E. csimpl. by rewrite IH.
  - rewrite filter_cons_True by done.
    cbn [omap list_omap]. rewrite E. csimpl.
    rewrite <- Permutation_middle. by rewrite IH.
Qed.

Lemma elem_of_Object_entries {V} (o : JsObject.assoc string V) e :
  e ∈ JsObject.Object_entries o ↔ e ∈ o.
Proof. by rewrite Object_entries_perm. Qed.

(** Grouping a list by a key function with the idiom of the scripts. *)
Context (key : A → string).

Lemma grouped_get_NoDup (l : list A) :
  let o := foldl (λ o x, JsObject.push o (key x) x) [] l in
  NoDup o.*1 ∧
  ∀ k, JsObject.get o k
       = match filter (λ x, key x = k) l with [] => None | vs => Some vs end.
Proof.
  induction l as [|x l IH] using rev_ind; simpl.
  - split; [constructor|done].
  - rewrite foldl_snoc. destruct IH as [Hnd Hget].
    split; [by apply NoDup_push|]. intros k.
    rewrite get_push, filter_app, filter_cons, filter_nil.
    destruct (decide (key x = k)) as [Hk|Hk].
    + rewrite Hget, Hk. by destruct (filter _ l).
    + rewrite Hget, app_nil_r. done.
Qed.

Lemma elem_of_grouped (l : list A) k vs :
  (k, vs) ∈ foldl (λ o x, JsObject.push o (key x) x) [] l
  ↔ vs = filter (λ x, key x = k) l ∧ vs ≠ [].
Proof.
  destruct (grouped_get_NoDup l) as [Hnd Hget]. cbv zeta in *.
  rewrite <- get_Some by done. rewrite Hget.
  destruct (filter _ l) as [|y ys]; naive_solver.
Qed.

End PushFacts.

(** ** Snapshots in ascending order of id *)

Section Ascending.

Lemma ascending_filter (P : Voter.t → Prop) `{∀ v, Decision (P v)} l :
  ascending l → ascending (filter P l).
Proof.
  unfold ascending. induction 1 as [|v l Hl IH Hv]; [constructor|].
  rewrite filter_cons. destruct (decide (P v)); [|done].
  constructor; [done|]. rewrite Forall_forall in Hv |- *.
  intros w [_ Hw]%list_elem_of_filter. by apply Hv.
Qed.

Lemma ascending_id_inj l u v :
  ascending l → u ∈ l → v ∈ l → Voter.id u = Voter.id v → u = v.
Proof.
  unfold ascending. induction 1 as [|w l Hl IH Hw]; intros Hu Hv E.
  { by apply elem_of_nil in Hu. }
  rewrite Forall_forall in Hw.
  apply elem_of_cons in Hu as [->|Hu]; apply elem_of_cons in Hv as [->|Hv];
    [done| | |by apply IH].
  - apply Hw in Hv. lia.
  - apply Hw in Hu. lia.
Qed.

Lemma ascending_NoDup_ids l : ascending l → NoDup (Voter.id <$> l).
Proof.
  unfold ascending. induction 1 as [|w l Hl IH Hw]; csimpl; constructor; [|done].
  rewrite Forall_forall in Hw.
  intros (u & E & Hu)%list_elem_of_fmap. apply Hw in Hu. lia.
Qed.

(** The members of a group after its first are the members with a
    lower-id companion in the group. *)
Lemma later_in_group (P : Voter.t → Prop) `{∀ v, Decision (P v)} l v :
  ascending l → v ∈ l →
  Voter.id v ∈ Voter.id <$> drop 1 (filter P l)
  ↔ P v ∧ ∃ u, u ∈ l ∧ P u ∧ (Voter.id u < Voter.id v)%Z.
Proof.
  intros Hasc Hv.
  pose proof (ascending_filter P l Hasc) as Hf.
  assert (Hmem : ∀ w, w ∈ filter P l ↔ P w ∧ w ∈ l)
    by (intros; apply list_elem_of_filter).
  destruct (filter P l) as [|h t]; simpl drop; rewrite ?drop_0.
  - split.
    + by intros ?%elem_of_nil.
    + intros [HP _]. exfalso. eapply elem_of_nil. apply Hmem. done.
  - apply StronglySorted_cons in Hf as [Hh Ht]. rewrite Forall_forall in Hh.
    split.
    + intros (w & E & Hw)%list_elem_of_fmap.
      assert (w ∈ h :: t) as Hw' by by right.
      apply Hmem in Hw' as [HPw Hwl].
      assert (w = v) as -> by by apply (ascending_id_inj l).
      split; [done|]. exists h.
      assert (h ∈ h :: t) as Hh' by by left.
      apply Hmem in Hh' as [HPh Hhl]. split_and!; [done..|]. by apply Hh.
    + intros (HP & u & Hu & HPu & Hlt).
      apply list_elem_of_fmap. exists v. split; [done|].
      assert (v ∈ h :: t) as Hv' by by apply Hmem.
      apply elem_of_cons in Hv' as [->|Hv']; [|done].
      assert (u ∈ h :: t) as Hu' by by apply Hmem.
      apply elem_of_cons in Hu' as [->|Hu']; [lia|].
      apply Hh in Hu'. lia.
Qed.

End Ascending.

(** ** Deduplication plan *)

Section DedupFacts.

Lemma elem_of_idsToDelete (allVoters : list Voter.t) (z : Z) :
  z ∈ Dedup.idsToDelete allVoters
  ↔ ∃ k, z ∈ Voter.id <$> drop 1 (filter (λ x, Dedup.nameKey x = k) allVoters).
Proof.
  unfold Dedup.idsToDelete, Dedup.duplicateGroups, Dedup.groupedByName.
  rewrite list_elem_of_bind. split.
  - intros ([k vs] & Hz & He). apply list_elem_of_filter in He as [_ He].
    apply elem_of_Object_entries, elem_of_grouped in He as [-> _].
    by exists k.
  - intros [k Hz]. exists (k, filter (λ x, Dedup.nameKey x = k) allVoters).
    split; [done|]. apply list_elem_of_filter.
    assert (1 < length (filter (λ x, Dedup.nameKey x = k) allVoters)) as Hlen.
    { destruct (filter _ allVoters) as [|? [|? ?]]; simpl in *;
        [by apply elem_of_nil in Hz..|lia]. }
    split; [done|]. apply elem_of_Object_entries, elem_of_grouped.
    split; [done|]. intros E. rewrite E in Hlen. simpl in Hlen. lia.
Qed.

Lemma marked_iff (allVoters : list Voter.t) (v : Voter.t) :
  ascending allVoters → v ∈ allVoters →
  Voter.id v ∈ Dedup.idsToDelete allVoters
  ↔ ∃ u, u ∈ allVoters ∧ Dedup.nameKey u = Dedup.nameKey v
         ∧ (Voter.id u < Voter.id v)%Z.
Proof.
  intros Hasc Hv. rewrite elem_of_idsToDelete. split.
  - intros [k Hz]. apply later_in_group in Hz as (Hk & u & ? & ? & ?); [|done..].
    exists u. split_and!; [done|congruence|done].
  - intros (u & Hu & Hk & Hlt). exists (Dedup.nameKey v).
    apply later_in_group; [done..|]. split; [done|]. by exists u.
Qed.

Lemma marked_in_snapshot (allVoters : list Voter.t) (z : Z) :
  z ∈ Dedup.idsToDelete allVoters → ∃ v, v ∈ allVoters ∧ Voter.id v = z.
Proof.
  rewrite elem_of_idsToDelete.
  intros (k & (w & -> & Hw)%list_elem_of_fmap).
  exists w. split; [|done].
  apply (subseteq_drop 1) in Hw. by apply list_elem_of_filter in Hw as [_ ?].
Qed.

End DedupFacts.

(** C4: on a snapshot in ascending order of id, the plan marks exactly the
    records that have a companion with the same key and a lower id, that is,
    every member of a key group except its lowest-id one; every marked id is
    the id of a record of the snapshot; a record that is alone in its group
    is never marked. *)
Theorem idsToDelete_exactly_later_members (allVoters : list Voter.t) :
  ascending allVoters →
  (∀ v, v ∈ allVoters →
     Voter.id v ∈ Dedup.idsToDelete allVoters
     ↔ ∃ u, u ∈ allVoters ∧ Dedup.nameKey u = Dedup.nameKey v
            ∧ (Voter.id u < Voter.id v)%Z) ∧
  (∀ z, z ∈ Dedup.idsToDelete allVoters →
     ∃ v, v ∈ allVoters ∧ Voter.id v = z) ∧
  (∀ v, v ∈ allVoters →
     (∀ u, u ∈ allVoters → Dedup.nameKey u = Dedup.nameKey v → u = v) →
     Voter.id v ∉ Dedup.idsToDelete allVoters).
Proof.
  intros Hasc. split_and!.
  - intros v Hv. by apply marked_iff.
  - apply marked_in_snapshot.
  - intros v Hv Halone (u & Hu & Hk & Hlt)%marked_iff; [|done..].
    apply Halone in Hk; [|done]. subst. lia.
Qed.

Lemma idsToDelete_exactly_later_members_witness :
  let snapshot :=
    [ Sample.voter 1 (Some "Ali") (Some "Omar") None;
      Sample.voter 2 (Some "ALI") (Some "omar") None;
      Sample.voter 3 (Some "Sami") (Some "Omar") None ] in
  (2%Z ∈ Dedup.idsToDelete snapshot) ∧ (3%Z ∉ Dedup.idsToDelete snapshot).
Proof.
  cbv zeta.
  destruct (idsToDelete_exactly_later_members
    [ Sample.voter 1 (Some "Ali") (Some "Omar") None;
      Sample.voter 2 (Some "ALI") (Some "omar") None;
      Sample.voter 3 (Some "Sami") (Some "Omar") None ]) as (H1 & _ & H3).
  - unfold ascending. repeat constructor; simpl; lia.
  - split.
    + apply (H1 (Sample.voter 2 (Some "ALI") (Some "omar") None)).
      * decide_closed.
      * exists (Sample.voter 1 (Some "Ali") (Some "Omar") None).
        split_and!; [decide_closed|by vm_compute|simpl; lia].
    + apply (H3 (Sample.voter 3 (Some "Sami") (Some "Omar") None)).
      * decide_closed.
      * intros u Hu Hk.
        repeat (apply elem_of_cons in Hu as [->|Hu]); [by vm_compute in Hk..|done|].
        by apply elem_of_nil in Hu.
Defined.

(** The lowest-id nameless record is not always kept: a record with the
    names "null" and "NULL" has the key of the nameless records, and when
    its id is lower it is the one that stays. *)
Example nameless_lowest_is_marked :
  let snapshot :=
    [ Sample.voter 1 (Some "null") (Some "NULL") None;
      Sample.voter 2 None None None;
      Sample.voter 3 None None None ] in
  Dedup.nameKey (Sample.voter 1 (Some "null") (Some "NULL") None) = "null_null" ∧
  Dedup.idsToDelete snapshot = [2%Z; 3%Z].
Proof. by vm_compute. Qed.

(** C10 (amended): a record whose full_name and father_name are both null
    has the key "null_null"; all such records of a snapshot sit in the one
    group of that key; on a snapshot in ascending order of id such a
    record is marked for deletion exactly when a record of that group has
    a lower id: so every one of them that has a lower-id companion among
    them is marked, and one that has the lowest id of the whole group
    (which may hold a record named "null", "null") is not. *)
Theorem null_names_are_duplicates (allVoters : list Voter.t) :
  ascending allVoters →
  let nameless v := Voter.full_name v = None ∧ Voter.father_name v = None in
  (∀ v, nameless v → Dedup.nameKey v = "null_null") ∧
  (∀ v, v ∈ allVoters → nameless v →
     ∃ vs, ("null_null", vs) ∈ Dedup.groupedByName allVoters ∧
           (∀ u, u ∈ allVoters → nameless u → u ∈ vs)) ∧
  (∀ v, v ∈ allVoters → nameless v →
     (∃ u, u ∈ allVoters ∧ nameless u ∧ (Voter.id u < Voter.id v)%Z) →
     Voter.id v ∈ Dedup.idsToDelete allVoters) ∧
  (∀ v, v ∈ allVoters → nameless v →
     (∀ u, u ∈ allVoters → Dedup.nameKey u = "null_null" →
           (Voter.id v ≤ Voter.id u)%Z) →
     Voter.id v ∉ Dedup.idsToDelete allVoters) ∧
  (∀ v, v ∈ allVoters → nameless v →
     (Voter.id v ∈ Dedup.idsToDelete allVoters
      ↔ ∃ u, u ∈ allVoters ∧ Dedup.nameKey u = "null_null" ∧
             (Voter.id u < Voter.id v)%Z)).
Proof.
  intros Hasc nameless.
  assert (Hkey : ∀ v, nameless v → Dedup.nameKey v = "null_null").
  { intros v [Hf Hp]. unfold Dedup.nameKey. by rewrite Hf, Hp. }
  split_and!; [done|..].
  - intros v Hv Hn.
    exists (filter (λ x, Dedup.nameKey x = "null_null") allVoters). split.
    + apply elem_of_grouped. split; [done|].
      intros E. eapply (filter_nil_not_elem_of _ _ v); [exact E| |exact Hv].
      by apply Hkey.
    + intros u Hu Hnu. apply list_elem_of_filter. auto.
  - intros v Hv Hn (u & Hu & Hnu & Hlt). apply marked_iff; [done..|].
    exists u. rewrite !Hkey by done. done.
  - intros v Hv Hn Hmin (u & Hu & Hk & Hlt)%marked_iff; [|done..].
    rewrite (Hkey v) in Hk by done. specialize (Hmin u Hu Hk). lia.
  - intros v Hv Hn. rewrite marked_iff by done. by rewrite (Hkey v).
Qed.

Lemma null_names_are_duplicates_witness :
  let snapshot :=
    [ Sample.voter 7 None None (Some "12");
      Sample.voter 8 (Some "Rami") None (Some "13");
      Sample.voter 9 None None (Some "14") ] in
  Dedup.idsToDelete snapshot = [9%Z] ∧ 9%Z ∈ Dedup.idsToDelete snapshot.
Proof.
  cbv zeta. split; [by vm_compute|].
  destruct (null_names_are_duplicates
    [ Sample.voter 7 None None (Some "12");
      Sample.voter 8 (Some "Rami") None (Some "13");
      Sample.voter 9 None None (Some "14") ]) as (_ & _ & H3 & _ & _).
  - unfold ascending. repeat constructor; simpl; lia.
  - apply (H3 (Sample.voter 9 None None (Some "14"))).
    + decide_closed.
    + by split.
    + exists (Sample.voter 7 None None (Some "12")).
      split_and!; [decide_closed|done|done|simpl; lia].
Defined.

Lemma filter_all {A} (P : A → Prop) `{∀ x, Decision (P x)} (l : list A) :
  (∀ x, x ∈ l → P x) → filter P l = l.
Proof.
  induction l as [|x l IH]; intros HP; [done|].
  rewrite filter_cons_True by (apply HP; left).
  f_equal. apply IH. intros y Hy. apply HP. by right.
Qed.

(** ** Running the deduplication script *)

Section DedupRun.
Import Supabase.

Lemma fetchAll_healthy s fuel :
  healthy s → page_fits s →
  length (Store.rows s) / BulkFetch.pageSize < fuel →
  BulkFetch.fetchAll fuel s =
    (Store.logged (window (length (Store.rows s)) <$>
                     seq 0 (length (Store.rows s) / BulkFetch.pageSize + 1)) s,
     Some (Finished (Store.order_by_id (Store.rows s)))).
Proof.
  intros Hh Hp Hfuel.
  pose proof (loop_pages (length (Store.rows s) / BulkFetch.pageSize)
                0 fuel [] s Hh Hp) as E.
  change (0 * BulkFetch.pageSize) with 0 in E. rewrite drop_0 in E.
  unfold BulkFetch.fetchAll. rewrite E by lia. by rewrite Nat.add_1_r.
Qed.

Lemma ascending_order_by_id rs :
  NoDup (Voter.id <$> rs) → ascending (Store.order_by_id rs).
Proof.
  intros Hnd. rewrite <- order_by_id_perm in Hnd.
  pose proof (order_by_id_sorted rs) as Hs.
  induction Hs as [|v l Hl IH Hv]; [constructor|].
  rewrite fmap_cons in Hnd. apply NoDup_cons in Hnd as [Hv' Hnd].
  constructor; [by apply IH|].
  rewrite Forall_forall in Hv |- *. intros u Hu.
  specialize (Hv u Hu). unfold Store.id_le in Hv.
  assert (Voter.id v ≠ Voter.id u); [|lia].
  intros E. apply Hv'. rewrite E. by apply list_elem_of_fmap_2.
Qed.

Lemma delete_in_healthy batch s :
  healthy s →
  Store.delete_in batch s =
    (Store.record (Deleted batch)
       (Store.with_rows (filter (λ v, Voter.id v ∉ batch) (Store.rows s)) s),
     ok ()).
Proof. intros Hh. unfold Store.delete_in. by rewrite call_healthy. Qed.

Lemma deleteBatches_healthy ids : ∀ fuel i s,
  healthy s → length ids - i ≤ fuel →
  ∃ s', Dedup.deleteBatches fuel i ids s = (s', []) ∧
        healthy s' ∧ Store.max_rows s' = Store.max_rows s ∧
        Store.rows s' = filter (λ v, Voter.id v ∉ drop i ids) (Store.rows s).
Proof.
  induction fuel as [|fuel IH]; intros i s Hh Hfuel; simpl.
  - exists s. split_and!; [done..|].
    rewrite drop_ge by lia. symmetry. apply filter_all.
    intros v _. apply not_elem_of_nil.
  - destruct (decide (i < length ids)) as [Hi|Hi].
    + rewrite bool_decide_eq_true_2 by done.
      unfold Store.bind. rewrite delete_in_healthy by done.
      set (s1 := Store.record _ _).
      destruct (IH (i + 100) s1) as (s' & E & Hh' & Hm & Hr).
      { apply healthy_logged, healthy_with_rows, Hh. }
      { lia. }
      rewrite E. cbn [error ok]. exists s'. split_and!; [done..|].
      rewrite Hr. subst s1.
      cbn [Store.rows Store.record Store.logged Store.with_rows].
      rewrite list_filter_filter. apply list_filter_iff. intros v.
      assert (∀ z, z ∈ drop i ids
                   ↔ z ∈ take 100 (drop i ids) ∨ z ∈ drop (i + 100) ids) as Hs.
      { intros z. by rewrite <- elem_of_app, <- drop_drop, take_drop. }
      rewrite (Hs (Voter.id v)). tauto.
    + rewrite bool_decide_eq_false_2 by done.
      exists s. split_and!; [done..|].
      rewrite drop_ge by lia. symmetry. apply filter_all.
      intros v _. apply not_elem_of_nil.
Qed.

Lemma duplicateGroups_nil allVoters :
  Dedup.duplicateGroups allVoters = [] ↔ Dedup.idsToDelete allVoters = [].
Proof.
  unfold Dedup.idsToDelete. split; [by intros ->|].
  destruct (Dedup.duplicateGroups allVoters) as [|[k vs] gs] eqn:E; [done|].
  assert ((k, vs) ∈ Dedup.duplicateGroups allVoters) as Hin
    by (rewrite E; left).
  apply list_elem_of_filter in Hin as [Hlen _]. csimpl.
  destruct vs as [|? [|? ?]]; simpl in Hlen; [lia..|done].
Qed.

Lemma removeDuplicates_healthy s fuel answer :
  healthy s → page_fits s →
  length (Store.rows s) / BulkFetch.pageSize < fuel →
  ∃ s' r,
    Dedup.removeDuplicates fuel answer s = (s', Some (Finished r)) ∧
    healthy s' ∧ Store.max_rows s' = Store.max_rows s ∧
    Store.rows s' =
      (if JsString.confirms answer
       then filter (λ v, Voter.id v ∉
                      Dedup.idsToDelete (Store.order_by_id (Store.rows s)))
                   (Store.rows s)
       else Store.rows s) ∧
    (Dedup.idsToDelete (Store.order_by_id (Store.rows s)) = [] → r = Dedup.Clean).
Proof.
  intros Hh Hp Hfuel. unfold Dedup.removeDuplicates, Store.bind.
  rewrite fetchAll_healthy by done.
  set (L := Store.order_by_id (Store.rows s)).
  set (s0 := Store.logged _ s).
  assert (Hh0 : healthy s0) by by apply healthy_logged.
  destruct (decide (length (Dedup.duplicateGroups L) = 0)) as [Hz|Hnz].
  - rewrite bool_decide_eq_true_2 by done.
    apply length_zero_iff_nil, duplicateGroups_nil in Hz.
    exists s0, Dedup.Clean. split_and!; [done..| |done].
    rewrite Hz. destruct (JsString.confirms answer); [|done].
    symmetry. apply filter_all. intros v _. apply not_elem_of_nil.
  - rewrite bool_decide_eq_false_2 by done.
    assert (Dedup.idsToDelete L ≠ []) as Hne.
    { intros E%duplicateGroups_nil. by rewrite E in Hnz. }
    destruct (JsString.confirms answer).
    + destruct (deleteBatches_healthy (Dedup.idsToDelete L)
                  (length (Dedup.idsToDelete L)) 0 s0 Hh0 ltac:(lia))
        as (s' & E & Hh' & Hm & Hr).
      rewrite E. unfold Store.count. rewrite call_healthy by done.
      cbn [fst snd error data ok]. eexists _, _.
      split_and!; [done|by apply healthy_logged|done|done|done].
    + eexists _, _. split_and!; done.
Qed.

End DedupRun.

Section DedupTwice.

Lemma NoDup_ids_filter (P : Voter.t → Prop) `{∀ v, Decision (P v)} rs :
  NoDup (Voter.id <$> rs) → NoDup (Voter.id <$> filter P rs).
Proof.
  induction rs as [|v rs IH]; [done|]. rewrite fmap_cons.
  intros [Hv Hnd]%NoDup_cons. rewrite filter_cons.
  destruct (decide (P v)); [|by apply IH].
  rewrite fmap_cons. apply NoDup_cons. split; [|by apply IH].
  intros (u & E & [_ Hu]%list_elem_of_filter)%list_elem_of_fmap.
  apply Hv. rewrite E. by apply list_elem_of_fmap_2.
Qed.


End DedupTwice.



(** ** Strings *)

Section StringFacts.
Import JsString.

Lemma append_nil_l (s : string) : "" +:+ s = s.
Proof. done. Qed.

Lemma append_cons (c : ascii) (a b : string) :
  String c a +:+ b = String c (a +:+ b).
Proof. done. Qed.









End StringFacts.


(** The other direction fails too: an underscore inside a name, or the
    name "null", gives two different pairs of names one key. *)
Example nameKey_not_injective :
  Dedup.nameKey (Sample.voter 1 (Some "a_b") (Some "c") None)
    = Dedup.nameKey (Sample.voter 2 (Some "a") (Some "b_c") None) ∧
  Dedup.nameKey (Sample.voter 3 None (Some "x") None)
    = Dedup.nameKey (Sample.voter 4 (Some "NULL") (Some "x") None).
Proof. by vm_compute. Qed.



(** ** Import matcher *)

Section ImportFacts.
Import ImportScript.

Lemma voterMap_get (allVoters : list Voter.t) (k : Js.value) :
  JsObject.get (voterMap allVoters) k = last (matching allVoters k).
Proof.
  unfold voterMap, matching.
  induction allVoters as [|x l IH] using rev_ind; [done|].
  rewrite foldl_snoc, get_set, filter_app, filter_cons, filter_nil.
  destruct (decide (Voter.original_id x = k)) as [Hk|Hk].
  - by rewrite last_snoc.
  - by rewrite app_nil_r.
Qed.

Lemma voterMap_has (allVoters : list Voter.t) (k : Js.value) :
  JsObject.has (voterMap allVoters) k = true
  ↔ ∃ v, v ∈ allVoters ∧ Voter.original_id v = k.
Proof.
  unfold JsObject.has. rewrite voterMap_get. unfold matching. split.
  - destruct (last _) as [v|] eqn:E; [|done]. intros _.
    apply last_Some_elem_of, list_elem_of_filter in E as [? ?]. by exists v.
  - intros (v & Hv & Hk).
    assert (v ∈ filter (λ v, Voter.original_id v = k) allVoters) as Hin
      by by apply list_elem_of_filter.
    destruct (last _) as [w|] eqn:El; [done|].
    apply last_None in El. rewrite El in Hin. by apply elem_of_nil in Hin.
Qed.



Lemma or_null_not_empty (v : Js.value) : Js.or_null v ≠ Js.Str "".
Proof.
  unfold Js.or_null. destruct v as [|n|s|b]; simpl.
  - done.
  - by destruct (n =? 0)%Z.
  - destruct (decide (s = "")) as [->|Hs]; [done|].
    rewrite bool_decide_eq_false_2 by done. simpl. congruence.
  - by destruct b.
Qed.

End ImportFacts.

Section ImportDescribed.
Import ImportScript.








End ImportDescribed.



(** ** Register-number repair *)

Section RepairFacts.
Import Supabase.

(** The repair script asks for the table in one call: it sees no more
    rows than the server's bound allows. *)
Lemma select_ordered_bounded (s : Store.t) (c : nat) :
  healthy s → Store.max_rows s = Some c →
  data (Store.select_ordered s).2 = Some (take c (Store.order_by_id (Store.rows s))) ∧
  (c < length (Store.rows s) →
   ∀ d, data (Store.select_ordered s).2 = Some d → length d < length (Store.rows s)).
Proof.
  intros Hh Hc. unfold Store.select_ordered. rewrite call_healthy by done.
  cbn [fst snd data ok]. unfold Store.bounded. rewrite Hc. split; [done|].
  intros Hlt d [= <-]. rewrite length_take, order_by_id_length. lia.
Qed.

End RepairFacts.

(** C9: behind a server that returns at most c rows per response, where c
    admits a page of the paginated fetch, and on a table of more than c
    records, the repair script loads the first c records in order of id and
    not the table, while the paginated fetch of the other two scripts
    returns every record; when those first c records hold no duplicate
    register number the script ends with "No duplicates found" and changes
    nothing, whatever the rest of the table holds. *)
Theorem fixRegisterNumbers_partial_snapshot
    (s : Store.t) (c : nat) (answer : string) :
  healthy s → Store.max_rows s = Some c →
  BulkFetch.pageSize ≤ c → c < length (Store.rows s) →
  let sorted := Store.order_by_id (Store.rows s) in
  Supabase.data (Store.select_ordered s).2 = Some (take c sorted) ∧
  length (take c sorted) = c ∧
  length sorted = length (Store.rows s) ∧
  (BulkFetch.fetchAll (length (Store.rows s) / BulkFetch.pageSize + 1) s).2
    = Some (Finished sorted) ∧
  (RegisterRepair.duplicateGroups (take c sorted) = [] →
   (RegisterRepair.fixRegisterNumbers answer s).2 = Finished RegisterRepair.Clean ∧
   Store.rows (RegisterRepair.fixRegisterNumbers answer s).1 = Store.rows s).
Proof.
  intros Hh Hc Hp Hlt. cbv zeta.
  destruct (select_ordered_bounded s c Hh Hc) as [Hd _].
  split_and!.
  - done.
  - rewrite length_take, order_by_id_length. lia.
  - apply order_by_id_length.
  - rewrite fetchAll_healthy; [done|done| |lia].
    unfold page_fits. by rewrite Hc.
  - intros Hnone. unfold RegisterRepair.fixRegisterNumbers, Store.bind.
    unfold Store.select_ordered in *. rewrite call_healthy in * by done.
    cbn [fst snd Supabase.data Supabase.error Supabase.ok] in *.
    injection Hd as ->. rewrite Hnone. done.
Qed.

Lemma fixRegisterNumbers_partial_snapshot_witness :
  let s := Sample.table (Some 1000) (Sample.numbered 1001) in
  Supabase.data (Store.select_ordered s).2
    = Some (take 1000 (Store.order_by_id (Store.rows s))) ∧
  length (take 1000 (Store.order_by_id (Store.rows s))) = 1000 ∧
  length (Store.order_by_id (Store.rows s)) = length (Store.rows s).
Proof.
  cbv zeta.
  destruct (fixRegisterNumbers_partial_snapshot
              (Sample.table (Some 1000) (Sample.numbered 1001)) 1000 "yes")
    as (H1 & H2 & H3 & _).
  - intros n. reflexivity.
  - reflexivity.
  - unfold BulkFetch.pageSize. lia.
  - unfold Sample.table. cbn [Store.rows]. unfold Sample.numbered.
    rewrite length_fmap, length_seq. lia.
  - exact (conj H1 (conj H2 H3)).
Defined.

(** The same on a small scale, with a bound of two rows: the third record
    repeats the register number of the first and the script finds no
    duplicates. *)
Example fixRegisterNumbers_misses_duplicate :
  let rows := [ Sample.voter 1 (Some "a") (Some "x") (Some "7");
                Sample.voter 2 (Some "b") (Some "x") (Some "8");
                Sample.voter 3 (Some "c") (Some "x") (Some "7") ] in
  (RegisterRepair.fixRegisterNumbers "yes" (Sample.table (Some 2) rows)).2
    = Finished RegisterRepair.Clean ∧
  Store.rows (RegisterRepair.fixRegisterNumbers "yes" (Sample.table (Some 2) rows)).1
    = rows ∧
  RegisterRepair.updates rows
    = [ {| RegisterRepair.id := 3; RegisterRepair.oldRegNum := "7";
           RegisterRepair.newRegNum := "7-1" |} ].
Proof. by vm_compute. Qed.

(** C3: the table holds the register numbers "A", "A" and "A-1". The plan
    renames the second record to "A-1", which the third record already
    carries; after the repair, with every update applied, two records share
    "A-1", and the script's own check counts one remaining duplicate. *)
Example fixRegisterNumbers_collides :
  let s := Sample.table (Some 1000)
             [ Sample.voter 1 (Some "a") (Some "x") (Some "A");
               Sample.voter 2 (Some "b") (Some "x") (Some "A");
               Sample.voter 3 (Some "c") (Some "x") (Some "A-1") ] in
  RegisterRepair.updates (Store.rows s)
    = [ {| RegisterRepair.id := 2; RegisterRepair.oldRegNum := "A";
           RegisterRepair.newRegNum := "A-1" |} ] ∧
  (RegisterRepair.fixRegisterNumbers "yes" s).2
    = Finished (RegisterRepair.Applied (RegisterRepair.updates (Store.rows s)) 1 0 1) ∧
  Voter.register_number <$> Store.rows (RegisterRepair.fixRegisterNumbers "yes" s).1
    = [Some "A"; Some "A-1"; Some "A-1"] ∧
  ¬ NoDup (Voter.register_number <$>
             Store.rows (RegisterRepair.fixRegisterNumbers "yes" s).1).
Proof.
  cbv zeta. split_and!; [by vm_compute..|].
  intros H. vm_compute in H. apply NoDup_cons in H as [_ H].
  apply NoDup_cons in H as [H _]. apply H. left.
Qed.

(** ** The repair plan *)

Section RepairPlan.
Import RegisterRepair.

Lemma byRegisterNumber_grouped (l : list Voter.t) :
  byRegisterNumber l
  = foldl (λ o x, JsObject.push o (default "" (Voter.register_number x)) x) []
          (filter (λ v, Js.truthy_text (Voter.register_number v) = true) l).
Proof.
  unfold byRegisterNumber. generalize (@nil (string * list Voter.t)).
  induction l as [|v l IH]; intros o; [done|].
  rewrite filter_cons. cbn [foldl].
  destruct (Voter.register_number v) as [key|] eqn:E.
  - destruct (Js.truthy_text (Some key)) eqn:Ht.
    + rewrite decide_True by done. cbn [foldl]. rewrite E. apply IH.
    + rewrite decide_False by congruence. apply IH.
  - rewrite decide_False by done. apply IH.
Qed.

Lemma truthy_text_Some (o : option string) (k : string) :
  o = Some k ∧ k ≠ "" ↔ Js.truthy_text o = true ∧ default "" o = k ∧ k ≠ "".
Proof.
  destruct o as [s|]; simpl.
  - split.
    + intros [[= ->] Hk]. by rewrite bool_decide_eq_false_2.
    + intros (_ & -> & ?). done.
  - split; [by intros [? _]|by intros [? _]].
Qed.

Lemma elem_of_byRegisterNumber (l : list Voter.t) (k : string) (vs : list Voter.t) :
  (k, vs) ∈ byRegisterNumber l
  ↔ vs = filter (λ v, Voter.register_number v = Some k) l ∧ vs ≠ [] ∧ k ≠ "".
Proof.
  rewrite byRegisterNumber_grouped, elem_of_grouped, list_filter_filter.
  destruct (decide (k = "")) as [->|Hk].
  - split; [|naive_solver]. intros [-> Hne]. exfalso. apply Hne.
    destruct (filter _ l) as [|v vs] eqn:E; [done|].
    assert (v ∈ filter (λ a, default "" (Voter.register_number a) = ""
                             ∧ Js.truthy_text (Voter.register_number a) = true) l)
      as Hv by (rewrite E; left).
    apply list_elem_of_filter in Hv as [[Hd Ht] _].
    destruct (Voter.register_number v); simpl in *; [|done].
    subst. done.
  - assert (filter (λ a, default "" (Voter.register_number a) = k
                         ∧ Js.truthy_text (Voter.register_number a) = true) l
            = filter (λ v, Voter.register_number v = Some k) l) as ->.
    { apply list_filter_iff. intros v.
      pose proof (truthy_text_Some (Voter.register_number v) k). tauto. }
    tauto.
Qed.

Lemma elem_of_groupUpdates (regNum : string) (voters : list Voter.t) (u : update) :
  u ∈ groupUpdates regNum voters
  ↔ ∃ index voter, voters !! index = Some voter ∧ index ≠ 0 ∧
      u = {| id := Voter.id voter; oldRegNum := regNum;
             newRegNum := regNum +:+ "-" +:+ JsString.of_nat index |}.
Proof.
  unfold groupUpdates. rewrite list_elem_of_join. split.
  - intros (us & Hu & Hus). apply list_elem_of_lookup in Hus as [index Hi].
    rewrite list_lookup_imap in Hi.
    destruct (voters !! index) as [voter|] eqn:Ev; [|done].
    simpl in Hi. injection Hi as <-.
    destruct (decide (index = 0)) as [->|Hne].
    + by apply elem_of_nil in Hu.
    + rewrite bool_decide_eq_false_2 in Hu by done.
      apply list_elem_of_singleton in Hu. by exists index, voter.
  - intros (index & voter & Hv & Hne & ->).
    eexists. split; [|apply list_elem_of_lookup; exists index;
                       by rewrite list_lookup_imap, Hv].
    rewrite bool_decide_eq_false_2 by done. by left.
Qed.

(** The plan: the member at index [i > 0] of the group of a non-empty
    register number [k] is renamed to [k-i]; nothing else is. *)
Lemma elem_of_updates (l : list Voter.t) (u : update) :
  u ∈ updates l
  ↔ ∃ k index voter,
      k ≠ "" ∧
      filter (λ v, Voter.register_number v = Some k) l !! index = Some voter ∧
      index ≠ 0 ∧
      u = {| id := Voter.id voter; oldRegNum := k;
             newRegNum := k +:+ "-" +:+ JsString.of_nat index |}.
Proof.
  unfold updates, duplicateGroups. rewrite list_elem_of_bind. split.
  - intros ([k vs] & Hu & Hg). apply list_elem_of_filter in Hg as [_ Hg].
    apply elem_of_Object_entries, elem_of_byRegisterNumber in Hg as (-> & _ & Hk).
    apply elem_of_groupUpdates in Hu as (index & voter & ? & ? & ->).
    by exists k, index, voter.
  - intros (k & index & voter & Hk & Hv & Hi & ->).
    exists (k, filter (λ v, Voter.register_number v = Some k) l). split.
    + apply elem_of_groupUpdates. by exists index, voter.
    + apply list_elem_of_filter. simpl.
      assert (index < length (filter (λ v, Voter.register_number v = Some k) l))
        as Hlen by by eapply lookup_lt_Some.
      split; [lia|].
      apply elem_of_Object_entries, elem_of_byRegisterNumber.
      split_and!; [done| |done]. intros E. rewrite E in Hlen. simpl in Hlen. lia.
Qed.

End RepairPlan.

(** ** Suffixes *)

Section SuffixFacts.
Import JsString.

Lemma includes_app_separator (c : ascii) (a b : string) :
  includes_char c (a +:+ String c b) = true.
Proof.
  induction a as [|x a IH].
  - rewrite append_nil_l. simpl. by rewrite bool_decide_eq_true_2.
  - rewrite append_cons. simpl. rewrite IH. apply orb_true_r.
Qed.

(** A string is cut in one way only at the last occurrence of a
    character. *)
Lemma cut_at_last (c : ascii) (a a' b b' : string) :
  includes_char c b = false → includes_char c b' = false →
  a +:+ String c b = a' +:+ String c b' → a = a' ∧ b = b'.
Proof.
  intros Hb Hb'. revert a'. induction a as [|x a IH]; intros [|x' a'] E;
    rewrite ?append_nil_l, ?append_cons in E.
  - by injection E as ->.
  - injection E as -> ->. by rewrite includes_app_separator in Hb.
  - injection E as -> <-. by rewrite includes_app_separator in Hb'.
  - injection E as -> E. by destruct (IH a' E) as [-> ->].
Qed.

Lemma string_of_uint_no_dash (d : Decimal.uint) :
  includes_char "-" (NilEmpty.string_of_uint d) = false.
Proof. induction d; simpl; done. Qed.

Lemma of_nat_no_dash (n : nat) : includes_char "-" (of_nat n) = false.
Proof. apply string_of_uint_no_dash. Qed.

Lemma of_nat_inj (n m : nat) : of_nat n = of_nat m → n = m.
Proof.
  unfold of_nat. intros E. apply DecimalNat.Unsigned.to_uint_inj.
  apply (f_equal NilEmpty.uint_of_string) in E.
  rewrite !NilEmpty.usu in E. by injection E.
Qed.

(** The value [regNum-index] determines the register number and the
    index. *)
Lemma suffix_inj (k k' : string) (i i' : nat) :
  k +:+ "-" +:+ of_nat i = k' +:+ "-" +:+ of_nat i' → k = k' ∧ i = i'.
Proof.
  change ("-" +:+ ?x) with (String "-" x).
  intros [-> E]%cut_at_last; [|apply of_nat_no_dash..].
  by apply of_nat_inj in E as ->.
Qed.

End SuffixFacts.

(** ** Applying the repair plan *)

Section RepairRun.
Import Supabase RegisterRepair.

Lemma update_register_number_healthy id r s :
  healthy s →
  Store.update_register_number id r s =
    (Store.record (Updated id)
       (Store.with_rows
          ((λ v, if decide (Voter.id v = id)
                 then Voter.set_register_number (Some r) v else v) <$> Store.rows s) s),
     ok ()).
Proof. intros Hh. unfold Store.update_register_number. by rewrite call_healthy. Qed.

Lemma rename_id (us : list update) (v : Voter.t) :
  Voter.id (rename us v) = Voter.id v.
Proof.
  revert v. induction us as [|u us IH]; intros v; [done|]. simpl.
  rewrite IH. by destruct (decide _).
Qed.

Lemma applyUpdates_healthy (us : list update) : ∀ s a b,
  healthy s →
  ∃ s', applyUpdates us a b s = (s', (a + length us, b)) ∧
        healthy s' ∧ Store.max_rows s' = Store.max_rows s ∧
        Store.rows s' = rename us <$> Store.rows s.
Proof.
  induction us as [|u us IH]; intros s a b Hh.
  - exists s. unfold rename. simpl. rewrite Nat.add_0_r, list_fmap_id. done.
  - simpl applyUpdates. unfold Store.bind.
    rewrite update_register_number_healthy by done. cbn [error ok].
    set (s1 := Store.record _ _).
    destruct (IH s1 (a + 1) b) as (s' & E & Hh' & Hm & Hr).
    { apply healthy_logged, healthy_with_rows, Hh. }
    exists s'. rewrite E. split_and!; [f_equal; f_equal; simpl; lia|done..|].
    rewrite Hr. subst s1. cbn [Store.rows Store.record Store.logged Store.with_rows].
    rewrite <- list_fmap_compose. done.
Qed.

Lemma rename_register_number (us : list update) (v : Voter.t) :
  Voter.register_number (rename us v)
  = match last (filter (λ u, id u = Voter.id v) us) with
    | Some u => Some (newRegNum u)
    | None => Voter.register_number v
    end.
Proof.
  revert v. induction us as [|u us IH] using rev_ind; intros v; [done|].
  unfold rename. rewrite foldl_snoc. fold (rename us v).
  rewrite filter_app, filter_cons, filter_nil, rename_id.
  destruct (decide (Voter.id v = id u)) as [E|E].
  - rewrite decide_True by done. by rewrite last_snoc.
  - rewrite decide_False by done. rewrite app_nil_r. apply IH.
Qed.

End RepairRun.

Section RepairOutcome.
Import Supabase RegisterRepair.

Lemma ascending_NoDup l : ascending l → NoDup l.
Proof. intros H. eapply NoDup_fmap_1, ascending_NoDup_ids, H. Qed.

(** The updates that concern a member of a group. *)
Lemma updates_for (l : list Voter.t) (k : string) (i : nat) (v : Voter.t) (u : update) :
  ascending l →
  filter (λ w, Voter.register_number w = Some k) l !! i = Some v →
  u ∈ updates l → id u = Voter.id v →
  i ≠ 0 ∧ u = {| id := Voter.id v; oldRegNum := k;
                 newRegNum := k +:+ "-" +:+ JsString.of_nat i |}.
Proof.
  intros Hasc Hv Hu Hid.
  apply elem_of_updates in Hu as (k' & i' & v' & Hk' & Hv' & Hi' & ->).
  simpl in Hid.
  pose proof (list_elem_of_lookup_2 _ _ _ Hv) as Hin.
  pose proof (list_elem_of_lookup_2 _ _ _ Hv') as Hin'.
  apply list_elem_of_filter in Hin as [Hr Hl].
  apply list_elem_of_filter in Hin' as [Hr' Hl'].
  assert (v' = v) as -> by by apply (ascending_id_inj l).
  assert (k' = k) as -> by congruence.
  assert (i' = i) as ->.
  { eapply NoDup_lookup; [|exact Hv'|exact Hv].
    by apply NoDup_filter, ascending_NoDup. }
  done.
Qed.

Lemma rename_in_group (l : list Voter.t) (k : string) (i : nat) (v : Voter.t) :
  ascending l → k ≠ "" →
  filter (λ w, Voter.register_number w = Some k) l !! i = Some v →
  Voter.register_number (rename (updates l) v)
  = Some (if decide (i = 0) then k else k +:+ "-" +:+ JsString.of_nat i).
Proof.
  intros Hasc Hk Hv. rewrite rename_register_number.
  assert (Hall : ∀ u, u ∈ filter (λ u, id u = Voter.id v) (updates l) →
            i ≠ 0 ∧ u = {| id := Voter.id v; oldRegNum := k;
                          newRegNum := k +:+ "-" +:+ JsString.of_nat i |}).
  { intros u [Hid Hu]%list_elem_of_filter. by eapply updates_for. }
  destruct (last _) as [u|] eqn:El.
  - apply last_Some_elem_of, Hall in El as [Hi ->]. by rewrite decide_False.
  - apply last_None in El. destruct (decide (i = 0)) as [->|Hi].
    + pose proof (list_elem_of_lookup_2 _ _ _ Hv) as Hin.
      by apply list_elem_of_filter in Hin as [? _].
    + exfalso. eapply (filter_nil_not_elem_of _ _ _ El); [|
        apply elem_of_updates; by exists k, i, v]. done.
Qed.

Lemma rename_outside (l : list Voter.t) (v : Voter.t) :
  v ∈ l → ascending l →
  Js.truthy_text (Voter.register_number v) = false →
  Voter.register_number (rename (updates l) v) = Voter.register_number v.
Proof.
  intros Hv Hasc Hf. rewrite rename_register_number.
  destruct (last _) as [u|] eqn:El; [|done]. exfalso.
  apply last_Some_elem_of, list_elem_of_filter in El as [Hid Hu].
  apply elem_of_updates in Hu as (k & i & v' & Hk & Hv' & _ & ->). simpl in Hid.
  apply list_elem_of_lookup_2, list_elem_of_filter in Hv' as [Hr Hl].
  assert (v' = v) as -> by by apply (ascending_id_inj l).
  rewrite Hr in Hf. simpl in Hf. by rewrite bool_decide_eq_false_2 in Hf.
Qed.

(** After the repair two records share a non-empty register number only
    if the plan gave one of them a value that another record already
    carried. *)
Lemma rename_distinct (l : list Voter.t) (v w : Voter.t) :
  ascending l → v ∈ l → w ∈ l → v ≠ w →
  (∀ u x, u ∈ updates l → x ∈ l → Voter.register_number x ≠ Some (newRegNum u)) →
  Js.truthy_text (Voter.register_number (rename (updates l) v)) = true →
  Voter.register_number (rename (updates l) v)
    ≠ Voter.register_number (rename (updates l) w).
Proof.
  intros Hasc Hv Hw Hne Hfresh Ht E.
  assert (Hpos : ∀ x, x ∈ l →
            Js.truthy_text (Voter.register_number (rename (updates l) x)) = true →
            ∃ k i, k ≠ "" ∧
                   filter (λ y, Voter.register_number y = Some k) l !! i = Some x).
  { intros x Hx Hxt.
    destruct (Voter.register_number x) as [k|] eqn:Ex.
    - destruct (decide (k = "")) as [->|Hk].
      + rewrite rename_outside in Hxt by (done || by rewrite Ex).
        by rewrite Ex in Hxt.
      + assert (x ∈ filter (λ y, Voter.register_number y = Some k) l) as Hin
          by by apply list_elem_of_filter.
        apply list_elem_of_lookup in Hin as [i Hi]. by exists k, i.
    - rewrite rename_outside in Hxt by (done || by rewrite Ex).
      by rewrite Ex in Hxt. }
  destruct (Hpos v Hv Ht) as (k & i & Hk & Hi).
  destruct (Hpos w Hw ltac:(by rewrite <- E)) as (k' & i' & Hk' & Hi').
  rewrite (rename_in_group l k i v), (rename_in_group l k' i' w) in E by done.
  injection E as E.
  pose proof (list_elem_of_lookup_2 _ _ _ Hi) as [Hrv _]%list_elem_of_filter.
  pose proof (list_elem_of_lookup_2 _ _ _ Hi') as [Hrw _]%list_elem_of_filter.
  destruct (decide (i = 0)) as [->|Hi0]; destruct (decide (i' = 0)) as [->|Hi0'].
  - subst k'. rewrite Hi in Hi'. by injection Hi'.
  - apply (Hfresh {| id := Voter.id w; oldRegNum := k';
                     newRegNum := k' +:+ "-" +:+ JsString.of_nat i' |} v);
      [apply elem_of_updates; by exists k', i', w|done|]. simpl. by rewrite Hrv, E.
  - apply (Hfresh {| id := Voter.id v; oldRegNum := k;
                     newRegNum := k +:+ "-" +:+ JsString.of_nat i |} w);
      [apply elem_of_updates; by exists k, i, v|done|]. simpl. by rewrite Hrw, E.
  - apply suffix_inj in E as [-> ->]. rewrite Hi in Hi'. by injection Hi'.
Qed.

End RepairOutcome.

Section RepairScript.
Import Supabase RegisterRepair.

Lemma bounded_fits (s : Store.t) (rs : list Voter.t) :
  table_fits s → length rs ≤ length (Store.rows s) → Store.bounded s rs = rs.
Proof.
  unfold table_fits, Store.bounded. destruct (Store.max_rows s); [|done].
  intros ??. apply take_ge. lia.
Qed.

Lemma updates_nil (l : list Voter.t) : duplicateGroups l = [] → updates l = [].
Proof. unfold updates. by intros ->. Qed.

(** X10: on a table with unique ids that the server returns whole and without
    failures, and in which no register number names a member of
    Object.prototype (such as "constructor": the script stops on these
    with a TypeError), a confirmed run of the repair script ends, renames
    exactly as the plan says (the first member of a group keeps its
    register number, the member at index i gets "regNum-i", records
    without a register number are left alone), and leaves no two records
    with the same non-empty register number unless the plan assigned a
    value that another record already carried. *)
Lemma fixRegisterNumbers_repairs (s : Store.t) (answer : string) :
  healthy s → table_fits s → NoDup (Voter.id <$> Store.rows s) →
  plain_register_numbers (Store.rows s) →
  JsString.confirms answer = true →
  let snapshot := Store.order_by_id (Store.rows s) in
  let plan := updates snapshot in
  let s' := (fixRegisterNumbers answer s).1 in
  (∃ r, (fixRegisterNumbers answer s).2 = Finished r) ∧
  Store.rows s' = rename plan <$> Store.rows s ∧
  (∀ k i v, k ≠ "" →
     filter (λ w, Voter.register_number w = Some k) snapshot !! i = Some v →
     Voter.register_number (rename plan v)
     = Some (if decide (i = 0) then k else k +:+ "-" +:+ JsString.of_nat i)) ∧
  (∀ v, v ∈ Store.rows s → Js.truthy_text (Voter.register_number v) = false →
     Voter.register_number (rename plan v) = Voter.register_number v) ∧
  ((∀ u x, u ∈ plan → x ∈ Store.rows s →
           Voter.register_number x ≠ Some (newRegNum u)) →
   ∀ v w, v ∈ Store.rows s → w ∈ Store.rows s → v ≠ w →
     Js.truthy_text (Voter.register_number (rename plan v)) = true →
     Voter.register_number (rename plan v) ≠ Voter.register_number (rename plan w)).
Proof.
  intros Hh Hfit Hnd _ Hyes. cbv zeta.
  pose proof (ascending_order_by_id _ Hnd) as Hasc.
  set (L := Store.order_by_id (Store.rows s)) in *.
  assert (HinL : ∀ v, v ∈ L ↔ v ∈ Store.rows s)
    by (intros v; unfold L; by rewrite order_by_id_perm).
  assert (Hrun : ∃ r, (fixRegisterNumbers answer s).2 = Finished r ∧
                      Store.rows (fixRegisterNumbers answer s).1
                        = rename (updates L) <$> Store.rows s).
  { unfold fixRegisterNumbers, Store.bind, Store.select_ordered.
    rewrite call_healthy by done. cbn [fst snd error data ok].
    rewrite bounded_fits by (done || by rewrite order_by_id_length). fold L.
    destruct (decide (length (duplicateGroups L) = 0)) as [Hz|Hnz].
    - rewrite bool_decide_eq_true_2 by done.
      apply length_zero_iff_nil in Hz. rewrite (updates_nil L Hz).
      exists Clean. split; [done|]. simpl. by rewrite list_fmap_id.
    - rewrite bool_decide_eq_false_2 by done. rewrite Hyes.
      destruct (applyUpdates_healthy (updates L)
                  (Store.record (Selected (length L)) s) 0 0)
        as (s1 & E & Hh1 & Hm1 & Hr1); [by apply healthy_logged|].
      rewrite E. unfold Store.select_register_numbers.
      rewrite call_healthy by done. cbn [fst snd error data ok].
      eexists. split; [done|]. apply Hr1. }
  destruct Hrun as (r & Hr & Hrows). split_and!.
  - by exists r.
  - done.
  - intros k i v Hk Hv. by apply rename_in_group.
  - intros v Hv Hf. apply rename_outside; [by apply HinL|done..].
  - intros Hfresh v w Hv Hw Hne Ht.
    apply rename_distinct; [done|by apply HinL..|done| |done].
    intros u x Hu Hx. apply Hfresh; [done|by apply HinL].
Qed.

End RepairScript.

Lemma fixRegisterNumbers_repairs_witness :
  let s := Sample.table (Some 1000)
             [ Sample.voter 1 (Some "a") (Some "x") (Some "A");
               Sample.voter 2 (Some "b") (Some "x") (Some "A");
               Sample.voter 3 (Some "c") (Some "x") (Some "B") ] in
  Voter.register_number <$> Store.rows (RegisterRepair.fixRegisterNumbers "yes" s).1
    = [Some "A"; Some "A-1"; Some "B"].
Proof.
  cbv zeta.
  destruct (fixRegisterNumbers_repairs
    (Sample.table (Some 1000)
       [ Sample.voter 1 (Some "a") (Some "x") (Some "A");
         Sample.voter 2 (Some "b") (Some "x") (Some "A");
         Sample.voter 3 (Some "c") (Some "x") (Some "B") ]) "yes") as (_ & H & _).
  - intros n. reflexivity.
  - vm_compute. lia.
  - decide_closed.
  - decide_closed.
  - reflexivity.
  - rewrite H. by vm_compute.
Defined.

(** Records with an empty register number are left out of the grouping by
    the guard [if (key)]: two of them stay as they are. *)
Example fixRegisterNumbers_skips_empty :
  let rows := [ Sample.voter 1 (Some "a") (Some "x") (Some "");
                Sample.voter 2 (Some "b") (Some "x") (Some "");
                Sample.voter 3 (Some "c") (Some "x") None ] in
  RegisterRepair.byRegisterNumber rows = [] ∧
  (RegisterRepair.fixRegisterNumbers "yes" (Sample.table (Some 1000) rows)).2
    = Finished RegisterRepair.Clean.
Proof. by vm_compute. Qed.

(** ** What the calls leave alone *)

Section Frame.
Import Supabase.

Lemma call_ok {A} (run : Store.t → Store.t * A) seen s :
  Store.fault s (length (Store.log s)) = None →
  Store.call run seen s =
    (Store.record (seen (run s).2) (run s).1, ok (run s).2).
Proof. intros H. unfold Store.call. rewrite H. by destruct (run s). Qed.

Lemma call_refused {A} (run : Store.t → Store.t * A) seen s e :
  Store.fault s (length (Store.log s)) = Some e →
  Store.call run seen s = (Store.record Refused s, failed e).
Proof. intros H. unfold Store.call. by rewrite H. Qed.

Lemma same_but_register_number_refl rs : same_but_register_number rs rs.
Proof. apply Forall_Forall2_diag, Forall_forall. by intros [] _. Qed.

Lemma same_but_register_number_trans rs1 rs2 rs3 :
  same_but_register_number rs1 rs2 → same_but_register_number rs2 rs3 →
  same_but_register_number rs1 rs3.
Proof.
  unfold same_but_register_number. intros H. revert rs3.
  induction H as [|v1 v2 l1 l2 E H IH]; intros rs3 H3.
  - by apply Forall2_nil_inv_l in H3 as ->.
  - apply Forall2_cons_inv_l in H3 as (v3 & l3 & E3 & H3 & ->).
    constructor; [|by apply IH]. rewrite E3, E. by destruct v1.
Qed.

Lemma same_but_family_refl rs : same_but_family rs rs.
Proof. apply Forall_Forall2_diag, Forall_forall. by intros [] _. Qed.

Lemma same_but_family_trans rs1 rs2 rs3 :
  same_but_family rs1 rs2 → same_but_family rs2 rs3 → same_but_family rs1 rs3.
Proof.
  unfold same_but_family. intros H. revert rs3.
  induction H as [|v1 v2 l1 l2 E H IH]; intros rs3 H3.
  - by apply Forall2_nil_inv_l in H3 as ->.
  - apply Forall2_cons_inv_l in H3 as (v3 & l3 & E3 & H3 & ->).
    constructor; [|by apply IH]. rewrite E3, E. by destruct v1.
Qed.

Context (R : relation (list Voter.t)) `{!Reflexive R, !Transitive R}.

Lemma evolves_refl s : evolves R s s.
Proof. by split_and!. Qed.

Lemma evolves_trans s1 s2 s3 : evolves R s1 s2 → evolves R s2 s3 → evolves R s1 s3.
Proof.
  intros (H1 & Hm1 & Hf1) (H2 & Hm2 & Hf2). split_and!; [by etrans|congruence..].
Qed.

Lemma evolves_logged es s : evolves R s (Store.logged es s).
Proof. by split_and!. Qed.

(** A call whose effect on the table keeps [R] keeps it whether it is
    served or refused. *)
Lemma evolves_call {A} (run : Store.t → Store.t * A) seen s :
  evolves R s (run s).1 → evolves R s (Store.call run seen s).1.
Proof.
  intros H. unfold Store.call. destruct (Store.fault s _); [apply evolves_logged|].
  destruct (run s) as [s1 a]. simpl in *.
  eapply evolves_trans; [exact H|apply evolves_logged].
Qed.

Lemma evolves_range from to s : evolves R s (Store.range from to s).1.
Proof. apply evolves_call, evolves_refl. Qed.

Lemma evolves_select_ordered s : evolves R s (Store.select_ordered s).1.
Proof. apply evolves_call, evolves_refl. Qed.

Lemma evolves_select_register_numbers s :
  evolves R s (Store.select_register_numbers s).1.
Proof. apply evolves_call, evolves_refl. Qed.

Lemma evolves_select_sample s : evolves R s (Store.select_sample s).1.
Proof. apply evolves_call, evolves_refl. Qed.

Lemma evolves_count s : evolves R s (Store.count s).1.
Proof. apply evolves_call, evolves_refl. Qed.

Lemma evolves_loop fuel : ∀ acc from s,
  evolves R s (BulkFetch.loop fuel acc from s).1.
Proof.
  induction fuel as [|fuel IH]; intros acc from s; [apply evolves_refl|].
  simpl. unfold Store.bind.
  pose proof (evolves_range from (from + BulkFetch.pageSize - 1) s) as H.
  destruct (Store.range _ _ s) as [s1 r]. simpl in H.
  destruct (error r); [done|]. destruct (data r) as [d|]; [|done].
  destruct (bool_decide _); [|done].
  eapply evolves_trans; [exact H|apply IH].
Qed.

End Frame.

(** ** What the scripts never do *)

#[local] Instance same_but_register_number_reflexive : Reflexive same_but_register_number.
Proof. intros rs. apply same_but_register_number_refl. Qed.

#[local] Instance same_but_register_number_transitive : Transitive same_but_register_number.
Proof. intros ???. apply same_but_register_number_trans. Qed.

#[local] Instance same_but_family_reflexive : Reflexive same_but_family.
Proof. intros rs. apply same_but_family_refl. Qed.

#[local] Instance same_but_family_transitive : Transitive same_but_family.
Proof. intros ???. apply same_but_family_trans. Qed.

#[local] Instance remains_of_reflexive : Reflexive remains_of.
Proof. intros rs. unfold remains_of. done. Qed.

#[local] Instance remains_of_transitive : Transitive remains_of.
Proof. intros rs1 rs2 rs3. unfold remains_of. intros ??. by etrans. Qed.

Section ScriptFrames.
Import Supabase.

(** The page fetched by a served request. *)
Lemma range_served s from :
  page_fits s → Store.fault s (length (Store.log s)) = None →
  Store.range from (from + BulkFetch.pageSize - 1) s =
    (let d := take BulkFetch.pageSize (drop from (Store.order_by_id (Store.rows s))) in
     (Store.record (Ranged from (from + BulkFetch.pageSize - 1) (length d)) s, ok d)).
Proof.
  intros Hp Hf. unfold Store.range. rewrite call_ok by done. simpl.
  replace (from + BulkFetch.pageSize - 1 + 1 - from) with BulkFetch.pageSize
    by (unfold BulkFetch.pageSize; lia).
  by rewrite bounded_page.
Qed.

(** Whatever fails, a fetch that ends normally has read the whole table. *)
Lemma loop_finished fuel : ∀ acc k s l,
  page_fits s →
  (BulkFetch.loop fuel acc (k * BulkFetch.pageSize) s).2 = Some (Finished l) →
  l = acc ++ drop (k * BulkFetch.pageSize) (Store.order_by_id (Store.rows s)).
Proof.
  induction fuel as [|fuel IH]; intros acc k s l Hp; [done|].
  simpl. unfold Store.bind.
  destruct (Store.fault s (length (Store.log s))) as [e|] eqn:Hf.
  { unfold Store.range. by rewrite (call_refused _ _ _ e). }
  rewrite range_served by done. cbv zeta. cbn [error data ok].
  set (L := Store.order_by_id (Store.rows s)).
  destruct (decide (length (take BulkFetch.pageSize (drop (k * BulkFetch.pageSize) L))
                    = BulkFetch.pageSize)) as [E|E].
  - rewrite bool_decide_eq_true_2 by done.
    replace (k * BulkFetch.pageSize + BulkFetch.pageSize)
      with (S k * BulkFetch.pageSize) by lia.
    intros H. apply IH in H; [|done]. rewrite H.
    unfold Store.record, Store.logged. cbn [Store.rows]. fold L.
    rewrite <- app_assoc. f_equal.
    replace (S k * BulkFetch.pageSize) with (k * BulkFetch.pageSize + BulkFetch.pageSize) by lia.
    rewrite <- drop_drop. apply take_drop.
  - rewrite bool_decide_eq_false_2 by done. intros [= <-]. f_equal.
    apply take_ge. rewrite length_take in E. lia.
Qed.

Lemma fetchAll_finished fuel s l :
  page_fits s → (BulkFetch.fetchAll fuel s).2 = Some (Finished l) →
  l = Store.order_by_id (Store.rows s).
Proof.
  intros Hp H. apply (loop_finished fuel [] 0 s l Hp) in H.
  by rewrite H.
Qed.

Lemma evolves_delete_in batch s :
  evolves remains_of s (Store.delete_in batch s).1 ∧
  ∀ v, v ∈ Store.rows s → Voter.id v ∉ batch →
       v ∈ Store.rows (Store.delete_in batch s).1.
Proof.
  unfold Store.delete_in, Store.call.
  destruct (Store.fault s _); simpl.
  - split; [by split_and!|done].
  - split; [split_and!; [apply sublist_filter|done..]|].
    intros v Hv Hb. by apply list_elem_of_filter.
Qed.

Lemma evolves_deleteBatches ids fuel : ∀ i s,
  evolves remains_of s (Dedup.deleteBatches fuel i ids s).1 ∧
  ∀ v, v ∈ Store.rows s → Voter.id v ∉ ids →
       v ∈ Store.rows (Dedup.deleteBatches fuel i ids s).1.
Proof.
  induction fuel as [|fuel IH]; intros i s; simpl.
  { split; [apply (evolves_refl _)|done]. }
  destruct (bool_decide _); [|split; [apply (evolves_refl _)|done]].
  unfold Store.bind.
  destruct (evolves_delete_in (take 100 (drop i ids)) s) as [H1 H2].
  destruct (Store.delete_in _ s) as [s1 r]. simpl in H1, H2.
  destruct (IH (i + 100) s1) as [H3 H4].
  destruct (Dedup.deleteBatches fuel (i + 100) ids s1) as [s2 errs]. simpl in *.
  split; [by eapply (evolves_trans _)|].
  intros v Hv Hid. apply H4; [|done]. apply H2; [done|].
  intros Hin. apply Hid. eapply subseteq_drop, subseteq_take, Hin.
Qed.

Lemma evolves_update_register_number id r s :
  evolves same_but_register_number s (Store.update_register_number id r s).1.
Proof.
  apply (evolves_call _). split_and!; [|done..]. simpl.
  apply Forall2_fmap_r, Forall_Forall2_diag, Forall_forall.
  intros v _. simpl. case_decide; by destruct v.
Qed.

Lemma evolves_repair_applyUpdates us : ∀ a b s,
  evolves same_but_register_number s (RegisterRepair.applyUpdates us a b s).1.
Proof.
  induction us as [|u us IH]; intros a b s; [apply (evolves_refl _)|].
  simpl. unfold Store.bind.
  pose proof (evolves_update_register_number
                (RegisterRepair.id u) (RegisterRepair.newRegNum u) s) as H.
  destruct (Store.update_register_number _ _ s) as [s1 r]. simpl in H.
  destruct (error r); (eapply (evolves_trans _); [exact H|apply IH]).
Qed.

Lemma evolves_update_family_classification id f c s :
  evolves same_but_family s (Store.update_family_classification id f c s).1.
Proof.
  apply (evolves_call _). split_and!; [|done..]. simpl.
  apply Forall2_fmap_r, Forall_Forall2_diag, Forall_forall.
  intros v _. simpl. case_decide; by destruct v.
Qed.

Lemma evolves_applyBatch batch : ∀ a b s,
  evolves same_but_family s (ImportScript.applyBatch batch a b s).1.
Proof.
  induction batch as [|u us IH]; intros a b s; [apply (evolves_refl _)|].
  simpl. unfold Store.bind.
  pose proof (evolves_update_family_classification
                (ImportScript.id u) (ImportScript.family u)
                (ImportScript.classification u) s) as H.
  destruct (Store.update_family_classification _ _ _ s) as [s1 r]. simpl in H.
  destruct (error r); (eapply (evolves_trans _); [exact H|apply IH]).
Qed.

Lemma evolves_import_applyUpdates us fuel : ∀ i a b s,
  evolves same_but_family s (ImportScript.applyUpdates fuel i us a b s).1.
Proof.
  induction fuel as [|fuel IH]; intros i a b s; [apply (evolves_refl _)|].
  simpl. destruct (bool_decide _); [|apply (evolves_refl _)].
  unfold Store.bind.
  pose proof (evolves_applyBatch (take 100 (drop i us)) a b s) as H.
  destruct (ImportScript.applyBatch _ a b s) as [s1 counts]. simpl in H.
  eapply (evolves_trans _); [exact H|apply IH].
Qed.

End ScriptFrames.

Section ScriptSafety.
Import Supabase.

Lemma same_but_register_number_erased rs rs' :
  same_but_register_number rs rs' →
  Voter.set_register_number None <$> rs' = Voter.set_register_number None <$> rs.
Proof.
  induction 1 as [|v v' l l' E H IH]; [done|]. rewrite !fmap_cons, IH.
  f_equal. rewrite E. by destruct v.
Qed.

Lemma same_but_family_erased rs rs' :
  same_but_family rs rs' →
  Voter.set_family_classification Js.Null Js.Null <$> rs'
  = Voter.set_family_classification Js.Null Js.Null <$> rs.
Proof.
  induction 1 as [|v v' l l' E H IH]; [done|]. rewrite !fmap_cons, IH.
  f_equal. rewrite E. by destruct v.
Qed.

Lemma evolves_fixRegisterNumbers answer s :
  evolves same_but_register_number s (RegisterRepair.fixRegisterNumbers answer s).1.
Proof.
  unfold RegisterRepair.fixRegisterNumbers, Store.bind.
  pose proof (evolves_select_ordered same_but_register_number s) as H0.
  destruct (Store.select_ordered s) as [s0 r]. simpl in H0.
  destruct (error r); [done|]. destruct (data r) as [allVoters|]; [|done].
  destruct (bool_decide _); [done|].
  destruct (JsString.confirms answer); [|done].
  pose proof (evolves_repair_applyUpdates
                (RegisterRepair.updates allVoters) 0 0 s0) as H1.
  destruct (RegisterRepair.applyUpdates _ 0 0 s0) as [s1 counts]. simpl in H1.
  pose proof (evolves_select_register_numbers same_but_register_number s1) as H2.
  destruct (Store.select_register_numbers s1) as [s2 after]. simpl in H2.
  assert (evolves same_but_register_number s s2)
    by (eapply (evolves_trans _); [|exact H2]; by eapply (evolves_trans _)).
  by destruct (data after).
Qed.

Lemma evolves_importData ws fuel answer s :
  evolves same_but_family s (ImportScript.importData ws fuel answer s).1.
Proof.
  unfold ImportScript.importData, Store.bind.
  pose proof (evolves_loop same_but_family fuel [] 0 s) as H0.
  unfold BulkFetch.fetchAll.
  destruct (BulkFetch.loop fuel [] 0 s) as [s0 [[allVoters|e]|]]; simpl in H0;
    [|done..].
  destruct (JsString.confirms answer); [|done].
  set (us := ImportScript.updates _).
  pose proof (evolves_import_applyUpdates us (length us) 0 0 0 s0) as H1.
  destruct (ImportScript.applyUpdates _ 0 us 0 0 s0) as [s1 counts]. simpl in H1.
  pose proof (evolves_select_sample same_but_family s1) as H2.
  destruct (Store.select_sample s1) as [s2 sample]. simpl in *.
  eapply (evolves_trans _); [|exact H2]. by eapply (evolves_trans _).
Qed.

End ScriptSafety.

(** X1: whatever the operator answers and whichever calls fail, the repair
    script leaves the table with the same records in the same order, every
    field but register_number as it was: with the register numbers erased,
    the table after the run is the table before it. *)
Theorem fixRegisterNumbers_only_renames (answer : string) (s : Store.t) :
  let s' := (RegisterRepair.fixRegisterNumbers answer s).1 in
  same_but_register_number (Store.rows s) (Store.rows s') ∧
  Voter.set_register_number None <$> Store.rows s'
    = Voter.set_register_number None <$> Store.rows s ∧
  Voter.id <$> Store.rows s' = Voter.id <$> Store.rows s.
Proof.
  cbv zeta. destruct (evolves_fixRegisterNumbers answer s) as (H & _ & _).
  split_and!; [done|by apply same_but_register_number_erased|].
  apply same_but_register_number_erased in H.
  apply (f_equal (fmap Voter.id)) in H.
  by rewrite <- !list_fmap_compose in H.
Qed.

(** X2: whatever the sheet holds, whatever the operator answers and
    whichever calls fail, the import script neither adds nor removes a
    record and changes no field but family and classification. *)
Theorem importData_only_enriches
    (ws : ImportScript.worksheet) (fuel : nat) (answer : string) (s : Store.t) :
  let s' := (ImportScript.importData ws fuel answer s).1 in
  same_but_family (Store.rows s) (Store.rows s') ∧
  Voter.set_family_classification Js.Null Js.Null <$> Store.rows s'
    = Voter.set_family_classification Js.Null Js.Null <$> Store.rows s ∧
  Voter.id <$> Store.rows s' = Voter.id <$> Store.rows s.
Proof.
  cbv zeta. destruct (evolves_importData ws fuel answer s) as (H & _ & _).
  split_and!; [done|by apply same_but_family_erased|].
  apply same_but_family_erased in H.
  apply (f_equal (fmap Voter.id)) in H.
  by rewrite <- !list_fmap_compose in H.
Qed.

(** X3: whatever the operator answers and whichever calls fail, the
    deduplication script only removes records: what is left is a part of
    the table, unchanged and in the same order; a record that the plan does
    not mark is still there; and with unique ids the lowest-id record of
    every key group is still there. *)
Theorem removeDuplicates_only_removes_planned
    (fuel : nat) (answer : string) (s : Store.t) :
  page_fits s →
  let plan := Dedup.idsToDelete (Store.order_by_id (Store.rows s)) in
  let s' := (Dedup.removeDuplicates fuel answer s).1 in
  Store.rows s' `sublist_of` Store.rows s ∧
  (∀ v, v ∈ Store.rows s → Voter.id v ∉ plan → v ∈ Store.rows s') ∧
  (NoDup (Voter.id <$> Store.rows s) →
   ∀ v, v ∈ Store.rows s →
     (∀ u, u ∈ Store.rows s → Dedup.nameKey u = Dedup.nameKey v →
           (Voter.id v ≤ Voter.id u)%Z) →
     v ∈ Store.rows s').
Proof.
  intros Hp. cbv zeta.
  assert (Hmain :
    Store.rows (Dedup.removeDuplicates fuel answer s).1 `sublist_of` Store.rows s ∧
    ∀ v, v ∈ Store.rows s →
         Voter.id v ∉ Dedup.idsToDelete (Store.order_by_id (Store.rows s)) →
         v ∈ Store.rows (Dedup.removeDuplicates fuel answer s).1).
  { unfold Dedup.removeDuplicates, Store.bind.
    pose proof (evolves_loop eq fuel [] 0 s) as (H0 & _ & _).
    pose proof (fetchAll_finished fuel s) as Hall.
    unfold BulkFetch.fetchAll in *.
    destruct (BulkFetch.loop fuel [] 0 s) as [s0 res]. simpl in H0, Hall.
    destruct res as [[allVoters|e]|]; simpl; rewrite <- ?H0; [|done..].
    rewrite (Hall allVoters Hp eq_refl).
    destruct (bool_decide _); simpl; rewrite <- ?H0; [done|].
    destruct (JsString.confirms answer); simpl; rewrite <- ?H0; [|done].
    set (ids := Dedup.idsToDelete _).
    destruct (evolves_deleteBatches ids (length ids) 0 s0) as [(H1 & _ & _) H2].
    destruct (Dedup.deleteBatches _ 0 ids s0) as [s1 errs]. simpl in H1, H2.
    pose proof (evolves_count eq s1) as (H3 & _ & _).
    destruct (Store.count s1) as [s2 c]. simpl in *.
    rewrite <- H3. rewrite <- H0 in H1, H2. by split. }
  destruct Hmain as [Hsub Hkeep]. split_and!; [done..|].
  intros Hnd v Hv Hmin. apply Hkeep; [done|].
  intros (u & Hu & Hk & Hlt)%marked_iff;
    [|by apply ascending_order_by_id|by rewrite order_by_id_perm].
  rewrite order_by_id_perm in Hu. specialize (Hmin u Hu Hk). lia.
Qed.

Lemma removeDuplicates_only_removes_planned_witness :
  let s := Sample.table (Some 1000)
             [ Sample.voter 1 (Some "Ali") (Some "Omar") None;
               Sample.voter 2 (Some "ALI") (Some "omar") None ] in
  Store.rows (Dedup.removeDuplicates 1 "yes" s).1 `sublist_of` Store.rows s ∧
  Sample.voter 1 (Some "Ali") (Some "Omar") None
    ∈ Store.rows (Dedup.removeDuplicates 1 "yes" s).1.
Proof.
  cbv zeta.
  destruct (removeDuplicates_only_removes_planned 1 "yes"
    (Sample.table (Some 1000)
       [ Sample.voter 1 (Some "Ali") (Some "Omar") None;
         Sample.voter 2 (Some "ALI") (Some "omar") None ])) as (H1 & H2 & _).
  - vm_compute. lia.
  - split; [exact H1|]. apply H2; decide_closed.
Defined.

(** X4: a run that the operator does not confirm (any answer other than
    "yes" or "y", in any case) leaves every record of the table as it is,
    for each of the three scripts, whichever calls fail. *)
Theorem unconfirmed_run_changes_nothing
    (ws : ImportScript.worksheet) (fuel : nat) (answer : string) (s : Store.t) :
  JsString.confirms answer = false →
  Store.rows (Dedup.removeDuplicates fuel answer s).1 = Store.rows s ∧
  Store.rows (RegisterRepair.fixRegisterNumbers answer s).1 = Store.rows s ∧
  Store.rows (ImportScript.importData ws fuel answer s).1 = Store.rows s.
Proof.
  intros Hno. split_and!.
  - unfold Dedup.removeDuplicates, Store.bind.
    pose proof (evolves_loop eq fuel [] 0 s) as (H0 & _ & _).
    unfold BulkFetch.fetchAll.
    destruct (BulkFetch.loop fuel [] 0 s) as [s0 [[allVoters|e]|]]; simpl in *;
      [|done..].
    destruct (bool_decide _); [done|]. by rewrite Hno.
  - unfold RegisterRepair.fixRegisterNumbers, Store.bind.
    pose proof (evolves_select_ordered eq s) as (H0 & _ & _).
    destruct (Store.select_ordered s) as [s0 r]. simpl in H0.
    destruct (Supabase.error r); [done|].
    destruct (Supabase.data r) as [allVoters|]; [|done].
    destruct (bool_decide _); [done|]. by rewrite Hno.
  - unfold ImportScript.importData, Store.bind.
    pose proof (evolves_loop eq fuel [] 0 s) as (H0 & _ & _).
    unfold BulkFetch.fetchAll.
    destruct (BulkFetch.loop fuel [] 0 s) as [s0 [[allVoters|e]|]]; simpl in *;
      [|done..].
    by rewrite Hno.
Qed.

Lemma unconfirmed_run_changes_nothing_witness :
  let s := Sample.table (Some 1000)
             [ Sample.voter 1 (Some "Ali") (Some "Omar") (Some "7");
               Sample.voter 2 (Some "ALI") (Some "omar") (Some "7") ] in
  Store.rows (Dedup.removeDuplicates 1 "no" s).1 = Store.rows s ∧
  Store.rows (RegisterRepair.fixRegisterNumbers " yes" s).1 = Store.rows s.
Proof.
  cbv zeta. split.
  - apply (unconfirmed_run_changes_nothing
             {| ImportScript.cells := λ _, None; ImportScript.e_r := 0 |} 1 "no").
    reflexivity.
  - apply (unconfirmed_run_changes_nothing
             {| ImportScript.cells := λ _, None; ImportScript.e_r := 0 |} 1 " yes").
    reflexivity.
Defined.

(** ** A fetch that fails *)

Section FetchFailure.
Import Supabase.

Lemma loop_refused (e : PostgrestError) (k : nat) : ∀ k0 fuel acc s,
  page_fits s →
  (∀ j, j < k → Store.fault s (length (Store.log s) + j) = None) →
  Store.fault s (length (Store.log s) + k) = Some e →
  k0 + k ≤ length (Store.rows s) / BulkFetch.pageSize →
  k < fuel →
  BulkFetch.loop fuel acc (k0 * BulkFetch.pageSize) s =
    (Store.logged ((window (length (Store.rows s)) <$> seq k0 k) ++ [Refused]) s,
     Some (Thrown e)).
Proof.
  induction k as [|k IH]; intros k0 fuel acc s Hp Hok He Hk Hfuel;
    (destruct fuel as [|fuel]; [lia|]); simpl BulkFetch.loop; unfold Store.bind.
  - rewrite Nat.add_0_r in He. unfold Store.range.
    by rewrite (call_refused _ _ _ e).
  - rewrite range_served; [|done|by rewrite <- (Hok 0), Nat.add_0_r by lia].
    cbv zeta. cbn [error data ok].
    set (L := Store.order_by_id (Store.rows s)).
    remember (length (Store.rows s)) as N eqn:HN.
    assert (HL : length L = N) by (subst N; apply order_by_id_length).
    pose proof (Nat.div_mod_eq N BulkFetch.pageSize) as Hdm.
    assert (HP : 0 < BulkFetch.pageSize) by (unfold BulkFetch.pageSize; lia).
    remember (N / BulkFetch.pageSize) as q eqn:Hq.
    remember (N mod BulkFetch.pageSize) as r eqn:Hr.
    assert (Hlen : length (take BulkFetch.pageSize
                             (drop (k0 * BulkFetch.pageSize) L)) = BulkFetch.pageSize).
    { rewrite length_take, length_drop. nia. }
    rewrite bool_decide_eq_true_2 by done.
    replace (k0 * BulkFetch.pageSize + BulkFetch.pageSize)
      with (S k0 * BulkFetch.pageSize) by lia.
    rewrite (IH (S k0)).
    + unfold Store.record. rewrite logged_logged. f_equal. f_equal.
      unfold Store.logged at 1. cbn [Store.rows]. rewrite <- HN.
      change (seq k0 (S k)) with (k0 :: seq (S k0) k).
      rewrite fmap_cons. cbn [app]. f_equal.
      unfold window. rewrite Hlen. f_equal; nia.
    + done.
    + intros j Hj. unfold Store.record, Store.logged. cbn [Store.log Store.fault].
      rewrite length_app. simpl. rewrite <- Nat.add_assoc. apply Hok. lia.
    + unfold Store.record, Store.logged. cbn [Store.log Store.fault].
      rewrite length_app. simpl. by rewrite <- Nat.add_assoc.
    + unfold Store.record, Store.logged. cbn [Store.rows]. rewrite <- HN, <- Hq. lia.
    + lia.
Qed.

End FetchFailure.

(** X5: when the request for the k-th page is refused (the earlier ones
    being served), the fetch stops there: the dedup and the import script
    end with that error whatever the operator would answer, issue no call
    after the refused one and leave the table as it is; so does the repair
    script when its one select is refused. *)
Theorem fetch_failure_is_fatal
    (ws : ImportScript.worksheet) (fuel : nat) (answer : string)
    (s : Store.t) (k : nat) (e : Supabase.PostgrestError) :
  page_fits s →
  (∀ j, j < k → Store.fault s (length (Store.log s) + j) = None) →
  Store.fault s (length (Store.log s) + k) = Some e →
  k ≤ length (Store.rows s) / BulkFetch.pageSize →
  k < fuel →
  let s' := Store.logged ((window (length (Store.rows s)) <$> seq 0 k)
                          ++ [Supabase.Refused]) s in
  BulkFetch.fetchAll fuel s = (s', Some (Thrown e)) ∧
  Dedup.removeDuplicates fuel answer s = (s', Some (Thrown e)) ∧
  ImportScript.importData ws fuel answer s = (s', Some (Thrown e)) ∧
  Store.rows s' = Store.rows s ∧
  (k = 0 →
   RegisterRepair.fixRegisterNumbers answer s
     = (Store.logged [Supabase.Refused] s, Thrown e)).
Proof.
  intros Hp Hok He Hk Hfuel. cbv zeta.
  pose proof (loop_refused e k 0 fuel [] s Hp Hok He Hk Hfuel) as E.
  change (0 * BulkFetch.pageSize) with 0 in E.
  split_and!.
  - exact E.
  - unfold Dedup.removeDuplicates, Store.bind, BulkFetch.fetchAll. by rewrite E.
  - unfold ImportScript.importData, Store.bind, BulkFetch.fetchAll. by rewrite E.
  - done.
  - intros ->. rewrite Nat.add_0_r in He.
    unfold RegisterRepair.fixRegisterNumbers, Store.bind, Store.select_ordered.
    by rewrite (call_refused _ _ _ e).
Qed.

Lemma fetch_failure_is_fatal_witness :
  let down := {| Supabase.message := "connection reset" |} in
  let s := {| Store.rows := Sample.numbered 3; Store.max_rows := Some 1000;
              Store.log := []; Store.fault := λ _, Some down |} in
  (Dedup.removeDuplicates 1 "yes" s).2 = Some (Thrown down) ∧
  Store.rows (Dedup.removeDuplicates 1 "yes" s).1 = Store.rows s.
Proof.
  cbv zeta.
  destruct (fetch_failure_is_fatal
    {| ImportScript.cells := λ _, None; ImportScript.e_r := 0 |} 1 "yes"
    {| Store.rows := Sample.numbered 3; Store.max_rows := Some 1000;
       Store.log := []; Store.fault := λ _, Some {| Supabase.message := "connection reset" |} |}
    0 {| Supabase.message := "connection reset" |}) as (_ & H & _).
  - vm_compute. lia.
  - intros j Hj. lia.
  - reflexivity.
  - lia.
  - lia.
  - rewrite H. split; reflexivity.
Defined.

(** ** Deleting in batches *)

Section Batches.
Import Supabase.

Lemma ceil_div_100 (len j : nat) : j < ceil_div len 100 ↔ j * 100 < len.
Proof.
  unfold ceil_div.
  pose proof (Nat.div_mod_eq (len + 100 - 1) 100) as Hdm.
  pose proof (Nat.mod_upper_bound (len + 100 - 1) 100 ltac:(lia)) as Hr.
  remember ((len + 100 - 1) / 100) as q. remember ((len + 100 - 1) mod 100) as r.
  lia.
Qed.

Lemma batches_join (ids : list Z) (m : nat) : ∀ j0,
  j0 + m = ceil_div (length ids) 100 →
  mjoin (batch ids <$> seq j0 m) = drop (j0 * 100) ids.
Proof.
  induction m as [|m IH]; intros j0 Hn.
  - simpl. symmetry. apply drop_ge.
    pose proof (ceil_div_100 (length ids) j0). lia.
  - cbn [seq]. rewrite fmap_cons.
    change (mjoin (batch ids j0 :: (batch ids <$> seq (S j0) m)))
      with (batch ids j0 ++ mjoin (batch ids <$> seq (S j0) m)).
    rewrite (IH (S j0)) by lia. unfold batch.
    replace (S j0 * 100) with (j0 * 100 + 100) by lia.
    rewrite <- drop_drop. apply take_drop.
Qed.

Lemma deleteBatches_calls (ids : list Z) (f : nat → option PostgrestError)
    (base m : nat) : ∀ j0 fuel s,
  Store.fault s = f → length (Store.log s) = base + j0 →
  j0 + m = ceil_div (length ids) 100 → m ≤ fuel →
  Store.log (Dedup.deleteBatches fuel (j0 * 100) ids s).1
    = Store.log s ++ (batch_event f base ids <$> seq j0 m) ∧
  (Dedup.deleteBatches fuel (j0 * 100) ids s).2
    = omap (λ j, f (base + j)) (seq j0 m).
Proof.
  induction m as [|m IH]; intros j0 fuel s Hf Hlog Hn Hfuel.
  - assert (¬ j0 * 100 < length ids)
      by (rewrite <- ceil_div_100; lia).
    destruct fuel; simpl; rewrite ?bool_decide_eq_false_2 by done;
      simpl; by rewrite app_nil_r.
  - assert (j0 * 100 < length ids) by (rewrite <- ceil_div_100; lia).
    destruct fuel as [|fuel]; [lia|]. simpl Dedup.deleteBatches.
    rewrite bool_decide_eq_true_2 by done. unfold Store.bind.
    replace (j0 * 100 + 100) with (S j0 * 100) by lia.
    unfold Store.delete_in, Store.call. rewrite Hf, Hlog.
    cbn [seq fmap list_fmap omap list_omap]. unfold batch_event at 1.
    destruct (f (base + j0)) as [e|] eqn:Ef.
    + destruct (IH (S j0) fuel (Store.record Refused s)) as [H1 H2];
        [done|simpl; rewrite length_app; simpl; lia|lia|lia|].
      destruct (Dedup.deleteBatches fuel (S j0 * 100) ids _) as [s' errs].
      simpl in *. rewrite H1, H2, <- app_assoc. done.
    + destruct (IH (S j0) fuel
                  (Store.record (Deleted (take 100 (drop (j0 * 100) ids)))
                     (Store.with_rows
                        (filter (λ v, Voter.id v ∉ take 100 (drop (j0 * 100) ids))
                                (Store.rows s)) s))) as [H1 H2];
        [done|simpl; rewrite length_app; simpl; lia|lia|lia|].
      destruct (Dedup.deleteBatches fuel (S j0 * 100) ids _) as [s' errs].
      simpl in *. rewrite H1, H2, <- app_assoc. done.
Qed.

End Batches.

(** X6: the deletion loop issues one call per batch of 100 ids, ceil(n/100)
    calls for n ids, whether or not earlier batches failed; the batches are
    consecutive slices of the plan of at most 100 ids that put together
    give the plan; a refused batch is reported and skipped, and the errors
    come back in the order of the batches. *)
Theorem deleteBatches_best_effort (ids : list Z) (s : Store.t) :
  let n := ceil_div (length ids) 100 in
  let run := Dedup.deleteBatches (length ids) 0 ids s in
  Store.log run.1
    = Store.log s ++
      (batch_event (Store.fault s) (length (Store.log s)) ids <$> seq 0 n) ∧
  run.2 = omap (λ j, Store.fault s (length (Store.log s) + j)) (seq 0 n) ∧
  mjoin (batch ids <$> seq 0 n) = ids ∧
  (∀ j, length (batch ids j) ≤ 100).
Proof.
  cbv zeta.
  assert (Hn : ceil_div (length ids) 100 ≤ length ids).
  { destruct (decide (ceil_div (length ids) 100 = 0)) as [->|Hz]; [lia|].
    assert (ceil_div (length ids) 100 - 1 < ceil_div (length ids) 100) as H by lia.
    apply ceil_div_100 in H. lia. }
  destruct (deleteBatches_calls ids (Store.fault s) (length (Store.log s))
              (ceil_div (length ids) 100) 0 (length ids) s) as [H1 H2];
    [done|lia|lia|done|].
  change (0 * 100) with 0 in *. split_and!; [done|done| |].
  - rewrite (batches_join ids _ 0) by lia. apply drop_0.
  - intros j. unfold batch. rewrite length_take. lia.
Qed.

(** ** Applying updates one at a time *)

Section ApplyLoops.
Import Supabase.

Lemma failures_le f base n : failures f base n ≤ n.
Proof.
  revert base. induction n as [|n IH]; intros base; simpl; [lia|].
  specialize (IH (S base)). destruct (f base); lia.
Qed.

Lemma applyBatch_calls (us : list ImportScript.update) : ∀ a b s,
  let run := ImportScript.applyBatch us a b s in
  Store.fault run.1 = Store.fault s ∧
  Store.log run.1
    = Store.log s ++
      imap (λ j u, update_event (Store.fault s) (length (Store.log s)) j
                                (ImportScript.id u)) us ∧
  run.2 = (a + (length us - failures (Store.fault s) (length (Store.log s)) (length us)),
           b + failures (Store.fault s) (length (Store.log s)) (length us)).
Proof.
  induction us as [|u us IH]; intros a b s; cbv zeta.
  - simpl. rewrite app_nil_r, !Nat.add_0_r. done.
  - simpl ImportScript.applyBatch. unfold Store.bind.
    unfold Store.update_family_classification, Store.call.
    rewrite imap_cons. unfold update_event at 1. rewrite Nat.add_0_r.
    cbn [length failures].
    pose proof (failures_le (Store.fault s) (S (length (Store.log s))) (length us)) as Hle.
    destruct (Store.fault s (length (Store.log s))) as [e|] eqn:Ef;
      cbn [error failed ok].
    + destruct (IH a (b + 1) (Store.record Refused s)) as (H1 & H2 & H3).
      rewrite H1, H2, H3. cbn [Store.record Store.logged Store.log Store.fault].
      rewrite length_app, <- app_assoc. cbn [length app].
      replace (length (Store.log s) + 1) with (S (length (Store.log s))) by lia.
      split_and!; [done| |f_equal; lia].
      do 2 f_equal. apply imap_ext. intros j x _. unfold update_event. simpl.
      by rewrite Nat.add_succ_r.
    + match goal with |- context [ImportScript.applyBatch us (a + 1) b ?s1] =>
        destruct (IH (a + 1) b s1) as (H1 & H2 & H3) end.
      rewrite H1, H2, H3.
      cbn [Store.record Store.logged Store.with_rows Store.log Store.fault].
      rewrite length_app, <- app_assoc. cbn [length app].
      replace (length (Store.log s) + 1) with (S (length (Store.log s))) by lia.
      split_and!; [done| |f_equal; lia].
      do 2 f_equal. apply imap_ext. intros j x _. unfold update_event. simpl.
      by rewrite Nat.add_succ_r.
Qed.

Lemma applyBatch_app (l1 l2 : list ImportScript.update) : ∀ a b s,
  ImportScript.applyBatch (l1 ++ l2) a b s
  = ImportScript.applyBatch l2 (ImportScript.applyBatch l1 a b s).2.1
                               (ImportScript.applyBatch l1 a b s).2.2
                               (ImportScript.applyBatch l1 a b s).1.
Proof.
  induction l1 as [|u l1 IH]; intros a b s; [done|].
  simpl. unfold Store.bind.
  destruct (Store.update_family_classification _ _ _ s) as [s1 r].
  destruct (error r); apply IH.
Qed.

(** The batches are transparent: the nested loops are one pass over the
    updates. *)
Lemma applyUpdates_flat (us : list ImportScript.update) (fuel : nat) : ∀ i a b s,
  length us - i ≤ fuel →
  ImportScript.applyUpdates fuel i us a b s
  = ImportScript.applyBatch (drop i us) a b s.
Proof.
  induction fuel as [|fuel IH]; intros i a b s Hfuel.
  - simpl. rewrite drop_ge by lia. done.
  - simpl. destruct (decide (i < length us)) as [Hi|Hi].
    + rewrite bool_decide_eq_true_2 by done. unfold Store.bind.
      rewrite <- (take_drop 100 (drop i us)) at 2. rewrite applyBatch_app.
      destruct (ImportScript.applyBatch (take 100 (drop i us)) a b s)
        as [s1 [a1 b1]]. simpl.
      rewrite IH by lia. by rewrite drop_drop.
    + rewrite bool_decide_eq_false_2 by done. rewrite drop_ge by lia. done.
Qed.

Lemma repair_applyUpdates_calls (us : list RegisterRepair.update) : ∀ a b s,
  let run := RegisterRepair.applyUpdates us a b s in
  Store.fault run.1 = Store.fault s ∧
  Store.log run.1
    = Store.log s ++
      imap (λ j u, update_event (Store.fault s) (length (Store.log s)) j
                                (RegisterRepair.id u)) us ∧
  run.2 = (a + (length us - failures (Store.fault s) (length (Store.log s)) (length us)),
           b + failures (Store.fault s) (length (Store.log s)) (length us)).
Proof.
  induction us as [|u us IH]; intros a b s; cbv zeta.
  - simpl. rewrite app_nil_r, !Nat.add_0_r. done.
  - simpl RegisterRepair.applyUpdates. unfold Store.bind.
    unfold Store.update_register_number, Store.call.
    rewrite imap_cons. unfold update_event at 1. rewrite Nat.add_0_r.
    cbn [length failures].
    pose proof (failures_le (Store.fault s) (S (length (Store.log s))) (length us)) as Hle.
    destruct (Store.fault s (length (Store.log s))) as [e|] eqn:Ef;
      cbn [error failed ok].
    + destruct (IH a (b + 1) (Store.record Refused s)) as (H1 & H2 & H3).
      rewrite H1, H2, H3. cbn [Store.record Store.logged Store.log Store.fault].
      rewrite length_app, <- app_assoc. cbn [length app].
      replace (length (Store.log s) + 1) with (S (length (Store.log s))) by lia.
      split_and!; [done| |f_equal; lia].
      do 2 f_equal. apply imap_ext. intros j x _. unfold update_event. simpl.
      by rewrite Nat.add_succ_r.
    + match goal with |- context [RegisterRepair.applyUpdates us (a + 1) b ?s1] =>
        destruct (IH (a + 1) b s1) as (H1 & H2 & H3) end.
      rewrite H1, H2, H3.
      cbn [Store.record Store.logged Store.with_rows Store.log Store.fault].
      rewrite length_app, <- app_assoc. cbn [length app].
      replace (length (Store.log s) + 1) with (S (length (Store.log s))) by lia.
      split_and!; [done| |f_equal; lia].
      do 2 f_equal. apply imap_ext. intros j x _. unfold update_event. simpl.
      by rewrite Nat.add_succ_r.
Qed.

End ApplyLoops.

(** X7: the import applies its updates in batches of 100, but the batches
    change nothing: the run is one pass over the updates in order, one call
    per update whether or not earlier calls failed; every update is counted
    once, as an error when its call is refused and as a success otherwise. *)
Theorem import_applyUpdates_counts (us : list ImportScript.update) (s : Store.t) :
  let run := ImportScript.applyUpdates (length us) 0 us 0 0 s in
  let bad := failures (Store.fault s) (length (Store.log s)) (length us) in
  run = ImportScript.applyBatch us 0 0 s ∧
  Store.log run.1
    = Store.log s ++
      imap (λ j u, update_event (Store.fault s) (length (Store.log s)) j
                                (ImportScript.id u)) us ∧
  run.2 = (length us - bad, bad) ∧
  run.2.1 + run.2.2 = length us.
Proof.
  cbv zeta. rewrite applyUpdates_flat, drop_0 by lia.
  destruct (applyBatch_calls us 0 0 s) as (_ & H2 & H3).
  pose proof (failures_le (Store.fault s) (length (Store.log s)) (length us)).
  split_and!; [done|done|by rewrite H3|rewrite H3; simpl; lia].
Qed.

(** X8: the repair issues one call per update of its plan, in the order of
    the plan, whether or not earlier calls failed; every update is counted
    once, as an error when its call is refused and as a success otherwise. *)
Theorem repair_applyUpdates_counts (us : list RegisterRepair.update) (s : Store.t) :
  let run := RegisterRepair.applyUpdates us 0 0 s in
  let bad := failures (Store.fault s) (length (Store.log s)) (length us) in
  Store.log run.1
    = Store.log s ++
      imap (λ j u, update_event (Store.fault s) (length (Store.log s)) j
                                (RegisterRepair.id u)) us ∧
  run.2 = (length us - bad, bad) ∧
  run.2.1 + run.2.2 = length us.
Proof.
  cbv zeta. destruct (repair_applyUpdates_calls us 0 0 s) as (_ & H2 & H3).
  pose proof (failures_le (Store.fault s) (length (Store.log s)) (length us)).
  split_and!; [done|by rewrite H3|rewrite H3; simpl; lia].
Qed.

(** ** The table after a deduplication *)

Section DedupResult.

(** Every key group of an ascending snapshot has a member of lowest id. *)
Lemma lowest_in_group (l : list Voter.t) (v : Voter.t) :
  ascending l → v ∈ l →
  ∃ u, u ∈ l ∧ Dedup.nameKey u = Dedup.nameKey v ∧
       ∀ w, w ∈ l → Dedup.nameKey w = Dedup.nameKey v →
            (Voter.id u ≤ Voter.id w)%Z.
Proof.
  intros Hasc Hv.
  pose proof (ascending_filter (λ w, Dedup.nameKey w = Dedup.nameKey v) l Hasc) as Hf.
  assert (Hmem : ∀ w, w ∈ filter (λ w, Dedup.nameKey w = Dedup.nameKey v) l
                      ↔ Dedup.nameKey w = Dedup.nameKey v ∧ w ∈ l)
    by (intros w; apply (list_elem_of_filter (λ w, Dedup.nameKey w = Dedup.nameKey v))).
  destruct (filter _ l) as [|h t].
  - exfalso. eapply elem_of_nil. apply Hmem. done.
  - apply StronglySorted_cons in Hf as [Hh _]. rewrite Forall_forall in Hh.
    assert (h ∈ h :: t) as [Hk Hl]%Hmem by left.
    exists h. split_and!; [done..|]. intros w Hw Hkw.
    assert (w ∈ h :: t) as [->|Hw']%elem_of_cons by by apply Hmem.
    + lia.
    + apply Hh in Hw'. lia.
Qed.

End DedupResult.

(** X9: on a table with unique ids served without failures, behind a
    server that returns at least a full page of 1000 rows per response,
    and with no key that names a member of Object.prototype, a confirmed
    run of the deduplication script leaves no two records with the same
    key, and leaves of every key group of the table its lowest-id record,
    unchanged. *)
Theorem removeDuplicates_one_per_key
    (s : Store.t) (fuel : nat) (answer : string) :
  healthy s → page_fits s → NoDup (Voter.id <$> Store.rows s) →
  plain_name_keys (Store.rows s) →
  length (Store.rows s) / BulkFetch.pageSize < fuel →
  JsString.confirms answer = true →
  let s' := (Dedup.removeDuplicates fuel answer s).1 in
  (∀ u v, u ∈ Store.rows s' → v ∈ Store.rows s' →
          Dedup.nameKey u = Dedup.nameKey v → u = v) ∧
  (∀ v, v ∈ Store.rows s →
        ∃ u, u ∈ Store.rows s' ∧ u ∈ Store.rows s ∧
             Dedup.nameKey u = Dedup.nameKey v ∧
             ∀ w, w ∈ Store.rows s → Dedup.nameKey w = Dedup.nameKey v →
                  (Voter.id u ≤ Voter.id w)%Z).
Proof.
  intros Hh Hp Hnd _ Hfuel Hyes. cbv zeta.
  destruct (removeDuplicates_healthy s fuel answer Hh Hp Hfuel)
    as (s1 & r & E & _ & _ & Hr & _).
  rewrite E. cbn [fst]. rewrite Hyes in Hr. rewrite Hr. clear E Hr.
  pose proof (ascending_order_by_id _ Hnd) as Hasc.
  set (L := Store.order_by_id (Store.rows s)) in *.
  assert (HinL : ∀ v, v ∈ L ↔ v ∈ Store.rows s)
    by (intros v; unfold L; by rewrite order_by_id_perm).
  split.
  - intros u v [Hu Hul]%list_elem_of_filter [Hv Hvl]%list_elem_of_filter Hk.
    apply HinL in Hul, Hvl.
    destruct (Z.lt_trichotomy (Voter.id u) (Voter.id v)) as [Hlt|[Heq|Hgt]].
    + exfalso. apply Hv. apply marked_iff; [done..|]. by exists u.
    + by apply (ascending_id_inj L).
    + exfalso. apply Hu. apply marked_iff; [done..|]. exists v.
      split_and!; [done|done|lia].
  - intros v Hv. apply HinL in Hv.
    destruct (lowest_in_group L v Hasc Hv) as (u & Hu & Hk & Hmin).
    exists u. split_and!; [|by apply HinL|done|].
    + apply list_elem_of_filter. split; [|by apply HinL].
      intros (w & Hw & Hkw & Hlt)%marked_iff; [|done..].
      specialize (Hmin w Hw ltac:(congruence)). lia.
    + intros w Hw Hkw. apply Hmin; [by apply HinL|done].
Qed.

Lemma removeDuplicates_one_per_key_witness :
  let s := Sample.table (Some 1000)
             [ Sample.voter 2 (Some "ALI") (Some "omar") None;
               Sample.voter 1 (Some "Ali") (Some "Omar") None;
               Sample.voter 3 (Some "Sami") (Some "Omar") None ] in
  ∃ u, u ∈ Store.rows (Dedup.removeDuplicates 1 "y" s).1 ∧
       Dedup.nameKey u
       = Dedup.nameKey (Sample.voter 2 (Some "ALI") (Some "omar") None).
Proof.
  cbv zeta.
  destruct (removeDuplicates_one_per_key
    (Sample.table (Some 1000)
       [ Sample.voter 2 (Some "ALI") (Some "omar") None;
         Sample.voter 1 (Some "Ali") (Some "Omar") None;
         Sample.voter 3 (Some "Sami") (Some "Omar") None ]) 1 "y") as [_ H].
  - intros n. reflexivity.
  - vm_compute. lia.
  - decide_closed.
  - decide_closed.
  - vm_compute. lia.
  - reflexivity.
  - destruct (H (Sample.voter 2 (Some "ALI") (Some "omar") None))
      as (u & Hu & _ & Hk & _).
    + decide_closed.
    + exists u. exact (conj Hu Hk).
Defined.

(** ** The repair script, run and run again *)

Section RepairAgain.
Import Supabase RegisterRepair.

Lemma remove_dups_length {A} `{EqDecision A} (l : list A) :
  length (remove_dups l) ≤ length l ∧
  (length (remove_dups l) = length l ↔ NoDup l).
Proof.
  induction l as [|x l [IH1 IH2]]; simpl.
  - split; [lia|]. split; [constructor|done].
  - destruct (decide_rel elem_of x l) as [Hin|Hout]; simpl.
    + split; [lia|]. split; [lia|]. by intros [? _]%NoDup_cons.
    + split; [lia|]. rewrite NoDup_cons. split.
      * intros E. split; [done|]. apply IH2. lia.
      * intros [_ Hnd]. apply IH2 in Hnd. lia.
Qed.

(** The script on a table that the server returns whole. *)
Lemma fixRegisterNumbers_healthy (s : Store.t) (answer : string) :
  healthy s → table_fits s →
  let L := Store.order_by_id (Store.rows s) in
  let us := updates L in
  ∃ s',
    healthy s' ∧ Store.max_rows s' = Store.max_rows s ∧
    Store.rows s' = (if JsString.confirms answer
                     then rename us <$> Store.rows s else Store.rows s) ∧
    fixRegisterNumbers answer s =
      (s', Finished
             (if decide (duplicateGroups L = []) then Clean
              else if JsString.confirms answer
                   then Applied us (length us) 0
                          (length (Store.rows s)
                           - unique_count (Voter.register_number <$>
                                             (rename us <$> Store.rows s)))
                   else Cancelled us)).
Proof.
  intros Hh Hfit. cbv zeta.
  unfold fixRegisterNumbers, Store.bind, Store.select_ordered.
  rewrite call_healthy by done. cbn [fst snd error data ok].
  rewrite bounded_fits by (done || by rewrite order_by_id_length).
  set (L := Store.order_by_id (Store.rows s)).
  destruct (decide (duplicateGroups L = [])) as [Hz|Hnz].
  - rewrite Hz. simpl. eexists. split_and!; [by apply healthy_logged|done| |done].
    rewrite (updates_nil L Hz). simpl. rewrite list_fmap_id.
    by destruct (JsString.confirms answer).
  - rewrite bool_decide_eq_false_2
      by (intros E%length_zero_iff_nil; done).
    destruct (JsString.confirms answer).
    + destruct (applyUpdates_healthy (updates L)
                  (Store.record (Selected (length L)) s) 0 0)
        as (s1 & E & Hh1 & Hm1 & Hr1); [by apply healthy_logged|].
      rewrite E. unfold Store.select_register_numbers.
      rewrite call_healthy by done. cbn [fst snd error data ok].
      assert (Hb : Store.bounded s1 (Store.rows s1) = Store.rows s1).
      { unfold Store.bounded. rewrite Hm1. unfold table_fits in Hfit.
        cbn [Store.max_rows Store.record Store.logged].
        destruct (Store.max_rows s); [|done]. apply take_ge.
        rewrite Hr1, length_fmap. simpl. lia. }
      rewrite Hb, Hr1. cbn [Store.rows Store.record Store.logged].
      eexists. split_and!; [by apply healthy_logged|done|done|].
      by rewrite !length_fmap.
    + eexists. split_and!; [by apply healthy_logged|done|done|done].
Qed.

(** Where no two records share a non-empty register number the script
    finds no duplicate group. *)
Lemma duplicateGroups_none (l : list Voter.t) :
  NoDup l →
  (∀ v w, v ∈ l → w ∈ l → v ≠ w →
          Js.truthy_text (Voter.register_number v) = true →
          Voter.register_number v ≠ Voter.register_number w) →
  duplicateGroups l = [].
Proof.
  intros Hnd Hdist.
  destruct (duplicateGroups l) as [|[k vs] gs] eqn:E; [done|]. exfalso.
  assert ((k, vs) ∈ duplicateGroups l) as Hin by (rewrite E; left).
  apply list_elem_of_filter in Hin as [Hlen Hin]. simpl in Hlen.
  apply elem_of_Object_entries, elem_of_byRegisterNumber in Hin as (-> & _ & Hk).
  destruct (filter _ l) as [|v0 [|v1 t]] eqn:Ef; simpl in Hlen; [lia..|].
  assert (NoDup (v0 :: v1 :: t)) as Hnd' by (rewrite <- Ef; by apply NoDup_filter).
  assert (v0 ∈ filter (λ v, Voter.register_number v = Some k) l) as [H0 Hl0]%list_elem_of_filter
    by (rewrite Ef; left).
  assert (v1 ∈ filter (λ v, Voter.register_number v = Some k) l) as [H1 Hl1]%list_elem_of_filter
    by (rewrite Ef; right; left).
  apply (Hdist v0 v1); [done..| | |congruence].
  - intros ->. apply NoDup_cons in Hnd' as [Hn _]. apply Hn. left.
  - rewrite H0. simpl. by rewrite bool_decide_eq_false_2.
Qed.

(** X11: once a confirmed repair has run on a table with unique ids that
    the server returns whole and without failures, in which no register
    number names a member of Object.prototype (the new ones hold a "-" and
    name none either) and no new register number was already carried by a
    record, a second run of the script finds nothing to repair: it ends
    with "no duplicates found" whatever the operator would answer, and
    leaves the table as the first run left it. *)
Lemma fixRegisterNumbers_again (s : Store.t) (answer answer' : string) :
  healthy s → table_fits s → NoDup (Voter.id <$> Store.rows s) →
  plain_register_numbers (Store.rows s) →
  JsString.confirms answer = true →
  (∀ u x, u ∈ updates (Store.order_by_id (Store.rows s)) → x ∈ Store.rows s →
          Voter.register_number x ≠ Some (newRegNum u)) →
  let s1 := (fixRegisterNumbers answer s).1 in
  (fixRegisterNumbers answer' s1).2 = Finished Clean ∧
  Store.rows (fixRegisterNumbers answer' s1).1 = Store.rows s1.
Proof.
  intros Hh Hfit Hnd _ Hyes Hfresh. cbv zeta.
  destruct (fixRegisterNumbers_healthy s answer Hh Hfit)
    as (s1 & Hh1 & Hm1 & Hr1 & E1).
  rewrite E1. cbn [fst]. rewrite Hyes in Hr1.
  set (L := Store.order_by_id (Store.rows s)) in *.
  pose proof (ascending_order_by_id _ Hnd) as Hasc. fold L in Hasc.
  assert (HinL : ∀ v, v ∈ L ↔ v ∈ Store.rows s)
    by (intros v; unfold L; by rewrite order_by_id_perm).
  assert (Hfit1 : table_fits s1).
  { unfold table_fits in *. rewrite Hm1, Hr1, length_fmap. done. }
  assert (Hids : Voter.id <$> Store.rows s1 = Voter.id <$> Store.rows s).
  { rewrite Hr1, <- list_fmap_compose. apply list_fmap_ext.
    intros i v _. simpl. apply rename_id. }
  assert (Hnone : duplicateGroups (Store.order_by_id (Store.rows s1)) = []).
  { apply duplicateGroups_none.
    - rewrite order_by_id_perm. apply (NoDup_fmap_1 Voter.id). by rewrite Hids.
    - intros v' w' Hv' Hw' Hne Ht.
      rewrite order_by_id_perm, Hr1 in Hv', Hw'.
      apply list_elem_of_fmap in Hv' as (v & -> & Hv).
      apply list_elem_of_fmap in Hw' as (w & -> & Hw).
      apply rename_distinct; [done|by apply HinL..| | |done].
      + by intros ->.
      + intros u x Hu Hx. apply Hfresh; [done|by apply HinL]. }
  destruct (fixRegisterNumbers_healthy s1 answer' Hh1 Hfit1)
    as (s2 & _ & _ & Hr2 & E2).
  rewrite E2. cbn [fst snd]. rewrite decide_True by done. split; [done|].
  rewrite Hr2, (updates_nil _ Hnone). simpl. rewrite list_fmap_id.
  by destruct (JsString.confirms answer').
Qed.

(** X12: the figure that closes a confirmed repair (run on a table that the
    server returns whole and without failures, that holds a duplicate
    group, and in which no register number names a member of
    Object.prototype) counts every update as a success and reports as
    "remaining duplicates" the number of records minus the number of
    distinct register numbers, null included: it is 0 exactly when no two
    records of the repaired table carry the same register number or both
    lack one. *)
Lemma fixRegisterNumbers_report (s : Store.t) (answer : string) :
  healthy s → table_fits s → plain_register_numbers (Store.rows s) →
  JsString.confirms answer = true →
  duplicateGroups (Store.order_by_id (Store.rows s)) ≠ [] →
  let after := Store.rows (fixRegisterNumbers answer s).1 in
  let us := updates (Store.order_by_id (Store.rows s)) in
  ∃ remaining,
    (fixRegisterNumbers answer s).2 = Finished (Applied us (length us) 0 remaining) ∧
    remaining + unique_count (Voter.register_number <$> after) = length after ∧
    (remaining = 0 ↔ NoDup (Voter.register_number <$> after)).
Proof.
  intros Hh Hfit _ Hyes Hdup. cbv zeta.
  destruct (fixRegisterNumbers_healthy s answer Hh Hfit)
    as (s1 & _ & _ & Hr1 & E1).
  rewrite E1. cbn [fst snd]. rewrite Hyes in *. rewrite decide_False by done.
  rewrite Hr1. eexists. split; [done|].
  set (regs := Voter.register_number <$> _).
  assert (length regs = length (Store.rows s)) as Hlen
    by (unfold regs; by rewrite !length_fmap).
  rewrite length_fmap, <- Hlen. unfold unique_count.
  destruct (remove_dups_length regs) as [Hle Hiff]. split; [lia|].
  rewrite <- Hiff. lia.
Qed.

End RepairAgain.

Lemma fixRegisterNumbers_again_witness :
  let s := Sample.table (Some 1000)
             [ Sample.voter 1 (Some "a") (Some "x") (Some "A");
               Sample.voter 2 (Some "b") (Some "x") (Some "A");
               Sample.voter 3 (Some "c") (Some "x") (Some "B") ] in
  (RegisterRepair.fixRegisterNumbers "no"
     (RegisterRepair.fixRegisterNumbers "yes" s).1).2
    = Finished RegisterRepair.Clean.
Proof.
  cbv zeta.
  refine (proj1 (fixRegisterNumbers_again
    (Sample.table (Some 1000)
       [ Sample.voter 1 (Some "a") (Some "x") (Some "A");
         Sample.voter 2 (Some "b") (Some "x") (Some "A");
         Sample.voter 3 (Some "c") (Some "x") (Some "B") ]) "yes" "no" _ _ _ _ _ _)).
  - intros n. reflexivity.
  - vm_compute. lia.
  - decide_closed.
  - decide_closed.
  - reflexivity.
  - intros u x Hu Hx.
    assert (updates_eq :
      RegisterRepair.updates (Store.order_by_id (Store.rows
        (Sample.table (Some 1000)
          [ Sample.voter 1 (Some "a") (Some "x") (Some "A");
            Sample.voter 2 (Some "b") (Some "x") (Some "A");
            Sample.voter 3 (Some "c") (Some "x") (Some "B") ])))
      = [ {| RegisterRepair.id := 2; RegisterRepair.oldRegNum := "A";
             RegisterRepair.newRegNum := "A-1" |} ]) by (vm_compute; reflexivity).
    rewrite updates_eq in Hu. apply list_elem_of_singleton in Hu as ->.
    simpl in Hx. rewrite !elem_of_cons, elem_of_nil in Hx.
    destruct Hx as [->|[->|[->|[]]]]; simpl; discriminate.
Defined.

Lemma fixRegisterNumbers_report_witness :
  let s := Sample.table (Some 1000)
             [ Sample.voter 1 (Some "a") (Some "x") (Some "A");
               Sample.voter 2 (Some "b") (Some "x") (Some "A");
               Sample.voter 3 (Some "c") (Some "x") None;
               Sample.voter 4 (Some "d") (Some "x") None ] in
  ∃ us remaining,
    (RegisterRepair.fixRegisterNumbers "yes" s).2
      = Finished (RegisterRepair.Applied us (length us) 0 remaining).
Proof.
  cbv zeta.
  destruct (fixRegisterNumbers_report
    (Sample.table (Some 1000)
       [ Sample.voter 1 (Some "a") (Some "x") (Some "A");
         Sample.voter 2 (Some "b") (Some "x") (Some "A");
         Sample.voter 3 (Some "c") (Some "x") None;
         Sample.voter 4 (Some "d") (Some "x") None ]) "yes")
    as (remaining & H & _).
  - intros n. reflexivity.
  - vm_compute. lia.
  - decide_closed.
  - reflexivity.
  - vm_compute. discriminate.
  - by eexists _, remaining.
Defined.

(* ===================================================================== *)
(** ** The single-voter handlers under failures *)
(* ===================================================================== *)

Section Handlers.
Import Supabase.



(** With unique ids at most one record answers to an id. *)
Lemma filter_unique_id (id : Z) (rs : list Voter.t) :
  NoDup (Voter.id <$> rs) →
  filter (λ u, Voter.id u = id) rs = [] ∧ (∀ v, v ∈ rs → Voter.id v ≠ id) ∨
  ∃ v, v ∈ rs ∧ Voter.id v = id ∧ filter (λ u, Voter.id u = id) rs = [v].
Proof.
  intros Hnd.
  destruct (filter (λ u, Voter.id u = id) rs) as [|v t] eqn:E.
  - left. split; [done|]. intros v Hv Hid.
    by apply (filter_nil_not_elem_of _ _ v E).
  - right. exists v.
    assert (v ∈ filter (λ u, Voter.id u = id) rs) as [Hid Hv]%list_elem_of_filter
      by (rewrite E; left).
    split_and!; [done..|]. subst id.
    pose proof (filter_present_id (λ u, u) v rs (λ _, eq_refl) Hnd Hv) as H.
    assert (Hid : (λ u, if decide (Voter.id u = Voter.id v)
                        then (λ u0 : Voter.t, u0) u else u) <$> rs = rs).
    { etransitivity; [|apply list_fmap_id].
      apply list_fmap_ext. intros ? u _. by destruct (decide _). }
    cbv beta in H. by rewrite Hid, E in H.
Qed.




End Handlers.

(** X13: a request for the id of a record of a table with unique ids, when
    the store serves the call, is answered with status 200 and that
    record. *)
Lemma getVoter_found (v : Voter.t) (s : Store.t) :
  NoDup (Voter.id <$> Store.rows s) → v ∈ Store.rows s →
  Store.fault s (length (Store.log s)) = None →
  (Server.getVoter (Voter.id v) s).2
    = {| Server.status := 200; Server.success := true;
         Server.body_data := Some v; Server.body_error := None;
         Server.body_message := None |}.
Proof.
  intros Hnd Hv Hf.
  unfold Server.getVoter, Store.bind, Store.select_single, Store.call.
  rewrite Hf. cbn [fst snd].
  destruct (filter_unique_id (Voter.id v) _ Hnd) as [[_ Habs]|(w & Hw & Hid & E)].
  - by destruct (Habs v Hv).
  - rewrite E. simpl.
    assert (w = v) as ->; [|done].
    apply (NoDup_fmap_1 Voter.id) in Hnd as Hnd'.
    apply list_elem_of_lookup in Hw as [i Hi], Hv as [j Hj].
    assert (i = j) as ->; [|congruence].
    apply (NoDup_lookup (Voter.id <$> Store.rows s) i j (Voter.id w) Hnd);
      rewrite list_lookup_fmap; [by rewrite Hi|by rewrite Hj, Hid].
Qed.

Lemma getVoter_found_witness :
  (Server.getVoter 2 (Sample.table (Some 1000) (Sample.numbered 3))).2
    = {| Server.status := 200; Server.success := true;
         Server.body_data := Some (Sample.voter 2 (Some "2") (Some "x") (Some "2"));
         Server.body_error := None; Server.body_message := None |}.
Proof.
  apply (getVoter_found
           (Sample.voter 2 (Some "2") (Some "x") (Some "2"))
           (Sample.table (Some 1000) (Sample.numbered 3))).
  - decide_closed.
  - decide_closed.
  - reflexivity.
Defined.

(** X14: whatever fails, the single-voter lookup issues one call and leaves
    the table as it is; it answers 200 or 500, never anything else; and
    when it answers 200 the body is a record of the table with the
    requested id, the only one with that id. *)
Lemma getVoter_sound (id : Z) (s : Store.t) :
  let run := Server.getVoter id s in
  Store.rows run.1 = Store.rows s ∧
  length (Store.log run.1) = S (length (Store.log s)) ∧
  (Server.status run.2 = 200 ∨ Server.status run.2 = 500) ∧
  (Server.status run.2 = 200 →
   ∃ v, Server.body_data run.2 = Some v ∧ Server.success run.2 = true ∧
        filter (λ u, Voter.id u = id) (Store.rows s) = [v]).
Proof.
  cbv zeta.
  unfold Server.getVoter, Store.bind, Store.select_single, Store.call.
  destruct (Store.fault s (length (Store.log s))) as [e|] eqn:Hf.
  - simpl. rewrite length_app. simpl. split_and!; [done|lia|by right|lia].
  - cbn [fst snd].
    destruct (filter (λ u, Voter.id u = id) (Store.rows s)) as [|v [|w t]] eqn:E;
      simpl; rewrite length_app; simpl.
    + split_and!; [done|lia|by right|lia].
    + split_and!; [done|lia|by left|]. intros _. by exists v.
    + split_and!; [done|lia|by right|lia].
Qed.



Section RoundTrip.
Import Supabase.

Lemma set_vote_set_vote hv at_ hv' at_' (v : Voter.t) :
  Voter.set_vote hv' at_' (Voter.set_vote hv at_ v) = Voter.set_vote hv' at_' v.
Proof. done. Qed.

Lemma set_vote_same (v : Voter.t) :
  Voter.set_vote (Voter.has_voted v) (Voter.voted_at v) v = v.
Proof. by destruct v. Qed.

Lemma mark_mark (id : Z) hv at_ hv' at_' (rs : list Voter.t) :
  (λ u, if decide (Voter.id u = id) then Voter.set_vote hv' at_' u else u)
    <$> ((λ u, if decide (Voter.id u = id) then Voter.set_vote hv at_ u else u)
           <$> rs)
  = (λ u, if decide (Voter.id u = id) then Voter.set_vote hv' at_' u else u) <$> rs.
Proof.
  rewrite <- list_fmap_compose. apply list_fmap_ext. intros ? u _. simpl.
  destruct (decide (Voter.id u = id)) as [E|E].
  - by rewrite decide_True by done.
  - by rewrite decide_False by done.
Qed.

Lemma mark_ids (id : Z) hv at_ (rs : list Voter.t) :
  Voter.id <$> ((λ u, if decide (Voter.id u = id)
                      then Voter.set_vote hv at_ u else u) <$> rs)
  = Voter.id <$> rs.
Proof.
  rewrite <- list_fmap_compose. apply list_fmap_ext. intros ? u _. simpl.
  by destruct (decide _).
Qed.

(** Two updates of the same record in a row, on a table served without
    failures. *)
Lemma update_vote_twice hv at_ hv' at_' (v : Voter.t) (s : Store.t) :
  healthy s → NoDup (Voter.id <$> Store.rows s) → v ∈ Store.rows s →
  let s1 := (Store.update_vote (Voter.id v) hv at_ s).1 in
  Store.update_vote (Voter.id v) hv' at_' s1
    = (Store.record (Updated (Voter.id v))
         (Store.with_rows
            ((λ u, if decide (Voter.id u = Voter.id v)
                   then Voter.set_vote hv' at_' u else u) <$> Store.rows s)
            (Store.record (Updated (Voter.id v)) s)),
       ok (Voter.set_vote hv' at_' v)).
Proof.
  intros Hh Hnd Hv. cbv zeta.
  rewrite (update_vote_present hv at_ v s) by done. cbn [fst].
  set (s1 := Store.record _ _).
  assert (healthy s1) as Hh1 by (intros n; apply Hh).
  assert (NoDup (Voter.id <$> Store.rows s1)) as Hnd1.
  { unfold s1. cbn [Store.rows Store.record Store.logged Store.with_rows].
    by rewrite mark_ids. }
  assert (Voter.set_vote hv at_ v ∈ Store.rows s1) as Hv1.
  { unfold s1. cbn [Store.rows Store.record Store.logged Store.with_rows].
    apply list_elem_of_fmap. exists v. by rewrite decide_True. }
  pose proof (update_vote_present hv' at_' _ s1 Hh1 Hnd1 Hv1) as H.
  change (Voter.id (Voter.set_vote hv at_ v)) with (Voter.id v) in H.
  rewrite H, set_vote_set_vote. f_equal. unfold s1.
  unfold Store.record, Store.logged, Store.with_rows.
  cbn [Store.rows Store.max_rows Store.log Store.fault].
  by rewrite mark_mark.
Qed.

End RoundTrip.

(** X16: the vote handlers keep no history and guard against nothing: on a
    table with unique ids served without failures, what a vote followed by
    an unvote, or by a second vote, leaves in the table is what the last
    call alone would leave. A second vote is answered 200 and replaces the
    time of the first; a vote followed by an unvote gives back the table as
    it was exactly when the record had not voted and carried no time. *)
Lemma vote_last_call_wins
    (sheets sheets' : Server.mirror) (now now' : string)
    (v : Voter.t) (s : Store.t) :
  healthy s → NoDup (Voter.id <$> Store.rows s) → v ∈ Store.rows s →
  let id := Voter.id v in
  let voted := (Server.vote sheets now id s).1 in
  Store.rows (Server.unvote sheets' id voted).1
    = Store.rows (Server.unvote sheets' id s).1 ∧
  Store.rows (Server.vote sheets' now' id voted).1
    = Store.rows (Server.vote sheets' now' id s).1 ∧
  Server.status (Server.vote sheets' now' id voted).2.1 = 200 ∧
  Server.body_data (Server.vote sheets' now' id voted).2.1
    = Some (Voter.set_vote true (Some now') v) ∧
  (Store.rows (Server.unvote sheets' id voted).1 = Store.rows s
   ↔ Voter.has_voted v = false ∧ Voter.voted_at v = None).
Proof.
  intros Hh Hnd Hv. cbv zeta.
  assert (Hs1 : (Server.vote sheets now (Voter.id v) s).1
                = (Store.update_vote (Voter.id v) true (Some now) s).1).
  { unfold Server.vote, Store.bind.
    by rewrite (update_vote_present true (Some now) v s). }
  rewrite Hs1.
  unfold Server.vote, Server.unvote, Store.bind.
  rewrite !update_vote_twice by done.
  rewrite !(update_vote_present _ _ v s) by done.
  cbn [fst snd Supabase.error Supabase.data Supabase.ok
       Store.rows Store.record Store.logged Store.with_rows
       Server.status Server.body_data].
  split_and!; [done..|]. split.
  - intros Heq. apply list_elem_of_lookup in Hv as [j Hj].
    apply (f_equal (λ l, l !! j)) in Heq.
    unfold Store.ret in Heq.
    cbn [fst Store.rows Store.record Store.logged Store.with_rows] in Heq.
    rewrite list_lookup_fmap, Hj in Heq. simpl in Heq.
    rewrite decide_True in Heq by done. injection Heq as Heq.
    split; [by rewrite <- Heq|by rewrite <- Heq].
  - intros [Hhv Hat]. etransitivity; [|apply list_fmap_id].
    apply list_fmap_ext. intros i u Hi. simpl.
    destruct (decide (Voter.id u = Voter.id v)) as [E|E]; [|done].
    assert (u = v) as ->.
    { apply list_elem_of_lookup in Hv as [j Hj].
      assert (i = j) as ->; [|congruence].
      apply (NoDup_lookup (Voter.id <$> Store.rows s) i j (Voter.id u) Hnd);
        rewrite list_lookup_fmap; [by rewrite Hi|by rewrite Hj, E]. }
    rewrite <- Hhv, <- Hat. apply set_vote_same.
Qed.

Lemma vote_last_call_wins_witness :
  let s := Sample.table (Some 1000) (Sample.numbered 3) in
  Store.rows
    (Server.unvote None 2
       (Server.vote None "2024-05-12T08:00:00.000Z" 2 s).1).1
  = Store.rows s.
Proof.
  cbv zeta.
  refine (proj2 (proj2 (proj2 (proj2 (proj2 (vote_last_call_wins None None
    "2024-05-12T08:00:00.000Z" "2024-05-12T09:00:00.000Z"
    (Sample.voter 2 (Some "2") (Some "x") (Some "2"))
    (Sample.table (Some 1000) (Sample.numbered 3)) _ _ _))))) _).
  - intros n. reflexivity.
  - decide_closed.
  - decide_closed.
  - split; reflexivity.
Defined.

(* ===================================================================== *)
(** ** Statistics and religions *)
(* ===================================================================== *)

Section StatsFacts.
Import Supabase Stats.

Local Abbreviation zero := {| total := 0; voted := 0 |}.

Lemma count_voter_get o v k :
  JsObject.get (count_voter o v) k
  = if decide (religion_key v.1 = k)
    then let t := default {| total := 0; voted := 0 |} (JsObject.get o k) in
         Some {| total := total t + 1;
                 voted := voted t + (if v.2 then 1 else 0) |}
    else JsObject.get o k.
Proof.
  unfold count_voter. cbv zeta.
  set (rel := religion_key v.1).
  destruct (decide (rel = k)) as [<-|Hne];
    destruct (JsObject.get o rel) as [t|] eqn:E; rewrite ?E;
    destruct v.2;
    repeat first [ rewrite get_set | rewrite E
                 | rewrite decide_True by done
                 | rewrite decide_False by done ];
    cbn [default total voted]; rewrite ?Nat.add_0_r; done.
Qed.

Lemma counted_cons k v l :
  counted k (v :: l)
  = if decide (religion_key v.1 = k)
    then {| total := S (total (counted k l));
            voted := (if v.2 then 1 else 0) + voted (counted k l) |}
    else counted k l.
Proof.
  unfold counted. cbv zeta. destruct (decide (religion_key v.1 = k)) as [E|E].
  - rewrite filter_cons_True by done. cbn [length total voted].
    destruct v.2 eqn:Ev.
    + by rewrite filter_cons_True by done.
    + rewrite filter_cons_False by (by rewrite Ev). done.
  - by rewrite filter_cons_False.
Qed.

Lemma foldl_count_voter_get l : ∀ o k,
  JsObject.get (foldl count_voter o l) k
  = match JsObject.get o k with
    | Some t => Some {| total := total t + total (counted k l);
                        voted := voted t + voted (counted k l) |}
    | None => if decide (total (counted k l) = 0) then None
              else Some (counted k l)
    end.
Proof.
  induction l as [|v l IH]; intros o k.
  - simpl. destruct (JsObject.get o k) as [[a b]|]; [|done].
    simpl. by rewrite !Nat.add_0_r.
  - cbn [foldl]. rewrite IH, count_voter_get, counted_cons.
    destruct (decide (religion_key v.1 = k)) as [E|E]; [|done].
    cbv zeta. cbn [total voted].
    destruct (JsObject.get o k) as [[a b]|]; cbn [default id total voted].
    + f_equal. f_equal; lia.
    + by rewrite decide_False by lia.
Qed.

Lemma count_voter_NoDup o v : NoDup o.*1 → NoDup (count_voter o v).*1.
Proof.
  intros H. unfold count_voter. cbv zeta.
  set (rel := religion_key v.1).
  set (o1 := match JsObject.get o rel with
             | None => JsObject.set o rel {| total := 0; voted := 0 |}
             | Some _ => o
             end).
  assert (NoDup o1.*1) as H1.
  { unfold o1. destruct (JsObject.get o rel); [done|by apply NoDup_set]. }
  set (o2 := match JsObject.get o1 rel with
             | Some t => JsObject.set o1 rel {| total := total t + 1; voted := voted t |}
             | None => o1
             end).
  assert (NoDup o2.*1) as H2.
  { unfold o2. destruct (JsObject.get o1 rel); [by apply NoDup_set|done]. }
  destruct v.2; [|done].
  destruct (JsObject.get o2 rel); [by apply NoDup_set|done].
Qed.

Lemma foldl_count_voter_NoDup l : ∀ o,
  NoDup o.*1 → NoDup (foldl count_voter o l).*1.
Proof.
  induction l as [|v l IH]; intros o H; [done|].
  cbn [foldl]. by apply IH, count_voter_NoDup.
Qed.

Lemma sum_total_set o k t :
  sum_total (JsObject.set o k t) + total (default zero (JsObject.get o k))
  = sum_total o + total t.
Proof.
  unfold sum_total. induction o as [|[k1 t1] o IH].
  - simpl. lia.
  - cbn [JsObject.set JsObject.get].
    destruct (decide (k1 = k)) as [->|Hne];
      rewrite !fmap_cons; cbn [sum_list_with id snd default total] in *; lia.
Qed.

Lemma sum_voted_set o k t :
  sum_voted (JsObject.set o k t) + voted (default zero (JsObject.get o k))
  = sum_voted o + voted t.
Proof.
  unfold sum_voted. induction o as [|[k1 t1] o IH].
  - simpl. lia.
  - cbn [JsObject.set JsObject.get].
    destruct (decide (k1 = k)) as [->|Hne];
      rewrite !fmap_cons; cbn [sum_list_with id snd default voted] in *; lia.
Qed.

Lemma count_voter_sums o v :
  sum_total (count_voter o v) = sum_total o + 1 ∧
  sum_voted (count_voter o v) = sum_voted o + (if v.2 then 1 else 0).
Proof.
  unfold count_voter. cbv zeta. set (rel := religion_key v.1).
  assert (Hstep : ∀ o1 t, JsObject.get o1 rel = Some t → ∀ t',
            sum_total (JsObject.set o1 rel t') + total t = sum_total o1 + total t' ∧
            sum_voted (JsObject.set o1 rel t') + voted t = sum_voted o1 + voted t').
  { intros o1 t E t'. pose proof (sum_total_set o1 rel t') as H1.
    pose proof (sum_voted_set o1 rel t') as H2. rewrite E in H1, H2. done. }
  set (o1 := match JsObject.get o rel with
             | None => JsObject.set o rel {| total := 0; voted := 0 |}
             | Some _ => o
             end).
  assert (H1 : ∃ t, JsObject.get o1 rel = Some t ∧
                    sum_total o1 = sum_total o ∧ sum_voted o1 = sum_voted o).
  { unfold o1. destruct (JsObject.get o rel) as [t|] eqn:E.
    - by exists t.
    - exists {| total := 0; voted := 0 |}. rewrite get_set, decide_True by done.
      pose proof (sum_total_set o rel {| total := 0; voted := 0 |}) as H1.
      pose proof (sum_voted_set o rel {| total := 0; voted := 0 |}) as H2.
      rewrite E in H1, H2. simpl in H1, H2. split_and!; [done|lia..]. }
  destruct H1 as (t & E1 & Hs1 & Hv1). rewrite E1.
  destruct (Hstep o1 t E1 {| total := total t + 1; voted := voted t |}) as [Ha Hb].
  cbn [total voted] in Ha, Hb.
  destruct v.2.
  - rewrite get_set, decide_True by done.
    set (o2 := JsObject.set o1 rel _) in *.
    assert (E2 : JsObject.get o2 rel = Some {| total := total t + 1; voted := voted t |})
      by (unfold o2; by rewrite get_set, decide_True).
    destruct (Hstep o2 _ E2 {| total := total t + 1; voted := voted t + 1 |}) as [Hc Hd].
    cbn [total voted] in Hc, Hd |- *. lia.
  - lia.
Qed.

Lemma foldl_count_voter_sums l : ∀ o,
  sum_total (foldl count_voter o l) = sum_total o + length l ∧
  sum_voted (foldl count_voter o l)
    = sum_voted o + length (filter (λ v, v.2 = true) l).
Proof.
  induction l as [|v l IH]; intros o.
  - simpl. lia.
  - cbn [foldl]. destruct (IH (count_voter o v)) as [H1 H2].
    destruct (count_voter_sums o v) as [H3 H4].
    rewrite H1, H2, H3, H4. cbn [length]. destruct v.2 eqn:Ev.
    + rewrite filter_cons_True by done. cbn [length]. lia.
    + rewrite filter_cons_False by (by rewrite Ev). lia.
Qed.

Lemma religion_key_bucket (religion : option string) :
  religion_key religion = bucket religion.
Proof.
  unfold religion_key, bucket, unspecified. destruct religion as [r|]; [|done].
  simpl. destruct (decide (r = "")) as [->|Hr]; [done|].
  by rewrite bool_decide_eq_false_2.
Qed.

Lemma counted_tallied k voters : counted k voters = tallied k voters.
Proof.
  unfold counted, tallied. cbv zeta.
  assert (filter (λ v : option string * bool, religion_key v.1 = k) voters
          = filter (λ v : option string * bool, bucket v.1 = k) voters) as ->; [|done].
  apply list_filter_iff. intros v. by rewrite religion_key_bucket.
Qed.

Lemma byReligion_get voters k :
  JsObject.get (byReligion (Some voters)) k
  = if decide (total (counted k voters) = 0) then None
    else Some (counted k voters).
Proof. unfold byReligion. by rewrite foldl_count_voter_get. Qed.

Lemma byReligion_sums voters :
  NoDup (byReligion (Some voters)).*1 ∧
  sum_total (byReligion (Some voters)) = length voters ∧
  sum_voted (byReligion (Some voters))
    = length (filter (λ v, v.2 = true) voters).
Proof.
  unfold byReligion. split.
  - apply foldl_count_voter_NoDup. constructor.
  - by destruct (foldl_count_voter_sums voters []).
Qed.

Lemma voted_pairs (rs : list Voter.t) :
  length (filter (λ v : option string * bool, v.2 = true)
            ((λ v, (Voter.religion v, Voter.has_voted v)) <$> rs))
  = length (filter (λ v, Voter.has_voted v = true) rs).
Proof.
  induction rs as [|v rs IH]; [done|]. rewrite fmap_cons.
  destruct (Voter.has_voted v) eqn:E.
  - rewrite !filter_cons_True by done. simpl. by rewrite IH.
  - rewrite !filter_cons_False by (simpl; by rewrite ?E). done.
Qed.

End StatsFacts.

(** X17: on a table served without failures, in which no religion names a
    member of Object.prototype, GET /api/stats answers 200 with total the
    number of records, voted the number of records that have voted,
    notVoted their difference (never negative), and percentage the number
    0 for an empty table and the text of the ratio otherwise. byReligion
    has one entry per religion among the rows that the select returned,
    the voters whose religion is null or empty being counted together
    under the key "غير محدد"; an entry holds the number of those rows and
    of those among them that voted. Its totals add up to the number of
    returned rows, and its totals and voted counts to total and voted when
    the server returns the table whole. *)
Theorem getStats_healthy (percent : Z → Z → string) (s : Store.t) :
  healthy s → plain_religions (Store.rows s) →
  let returned := (λ v, (Voter.religion v, Voter.has_voted v))
                    <$> Store.bounded s (Store.rows s) in
  let N := length (Store.rows s) in
  let V := length (filter (λ v, Voter.has_voted v = true) (Store.rows s)) in
  ∃ d,
    (Stats.getStats percent s).2
      = {| Stats.status := 200; Stats.success := true;
           Stats.body_data := Some d; Stats.body_error := None |} ∧
    Stats.stats_total d = Some N ∧ Stats.stats_voted d = Some V ∧
    V ≤ N ∧ Stats.notVoted d = Z.of_nat (N - V) ∧
    Stats.percentage d
      = (if decide (N = 0) then Js.Num 0
         else Js.Str (percent (Z.of_nat V) (Z.of_nat N))) ∧
    (∀ k, JsObject.get (Stats.stats_byReligion d) k
          = if decide (Stats.total (tallied k returned) = 0) then None
            else Some (tallied k returned)) ∧
    NoDup (Stats.stats_byReligion d).*1 ∧
    sum_total (Stats.stats_byReligion d) = length returned ∧
    (table_fits s →
     sum_total (Stats.stats_byReligion d) = N ∧
     sum_voted (Stats.stats_byReligion d) = V).
Proof.
  intros Hh _. cbv zeta.
  unfold Stats.getStats, Store.bind, Store.count, Queries.count_voted,
    Queries.select_religion_has_voted.
  rewrite call_healthy by done. cbn [fst snd Supabase.data Supabase.ok].
  rewrite call_healthy by (by apply healthy_logged).
  cbn [fst snd Supabase.data Supabase.ok].
  rewrite call_healthy by (by do 2 apply healthy_logged).
  cbn [fst snd Supabase.data Supabase.ok Store.ret].
  set (N := length (Store.rows s)).
  set (V := length (filter _ (Store.rows s))).
  assert (V ≤ N) as Hle by apply length_filter.
  change (Store.bounded (Store.record _ (Store.record _ s)))
    with (Store.bounded s).
  cbn [Store.rows Store.record Store.logged].
  set (returned := _ <$> Store.bounded s (Store.rows s)).
  destruct (byReligion_sums returned) as (Hnd & Hst & Hsv).
  eexists. split; [reflexivity|].
  cbn [Stats.stats_total Stats.stats_voted Stats.notVoted Stats.percentage
       Stats.stats_byReligion Stats.to_number].
  split_and!; [done|done|done|lia| | |done|done|].
  - destruct (decide (N = 0)) as [E|E].
    + rewrite E. done.
    + destruct (Z.ltb_spec 0 (Z.of_nat N)); [done|lia].
  - intros k. rewrite <- counted_tallied. apply byReligion_get.
  - intros Hfit. rewrite Hst, Hsv. unfold returned.
    rewrite bounded_fits by done. rewrite voted_pairs, length_fmap. done.
Qed.

Lemma getStats_healthy_witness :
  let s := Sample.table (Some 1000) (Sample.numbered 3) in
  ∃ d,
    (Stats.getStats (λ _ _, "0.00") s).2
      = {| Stats.status := 200; Stats.success := true;
           Stats.body_data := Some d; Stats.body_error := None |} ∧
    Stats.stats_total d = Some 3 ∧
    JsObject.get (Stats.stats_byReligion d) "غير محدد"
      = Some {| Stats.total := 3; Stats.voted := 0 |}.
Proof.
  cbv zeta.
  destruct (getStats_healthy (λ _ _, "0.00")
              (Sample.table (Some 1000) (Sample.numbered 3)))
    as (d & H1 & H2 & _ & _ & _ & _ & H7 & _).
  - intros n. reflexivity.
  - decide_closed.
  - exists d. split; [exact H1|]. split; [exact H2|].
    rewrite H7. reflexivity.
Defined.

(** X18: GET /api/stats never reports a store failure. Whichever of its
    three calls is refused, it issues all three, leaves the table as it is
    and answers 200 with success true. A refused count shows as a null
    total (or voted), a refused select as an empty byReligion; with a null
    total the percentage is the number 0 and notVoted is zero or negative:
    minus the number of records that voted, when the second count is
    served. *)
Theorem getStats_hides_failures (percent : Z → Z → string) (s : Store.t) :
  let run := Stats.getStats percent s in
  let refused (n : nat) := Store.fault s (length (Store.log s) + n) ≠ None in
  Store.rows run.1 = Store.rows s ∧
  length (Store.log run.1) = length (Store.log s) + 3 ∧
  ∃ d,
    run.2 = {| Stats.status := 200; Stats.success := true;
               Stats.body_data := Some d; Stats.body_error := None |} ∧
    (Stats.stats_total d = None ↔ refused 0) ∧
    (Stats.stats_voted d = None ↔ refused 1) ∧
    (refused 2 → Stats.stats_byReligion d = []) ∧
    (refused 0 → Stats.percentage d = Js.Num 0 ∧ (Stats.notVoted d ≤ 0)%Z) ∧
    (refused 0 → ¬ refused 1 →
     Stats.notVoted d
       = (- Z.of_nat (length (filter (λ v, Voter.has_voted v = true)
                                (Store.rows s))))%Z).
Proof.
  cbv zeta.
  unfold Stats.getStats, Store.bind, Store.count, Queries.count_voted,
    Queries.select_religion_has_voted, Store.call, Store.record, Store.logged.
  rewrite !Nat.add_0_r.
  destruct (Store.fault s (length (Store.log s))) as [e0|] eqn:F0;
    cbn [Store.fault Store.log Store.rows Store.max_rows fst snd];
    rewrite ?length_app; cbn [length];
    destruct (Store.fault s (length (Store.log s) + 1)) as [e1|] eqn:F1;
    cbn [Store.fault Store.log Store.rows Store.max_rows fst snd];
    rewrite ?length_app; cbn [length];
    rewrite <- ?Nat.add_assoc; cbn [Nat.add];
    destruct (Store.fault s (length (Store.log s) + 2)) as [e2|] eqn:F2;
    cbn [Store.fault Store.log Store.rows Store.max_rows fst snd Store.ret
         Supabase.data Supabase.ok Supabase.failed];
    rewrite ?length_app; cbn [length];
    (split; [done|]); (split; [lia|]);
    eexists; (split; [reflexivity|]);
    cbn [Stats.stats_total Stats.stats_voted Stats.notVoted Stats.percentage
         Stats.stats_byReligion Stats.to_number Stats.byReligion];
    split_and!; try done; try (split; done); try (intros; split; [done|lia]);
    try (intros; lia); try (intros ? H; by destruct H).
Qed.

Section ReligionsFacts.
Import Supabase.

Lemma unique_from {A} `{EqDecision A} (xs : list A) : ∀ seen,
  NoDup seen →
  let r := foldl (λ seen x, if decide (x ∈ seen) then seen else seen ++ [x])
                 seen xs in
  NoDup r ∧ ∀ x, x ∈ r ↔ x ∈ seen ∨ x ∈ xs.
Proof.
  induction xs as [|y xs IH]; intros seen Hnd; cbv zeta.
  - simpl. split; [done|]. intros x. rewrite elem_of_nil. naive_solver.
  - cbn [foldl]. destruct (decide (y ∈ seen)) as [Hy|Hy].
    + destruct (IH seen Hnd) as [H1 H2]. split; [done|]. intros x.
      rewrite H2, elem_of_cons. naive_solver.
    + destruct (IH (seen ++ [y])) as [H1 H2].
      { apply NoDup_app. split_and!; [done| |apply NoDup_singleton].
        by intros x Hx ->%list_elem_of_singleton. }
      split; [done|]. intros x.
      rewrite H2, elem_of_app, list_elem_of_singleton, elem_of_cons. naive_solver.
Qed.

Lemma unique_spec {A} `{EqDecision A} (xs : list A) :
  NoDup (JsArray.unique xs) ∧ ∀ x, x ∈ JsArray.unique xs ↔ x ∈ xs.
Proof.
  destruct (unique_from xs [] (NoDup_nil_2)) as [H1 H2]. split; [done|].
  intros x. unfold JsArray.unique. rewrite H2, elem_of_nil. naive_solver.
Qed.

Lemma code_unit_le_iff (a b : string) :
  JsArray.code_unit_le a b ↔ OrderedTypeEx.String_as_OT.lt a b ∨ a = b.
Proof.
  unfold JsArray.code_unit_le, String.leb.
  rewrite <- OrderedTypeEx.String_as_OT.cmp_lt, <- OrderedTypeEx.String_as_OT.cmp_eq.
  unfold OrderedTypeEx.String_as_OT.cmp.
  destruct (String.compare a b); naive_solver.
Qed.

#[local] Instance code_unit_le_total : Total JsArray.code_unit_le.
Proof. intros a b. apply String.leb_total. Qed.

#[local] Instance code_unit_le_trans : Transitive JsArray.code_unit_le.
Proof.
  intros a b c. rewrite !code_unit_le_iff.
  intros [H1| ->] [H2| ->]; eauto.
  left. by apply (OrderedTypeEx.String_as_OT.lt_trans a b c).
Qed.

Lemma sort_spec (xs : list string) :
  StronglySorted JsArray.code_unit_le (JsArray.sort xs) ∧ JsArray.sort xs ≡ₚ xs.
Proof.
  split.
  - apply (StronglySorted_merge_sort _).
  - apply merge_sort_Permutation.
Qed.

Lemma listed_iff (r : string) :
  Religions.listed r = true ↔ r ≠ "" ∧ r ≠ "--".
Proof.
  unfold Religions.listed. rewrite andb_true_iff, !negb_true_iff.
  by rewrite !bool_decide_eq_false.
Qed.

End ReligionsFacts.

(** X19: GET /api/religions leaves the table as it is. A refused call is
    answered 500 with the store's message. A served call is answered 200
    with a list in ascending order of code units and without duplicates,
    which holds exactly the religions other than the empty text and "--"
    of the rows that the select returned: of all the records when the
    server returns the table whole. *)
Theorem getReligions_spec (s : Store.t) :
  let run := Religions.getReligions s in
  let returned :=
    Store.bounded s (filter (λ v, Voter.religion v ≠ None) (Store.rows s)) in
  Store.rows run.1 = Store.rows s ∧
  match Store.fault s (length (Store.log s)) with
  | Some e => run.2 = Religions.internal_error e
  | None =>
      ∃ religions,
        run.2 = {| Religions.status := 200; Religions.success := true;
                   Religions.body_data := Some religions;
                   Religions.body_error := None |} ∧
        StronglySorted JsArray.code_unit_le religions ∧
        NoDup religions ∧
        (∀ r, r ∈ religions ↔
              r ≠ "" ∧ r ≠ "--" ∧
              ∃ v, v ∈ returned ∧ Voter.religion v = Some r) ∧
        (table_fits s →
         ∀ r, r ∈ religions ↔
              r ≠ "" ∧ r ≠ "--" ∧
              ∃ v, v ∈ Store.rows s ∧ Voter.religion v = Some r)
  end.
Proof.
  cbv zeta.
  unfold Religions.getReligions, Store.bind, Queries.select_religion_not_null,
    Store.call.
  destruct (Store.fault s (length (Store.log s))) as [e|] eqn:Hf; [done|].
  cbn [fst snd Supabase.error Supabase.data Supabase.ok Store.ret
       Store.rows Store.record Store.logged].
  split; [done|].
  set (returned := Store.bounded s _).
  set (data := omap Voter.religion returned).
  destruct (sort_spec (filter (λ r, Religions.listed r = true) (JsArray.unique data)))
    as [Hs Hp].
  destruct (unique_spec data) as [Hnd Hin].
  assert (Hmem : ∀ r, r ∈ JsArray.sort (filter (λ r, Religions.listed r = true)
                                          (JsArray.unique data))
                      ↔ r ≠ "" ∧ r ≠ "--" ∧
                        ∃ v, v ∈ returned ∧ Voter.religion v = Some r).
  { intros r. rewrite Hp, list_elem_of_filter, listed_iff, Hin.
    unfold data. rewrite list_elem_of_omap. naive_solver. }
  eexists. split_and!; [reflexivity|done| |done|].
  - rewrite Hp. by apply NoDup_filter.
  - intros Hfit r. rewrite Hmem. unfold returned.
    rewrite bounded_fits by (done || apply length_filter).
    setoid_rewrite list_elem_of_filter. split.
    + intros (? & ? & v & [_ Hv] & E). eauto.
    + intros (? & ? & v & Hv & E). split_and!; [done..|].
      exists v. split_and!; [by rewrite E|done..].
Qed.

(* ===================================================================== *)
(** ** The spreadsheet mirror *)
(* ===================================================================== *)

Section ParseIntFacts.
Import JsNumber.

Lemma of_Z_safe (n : Z) :
  (Z.abs n < 2 ^ 53)%Z → of_Z n = Finite n.
Proof.
  intros H. unfold of_Z. cbv zeta.
  destruct (Z.leb_spec (Z.log2 (Z.abs n) - 52) 0) as [|Hk]; [done|].
  exfalso. destruct (decide (Z.abs n = 0%Z)) as [E|E].
  - rewrite E in Hk. simpl in Hk. lia.
  - apply Z.log2_lt_pow2 in H; lia.
Qed.

Lemma digits_stop (R : Z) (rest : string) (seen : option Z) :
  ends_number rest → digits R rest seen = seen.
Proof. destruct rest as [|c r]; [done|]. simpl. by intros ->. Qed.

Lemma digits_uint (d : Decimal.uint) : ∀ (acc : nat) (rest : string),
  ends_number rest →
  digits 10 (NilEmpty.string_of_uint d +:+ rest) (Some (Z.of_nat acc))
  = Some (Z.of_nat (Nat.of_uint_acc d acc)).
Proof.
  induction d; intros acc rest Hrest;
    cbn [NilEmpty.string_of_uint Nat.of_uint_acc];
    [by apply digits_stop|..];
    rewrite append_cons; cbn [digits]; vm_compute digit_value;
    cbn [Z.ltb Z.compare Pos.compare Pos.compare_cont default id];
    match goal with
    | |- digits _ _ (Some ?z) = Some (Z.of_nat (Nat.of_uint_acc _ ?a)) =>
        replace z with (Z.of_nat a)
          by (rewrite ?Nat2Z.inj_succ, Nat.tail_mul_spec; lia)
    end;
    by apply IHd.
Qed.

Lemma to_uint_nonnil (n : nat) : Nat.to_uint n ≠ Decimal.Nil.
Proof.
  intros E. pose proof (Unsigned.of_to n) as H. rewrite E in H.
  simpl in H. subst n. discriminate.
Qed.

Lemma trimStart_blank (ws text : string) :
  blank ws →
  match text with
  | EmptyString => True
  | String c _ => JsString.is_white_space c = false
  end →
  JsString.trimStart (ws +:+ text) = text.
Proof.
  intros Hws Htext. induction ws as [|c ws IH].
  - rewrite append_nil_l. destruct text as [|c r]; [done|]. simpl. by rewrite Htext.
  - destruct Hws as [Hc Hws]. rewrite append_cons. simpl. rewrite Hc. by apply IH.
Qed.

(** A decimal numeral, after white space and before anything that is not
    alphanumeric, is read as its value. *)
Lemma parseInt_numeral (d : Decimal.uint) (ws rest : string) :
  d ≠ Decimal.Nil → blank ws → ends_number rest →
  parseInt (ws +:+ NilEmpty.string_of_uint d +:+ rest)
  = of_Z (Z.of_nat (Nat.of_uint d)).
Proof.
  intros Hd Hws Hrest. unfold parseInt.
  rewrite trimStart_blank; [|done|by destruct d].
  unfold Nat.of_uint.
  destruct d as [|d|d|d|d|d|d|d|d|d|d]; [done|..];
    cbn [NilEmpty.string_of_uint]; rewrite append_cons.
  2-10: cbn [digits]; vm_compute digit_value;
        cbn [Z.ltb Z.compare Pos.compare Pos.compare_cont default id];
        cbn [Nat.of_uint_acc];
        match goal with
        | |- context [digits _ _ (Some ?z)] =>
            match goal with
            | |- context [Nat.of_uint_acc _ ?a] =>
                replace z with (Z.of_nat a)
                  by (rewrite ?Nat2Z.inj_succ, Nat.tail_mul_spec; lia)
            end
        end;
        by rewrite digits_uint.
  (* a leading zero: the next character decides about the hex prefix *)
  assert (Hgo : digits 10 (String "0" (NilEmpty.string_of_uint d +:+ rest)) None
                = Some (Z.of_nat (Nat.of_uint_acc (Decimal.D0 d) 0))).
  { cbn [digits]. vm_compute digit_value.
    cbn [Z.ltb Z.compare Pos.compare Pos.compare_cont default id Nat.of_uint_acc].
    change (10 * 0 + 0)%Z with (Z.of_nat (Nat.tail_mul 10 0)).
    by rewrite digits_uint. }
  destruct d as [|d|d|d|d|d|d|d|d|d|d];
    cbn [NilEmpty.string_of_uint] in *; rewrite ?append_cons, ?append_nil_l in *;
    try (by rewrite Hgo).
  destruct rest as [|c r]; [by rewrite Hgo|].
  simpl in Hrest.
  destruct (decide (c = "x"%char)) as [->|Hx]; [by vm_compute in Hrest|].
  destruct (decide (c = "X"%char)) as [->|HX]; [by vm_compute in Hrest|].
  assert (Hpre : (let '(R, text) :=
                    match String "0" (String c r) with
                    | String "0" (String "x" rest) => (16%Z, rest)
                    | String "0" (String "X" rest) => (16%Z, rest)
                    | _ => (10%Z, String "0" (String c r))
                    end in
                  match digits R text None with
                  | Some mathInt => of_Z mathInt
                  | None => NaN
                  end)
                 = match digits 10 (String "0" (String c r)) None with
                   | Some mathInt => of_Z mathInt
                   | None => NaN
                   end).
  { destruct c as [[] [] [] [] [] [] [] []]; try done. }
  etransitivity; [exact Hpre|]. by rewrite Hgo.
Qed.

End ParseIntFacts.

Section MirrorFacts.
Import Sheets.

Lemma findRow_first (id : Js.value) (rows : list (list string)) : ∀ i k,
  first_match id rows i → findRow rows k id = Z.of_nat (k + i + 1).
Proof.
  induction rows as [|row rows IH]; intros i k [(r & Hi & Hm) Hbefore].
  - by rewrite lookup_nil in Hi.
  - cbn [findRow]. destruct i as [|i].
    + simpl in Hi. injection Hi as ->. rewrite Hm. f_equal. lia.
    + rewrite (Hbefore 0 row) by (done || lia).
      rewrite (IH i (k + 1)).
      * f_equal. lia.
      * split; [by exists r|]. intros j row' Hj Hrow'.
        apply (Hbefore (S j) row'); [lia|done].
Qed.

Lemma findRow_none (id : Js.value) (rows : list (list string)) : ∀ k,
  (∀ row, row ∈ rows → matches id row = false) → findRow rows k id = (-1)%Z.
Proof.
  induction rows as [|row rows IH]; intros k H; [done|].
  cbn [findRow]. rewrite H by left. apply IH. intros r Hr. apply H. by right.
Qed.

Lemma findRow_range (id : Js.value) (rows : list (list string)) : ∀ k,
  findRow rows k id = (-1)%Z ∨ (Z.of_nat k < findRow rows k id)%Z.
Proof.
  induction rows as [|row rows IH]; intros k; [by left|].
  cbn [findRow]. destruct (matches id row).
  - right. lia.
  - destruct (IH (k + 1)) as [->|H]; [by left|right; lia].
Qed.

Lemma matches_number (id : Js.value) (row : list string) :
  matches id row = true → ∃ n, id = Js.Num n.
Proof.
  unfold matches. destruct (row !! 11) as [cell|]; [|done].
  intros [_ H]%andb_true_iff. unfold JsNumber.strict_equal in H.
  destruct (JsNumber.parseInt cell); [done..|].
  destruct id; try done. by eexists.
Qed.

End MirrorFacts.

(** X20: when the sheet is read and row i (counted from 0) is the first
    whose column L is not empty and parses to the voter's original_id, the
    vote mirror writes "Yes" to cell B(i+1) and the unvote mirror writes
    the empty text to the same cell; nothing else is requested after the
    read, and each mirror ends as its write ends. *)
Theorem mirror_writes_first_match
    (e : Sheets.env) (sheets : Sheets.client) (voter : Voter.t)
    (values : option (list (list string))) (i : nat) :
  let sheetId := Sheets.GOOGLE_SHEET_ID e in
  let all := Sheets.sheetName e +:+ "!A:L" in
  let cell := Sheets.sheetName e +:+ "!B" +:+ JsNumber.to_text (Z.of_nat (i + 1)) in
  Sheets.get sheets sheetId all = Finished values →
  first_match (Voter.original_id voter) (default [] values) i →
  Sheets.requests (Sheets.updateGoogleSheet e sheets voter)
    = [Sheets.Get sheetId all; Sheets.Update sheetId cell "Yes"] ∧
  Sheets.result (Sheets.updateGoogleSheet e sheets voter)
    = Sheets.update sheets sheetId cell "Yes" ∧
  Sheets.requests (Sheets.updateGoogleSheetUnvote e sheets voter)
    = [Sheets.Get sheetId all; Sheets.Update sheetId cell ""] ∧
  Sheets.result (Sheets.updateGoogleSheetUnvote e sheets voter)
    = Sheets.update sheets sheetId cell "".
Proof.
  cbv zeta. intros Hget Hfirst.
  unfold Sheets.updateGoogleSheet, Sheets.updateGoogleSheetUnvote. cbv zeta.
  rewrite Hget, (findRow_first _ _ i 0 Hfirst).
  change (0 + i + 1) with (i + 1).
  destruct (Z.eqb_spec (Z.of_nat (i + 1)) (-1)) as [E|_]; [lia|].
  split_and!;
    match goal with
    | |- context [Sheets.update ?a ?b ?c ?d] =>
        destruct (Sheets.update a b c d) as [[]|err]
    end; done.
Qed.

Lemma mirror_writes_first_match_witness :
  Sheets.requests
    (Sheets.updateGoogleSheet sample_env sample_client
       (Sample.voter 8 (Some "Sami") (Some "Omar") None))
  = [ Sheets.Get (Some "sheet") "Sheet1!A:L";
      Sheets.Update (Some "sheet") "Sheet1!B3" "Yes" ].
Proof.
  refine (proj1 (mirror_writes_first_match sample_env sample_client
                   (Sample.voter 8 (Some "Sami") (Some "Omar") None)
                   (Some sample_sheet) 2 _ _)).
  - reflexivity.
  - split.
    + eexists. split; reflexivity.
    + intros [|[|j]] row Hj Hrow; [| |lia]; injection Hrow as <-; reflexivity.
Defined.


(** X21: when the sheet is read and no row answers to the voter's
    original_id, neither mirror writes anything and both end normally; the
    vote mirror prints that the voter was not found, the unvote mirror
    prints nothing. *)
Theorem mirror_without_match_writes_nothing
    (e : Sheets.env) (sheets : Sheets.client) (voter : Voter.t)
    (values : option (list (list string))) :
  let sheetId := Sheets.GOOGLE_SHEET_ID e in
  let all := Sheets.sheetName e +:+ "!A:L" in
  Sheets.get sheets sheetId all = Finished values →
  (∀ row, row ∈ default [] values →
          Sheets.matches (Voter.original_id voter) row = false) →
  Sheets.updateGoogleSheet e sheets voter
    = {| Sheets.requests := [Sheets.Get sheetId all];
         Sheets.console := [Sheets.RowNotFound (Voter.original_id voter)];
         Sheets.result := Finished tt |} ∧
  Sheets.updateGoogleSheetUnvote e sheets voter
    = {| Sheets.requests := [Sheets.Get sheetId all];
         Sheets.console := [];
         Sheets.result := Finished tt |}.
Proof.
  cbv zeta. intros Hget Hnone.
  unfold Sheets.updateGoogleSheet, Sheets.updateGoogleSheetUnvote. cbv zeta.
  by rewrite Hget, (findRow_none _ _ 0 Hnone).
Qed.

Lemma mirror_without_match_writes_nothing_witness :
  Sheets.requests
    (Sheets.updateGoogleSheet sample_env sample_client
       (Sample.voter 9 (Some "Rami") (Some "Omar") None))
  = [ Sheets.Get (Some "sheet") "Sheet1!A:L" ].
Proof.
  refine (f_equal Sheets.requests
            (proj1 (mirror_without_match_writes_nothing sample_env sample_client
                      (Sample.voter 9 (Some "Rami") (Some "Omar") None)
                      (Some sample_sheet) _ _))).
  - reflexivity.
  - intros row Hrow. simpl in Hrow. unfold sample_sheet in Hrow.
    rewrite !elem_of_cons, elem_of_nil in Hrow.
    destruct Hrow as [->|[->|[->|[]]]]; reflexivity.
Defined.


(** X22: a voter whose original_id is not a number (a text such as "12",
    null, a boolean) is never mirrored: the comparison with the parsed cell
    is strict, so whatever the sheet holds both mirrors only read it. *)
Theorem mirror_needs_numeric_id
    (e : Sheets.env) (sheets : Sheets.client) (voter : Voter.t) :
  (∀ n, Voter.original_id voter ≠ Js.Num n) →
  let all := Sheets.Get (Sheets.GOOGLE_SHEET_ID e) (Sheets.sheetName e +:+ "!A:L") in
  Sheets.requests (Sheets.updateGoogleSheet e sheets voter) = [all] ∧
  Sheets.requests (Sheets.updateGoogleSheetUnvote e sheets voter) = [all].
Proof.
  intros Hid. cbv zeta.
  unfold Sheets.updateGoogleSheet, Sheets.updateGoogleSheetUnvote. cbv zeta.
  destruct (Sheets.get sheets _ _) as [values|err]; [|done].
  rewrite findRow_none; [done|].
  intros row _. destruct (Sheets.matches _ row) eqn:E; [|done].
  apply matches_number in E as [n E]. by destruct (Hid n).
Qed.

Lemma mirror_needs_numeric_id_witness :
  Sheets.requests (Sheets.updateGoogleSheet sample_env sample_client text_id_voter)
  = [ Sheets.Get (Some "sheet") "Sheet1!A:L" ].
Proof.
  refine (proj1 (mirror_needs_numeric_id sample_env sample_client text_id_voter _)).
  intros n. discriminate.
Defined.


(** X23: whatever the sheet holds and whatever the client does, a mirror
    call reads columns A to L once and then writes at most one cell, in
    column B at a row index of at least 1; the unvote mirror issues the
    requests of the vote mirror with the empty text for "Yes"; when the
    read is rejected both mirrors end with that error. *)
Theorem mirror_one_cell
    (e : Sheets.env) (sheets : Sheets.client) (voter : Voter.t) :
  let sheetId := Sheets.GOOGLE_SHEET_ID e in
  let all := Sheets.sheetName e +:+ "!A:L" in
  let vote := Sheets.updateGoogleSheet e sheets voter in
  let unvote := Sheets.updateGoogleSheetUnvote e sheets voter in
  (Sheets.requests vote = [Sheets.Get sheetId all] ∨
   ∃ rowIndex,
     (1 ≤ rowIndex)%Z ∧
     Sheets.requests vote
       = [Sheets.Get sheetId all;
          Sheets.Update sheetId
            (Sheets.sheetName e +:+ "!B" +:+ JsNumber.to_text rowIndex) "Yes"]) ∧
  Sheets.requests unvote = writing "" <$> Sheets.requests vote ∧
  (∀ err, Sheets.get sheets sheetId all = Thrown err →
          Sheets.result vote = Thrown err ∧ Sheets.result unvote = Thrown err).
Proof.
  cbv zeta.
  unfold Sheets.updateGoogleSheet, Sheets.updateGoogleSheetUnvote. cbv zeta.
  destruct (Sheets.get sheets _ _) as [values|err].
  - set (rowIndex := Sheets.findRow _ _ _).
    pose proof (findRow_range (Voter.original_id voter) (default [] values) 0) as Hr.
    fold rowIndex in Hr.
    destruct (Z.eqb_spec rowIndex (-1)) as [E|E].
    + split_and!; [by left|done|done].
    + destruct Hr as [Hr|Hr]; [done|].
      split_and!; [right; exists rowIndex| |done].
      * split; [lia|]. by destruct (Sheets.update _ _ _ "Yes").
      * by destruct (Sheets.update _ _ _ "Yes"), (Sheets.update _ _ _ "").
  - split_and!; [by left|done|]. intros err' [= ->]. done.
Qed.

(** X24: a cell of column L that holds the decimal text of a number n
    below 2^53, possibly after white space and before text that starts
    with a character that is neither a digit nor a letter, parses to n: the
    row answers to the original_id n and to no other value. *)
Theorem cell_answers_to_its_number
    (n : nat) (ws rest : string) (row : list string) :
  (Z.of_nat n < 2 ^ 53)%Z → blank ws → ends_number rest →
  row !! 11 = Some (ws +:+ JsString.of_nat n +:+ rest) →
  JsNumber.parseInt (ws +:+ JsString.of_nat n +:+ rest) = JsNumber.Finite (Z.of_nat n) ∧
  ∀ original_id,
    Sheets.matches original_id row = true ↔ original_id = Js.Num (Z.of_nat n).
Proof.
  intros Hn Hws Hrest Hrow.
  assert (Hp : JsNumber.parseInt (ws +:+ JsString.of_nat n +:+ rest)
               = JsNumber.Finite (Z.of_nat n)).
  { unfold JsString.of_nat.
    rewrite parseInt_numeral by (done || apply to_uint_nonnil).
    rewrite Unsigned.of_to. apply of_Z_safe. lia. }
  split; [done|]. intros id. unfold Sheets.matches. rewrite Hrow, Hp.
  assert (ws +:+ JsString.of_nat n +:+ rest ≠ "") as Hne.
  { intros E. apply (f_equal JsNumber.parseInt) in E. rewrite Hp in E.
    by vm_compute in E. }
  rewrite bool_decide_eq_false_2 by done. cbn [negb andb JsNumber.strict_equal].
  destruct id as [|m|?|?]; try (split; [done|by intros [=]]).
  rewrite Z.eqb_eq. split; [by intros ->|by intros [= ->]].
Qed.

Lemma cell_answers_to_its_number_witness :
  JsNumber.parseInt (" " +:+ JsString.of_nat 12 +:+ " (moved)")
  = JsNumber.Finite 12.
Proof.
  refine (proj1 (cell_answers_to_its_number 12 " " " (moved)"
                   ["a"; "b"; "c"; "d"; "e"; "f"; "g"; "h"; "i"; "j"; "k";
                    " 12 (moved)"] _ _ _ _)).
  - reflexivity.
  - split; [reflexivity|exact I].
  - reflexivity.
  - reflexivity.
Defined.

(* ===================================================================== *)
(** ** The import, the fetch and the deduplication report *)
(* ===================================================================== *)

Section ImportRun.
Import Supabase ImportScript.

Lemma update_family_classification_healthy id f c s :
  healthy s →
  Store.update_family_classification id f c s =
    (Store.record (Updated id)
       (Store.with_rows
          ((λ v, if decide (Voter.id v = id)
                 then Voter.set_family_classification f c v else v)
             <$> Store.rows s) s),
     ok ()).
Proof. intros Hh. unfold Store.update_family_classification. by rewrite call_healthy. Qed.

Lemma enrich_id (us : list update) (v : Voter.t) :
  Voter.id (enrich us v) = Voter.id v.
Proof.
  revert v. induction us as [|u us IH]; intros v; [done|]. simpl.
  rewrite IH. by destruct (decide _).
Qed.

Lemma applyBatch_healthy (us : list update) : ∀ s a b,
  healthy s →
  ∃ s', applyBatch us a b s = (s', (a + length us, b)) ∧
        healthy s' ∧ Store.max_rows s' = Store.max_rows s ∧
        Store.rows s' = enrich us <$> Store.rows s.
Proof.
  induction us as [|u us IH]; intros s a b Hh.
  - exists s. unfold enrich. simpl. rewrite Nat.add_0_r, list_fmap_id. done.
  - simpl applyBatch. unfold Store.bind.
    rewrite update_family_classification_healthy by done. cbn [error ok].
    set (s1 := Store.record _ _).
    destruct (IH s1 (a + 1) b) as (s' & E & Hh' & Hm & Hr).
    { apply healthy_logged, healthy_with_rows, Hh. }
    exists s'. rewrite E. split_and!; [f_equal; f_equal; simpl; lia|done..|].
    rewrite Hr. subst s1. cbn [Store.rows Store.record Store.logged Store.with_rows].
    rewrite <- list_fmap_compose. done.
Qed.

Lemma enrich_last (us : list update) (v : Voter.t) :
  match last (filter (λ u, id u = Voter.id v) us) with
  | Some u => enrich us v
              = Voter.set_family_classification (family u) (classification u)
                  (enrich us v) ∧
              Voter.family (enrich us v) = family u ∧
              Voter.classification (enrich us v) = classification u
  | None => enrich us v = v
  end.
Proof.
  revert v. induction us as [|u us IH] using rev_ind; intros v; [done|].
  unfold enrich. rewrite foldl_snoc. fold (enrich us v).
  rewrite filter_app, filter_cons, filter_nil, enrich_id.
  destruct (decide (Voter.id v = id u)) as [E|E].
  - rewrite decide_True by done. by rewrite last_snoc.
  - rewrite decide_False by done. rewrite app_nil_r. apply IH.
Qed.

Lemma enrich_erased (us : list update) (v : Voter.t) :
  Voter.set_family_classification Js.Null Js.Null (enrich us v)
  = Voter.set_family_classification Js.Null Js.Null v.
Proof.
  induction us as [|u us IH] using rev_ind; [done|].
  unfold enrich. rewrite foldl_snoc. fold (enrich us v).
  destruct (decide _); [|done]. rewrite <- IH. by destruct (enrich us v).
Qed.

End ImportRun.

(** X26: on a table served without failures a confirmed import counts
    every update as a success and leaves each record with the family and
    the classification of the last update of the plan that carries its id,
    every other field as it was; a record that no update names is
    unchanged. So when the sheet names a voter twice its later row wins. *)
Theorem importData_enriches
    (ws : ImportScript.worksheet) (fuel : nat) (answer : string) (s : Store.t) :
  healthy s → page_fits s →
  length (Store.rows s) / BulkFetch.pageSize < fuel →
  JsString.confirms answer = true →
  let p := ImportScript.processExcel ws (Store.order_by_id (Store.rows s)) in
  let plan := ImportScript.updates p in
  let run := ImportScript.importData ws fuel answer s in
  run.2 = Some (Finished (ImportScript.Applied p (length plan) 0)) ∧
  Store.rows run.1 = enrich plan <$> Store.rows s ∧
  ∀ v, match last (filter (λ u, ImportScript.id u = Voter.id v) plan) with
       | Some u =>
           Voter.family (enrich plan v) = ImportScript.family u ∧
           Voter.classification (enrich plan v) = ImportScript.classification u ∧
           Voter.set_family_classification Js.Null Js.Null (enrich plan v)
             = Voter.set_family_classification Js.Null Js.Null v
       | None => enrich plan v = v
       end.
Proof.
  intros Hh Hp Hfuel Hyes. cbv zeta.
  unfold ImportScript.importData, Store.bind.
  rewrite fetchAll_healthy by done. rewrite Hyes.
  set (L := Store.order_by_id (Store.rows s)).
  set (s0 := Store.logged _ s).
  set (plan := ImportScript.updates (ImportScript.processExcel ws L)).
  rewrite applyUpdates_flat by lia. rewrite drop_0.
  destruct (applyBatch_healthy plan s0 0 0) as (s1 & E & Hh1 & Hm1 & Hr1);
    [by apply healthy_logged|].
  rewrite E. unfold Store.select_sample.
  rewrite call_healthy by done. cbn [fst snd].
  split_and!; [done|by rewrite Hr1|].
  intros v. pose proof (enrich_last plan v) as H.
  destruct (last _) as [u|]; [|done].
  destruct H as (H1 & H2 & H3). split_and!; [done..|]. apply enrich_erased.
Qed.

Lemma importData_enriches_witness :
  let s := Sample.table (Some 1000) (Sample.numbered 3) in
  let ws := {| ImportScript.cells :=
                 λ a, if decide (a = "L2") then Some (Js.Num 2)
                      else if decide (a = "J2") then Some (Js.Str "Khoury")
                      else None;
               ImportScript.e_r := 1 |} in
  Store.rows (ImportScript.importData ws 1 "yes" s).1
  = enrich (ImportScript.updates
              (ImportScript.processExcel ws (Store.order_by_id (Store.rows s))))
      <$> Store.rows s.
Proof.
  cbv zeta.
  refine (proj1 (proj2 (importData_enriches _ 1 "yes"
                          (Sample.table (Some 1000) (Sample.numbered 3)) _ _ _ _))).
  - intros n. reflexivity.
  - vm_compute. lia.
  - vm_compute. lia.
  - reflexivity.
Defined.




(** X27: behind a server that returns fewer rows per response than a page
    holds, the paginated fetch stops after its first request, which comes
    back short: the snapshot is the c lowest-id records, without an error,
    however many records the table has. *)
Theorem fetchAll_truncated (fuel c : nat) (s : Store.t) :
  Store.max_rows s = Some c → c < BulkFetch.pageSize →
  Store.fault s (length (Store.log s)) = None → 0 < fuel →
  let snapshot := take c (Store.order_by_id (Store.rows s)) in
  BulkFetch.fetchAll fuel s
    = (Store.record
         (Supabase.Ranged 0 (BulkFetch.pageSize - 1) (length snapshot)) s,
       Some (Finished snapshot)) ∧
  length snapshot = Nat.min c (length (Store.rows s)).
Proof.
  intros Hc Hlt Hf Hfuel. cbv zeta.
  destruct fuel as [|fuel]; [lia|].
  unfold BulkFetch.fetchAll. cbn [BulkFetch.loop]. unfold Store.bind, Store.range.
  rewrite call_ok by done.
  cbn [fst snd Supabase.error Supabase.data Supabase.ok].
  unfold Store.bounded. rewrite Hc, drop_0, take_take.
  replace (c `min` (0 + BulkFetch.pageSize - 1 + 1 - 0)) with c
    by (unfold BulkFetch.pageSize in *; lia).
  set (snapshot := take c _).
  assert (Hlen : length snapshot = Nat.min c (length (Store.rows s))).
  { unfold snapshot. by rewrite length_take, order_by_id_length. }
  rewrite bool_decide_eq_false_2 by (unfold BulkFetch.pageSize in *; lia).
  done.
Qed.

Lemma fetchAll_truncated_witness :
  let s := Sample.table (Some 2) (Sample.numbered 3) in
  (BulkFetch.fetchAll 1 s).2
  = Some (Finished (take 2 (Store.order_by_id (Store.rows s)))).
Proof.
  cbv zeta.
  refine (f_equal snd
            (proj1 (fetchAll_truncated 1 2
                      (Sample.table (Some 2) (Sample.numbered 3)) _ _ _ _))).
  - reflexivity.
  - vm_compute. lia.
  - reflexivity.
  - lia.
Defined.

Section DedupReport.
Import Supabase.

Lemma duplicateGroups_NoDup (l : list Voter.t) : NoDup (Dedup.duplicateGroups l).
Proof.
  unfold Dedup.duplicateGroups. apply NoDup_filter.
  rewrite Object_entries_perm. unfold Dedup.groupedByName.
  destruct (grouped_get_NoDup Dedup.nameKey l) as [H _].
  by apply NoDup_fmap_1 in H.
Qed.

(** No id is marked twice. *)
Lemma idsToDelete_NoDup (l : list Voter.t) :
  ascending l → NoDup (Dedup.idsToDelete l).
Proof.
  intros Hasc. unfold Dedup.idsToDelete. apply NoDup_bind.
  - intros [k1 vs1] [k2 vs2] z H1 H2 Hz1 Hz2. simpl in Hz1, Hz2.
    apply list_elem_of_filter in H1 as [_ H1], H2 as [_ H2].
    apply elem_of_Object_entries, elem_of_grouped in H1 as [-> _].
    apply elem_of_Object_entries, elem_of_grouped in H2 as [-> _].
    apply list_elem_of_fmap in Hz1 as (v1 & -> & Hv1).
    apply list_elem_of_fmap in Hz2 as (v2 & E & Hv2).
    apply (subseteq_drop 1) in Hv1, Hv2.
    apply list_elem_of_filter in Hv1 as [Hk1 Hv1], Hv2 as [Hk2 Hv2].
    assert (v1 = v2) as -> by by apply (ascending_id_inj l).
    by rewrite <- Hk1, <- Hk2.
  - intros [k vs] Hin. simpl.
    apply list_elem_of_filter in Hin as [_ Hin].
    apply elem_of_Object_entries, elem_of_grouped in Hin as [-> _].
    apply (sublist_NoDup _ (Voter.id <$> l)); [by apply ascending_NoDup_ids|].
    apply fmap_sublist. etransitivity; [apply sublist_drop|apply sublist_filter].
  - apply duplicateGroups_NoDup.
Qed.

(** Removing the records of [ids] from a table with unique ids in which
    they all occur takes away as many records as there are ids. *)
Lemma length_filter_ids (ids : list Z) (rs : list Voter.t) :
  NoDup (Voter.id <$> rs) → NoDup ids →
  (∀ z, z ∈ ids → z ∈ Voter.id <$> rs) →
  length (filter (λ v, Voter.id v ∉ ids) rs) + length ids = length rs.
Proof.
  intros Hrs Hids Hsub.
  pose proof (filter_app_complement (λ v, Voter.id v ∈ ids) rs) as Hc.
  apply Permutation_length in Hc. rewrite length_app in Hc.
  assert (Voter.id <$> filter (λ v, Voter.id v ∈ ids) rs ≡ₚ ids) as Hp.
  { apply NoDup_Permutation; [by apply NoDup_ids_filter|done|].
    intros z. rewrite list_elem_of_fmap. split.
    - by intros (v & -> & [? _]%list_elem_of_filter).
    - intros Hz. pose proof (Hsub z Hz) as Hin.
      apply list_elem_of_fmap in Hin as (v & -> & Hv).
      exists v. split; [done|]. by apply list_elem_of_filter. }
  apply Permutation_length in Hp. rewrite length_fmap in Hp. lia.
Qed.

End DedupReport.

(** X28: on a table with unique ids served without failures, behind a
    server that returns at least a full page of 1000 rows per response,
    and with no key that names a member of Object.prototype, a confirmed
    deduplication that found duplicates reports no error and as "records
    removed" the number of ids of its plan: no id is marked twice, and the
    table has lost exactly as many records as the plan names. *)
Theorem removeDuplicates_reports_plan
    (s : Store.t) (fuel : nat) (answer : string) :
  healthy s → page_fits s → NoDup (Voter.id <$> Store.rows s) →
  plain_name_keys (Store.rows s) →
  length (Store.rows s) / BulkFetch.pageSize < fuel →
  JsString.confirms answer = true →
  let plan := Dedup.idsToDelete (Store.order_by_id (Store.rows s)) in
  plan ≠ [] →
  let run := Dedup.removeDuplicates fuel answer s in
  run.2 = Some (Finished (Dedup.Applied plan [] (Some (Z.of_nat (length plan))))) ∧
  length (Store.rows run.1) + length plan = length (Store.rows s) ∧
  NoDup plan.
Proof.
  intros Hh Hp Hnd _ Hfuel Hyes. cbv zeta. intros Hplan.
  pose proof (ascending_order_by_id _ Hnd) as Hasc.
  unfold Dedup.removeDuplicates, Store.bind.
  rewrite fetchAll_healthy by done.
  set (L := Store.order_by_id (Store.rows s)) in *.
  set (s0 := Store.logged _ s).
  assert (Hh0 : healthy s0) by by apply healthy_logged.
  assert (Hids : NoDup (Dedup.idsToDelete L)) by by apply idsToDelete_NoDup.
  assert (Hcount : length (filter (λ v, Voter.id v ∉ Dedup.idsToDelete L)
                             (Store.rows s))
                   + length (Dedup.idsToDelete L) = length (Store.rows s)).
  { apply length_filter_ids; [done..|]. intros z Hz.
    apply marked_in_snapshot in Hz as (v & Hv & <-).
    apply list_elem_of_fmap. exists v. split; [done|].
    unfold L in Hv. by rewrite order_by_id_perm in Hv. }
  rewrite bool_decide_eq_false_2.
  2: { intros Hz. apply length_zero_iff_nil, duplicateGroups_nil in Hz. done. }
  rewrite Hyes.
  destruct (deleteBatches_healthy (Dedup.idsToDelete L)
              (length (Dedup.idsToDelete L)) 0 s0 Hh0 ltac:(lia))
    as (s' & E & Hh' & Hm & Hr).
  rewrite E. unfold Store.count. rewrite call_healthy by done.
  cbn [fst snd Supabase.error Supabase.data Supabase.ok Store.ret
       Store.rows Store.record Store.logged].
  rewrite Hr, drop_0. unfold s0. cbn [Store.rows Store.logged].
  split_and!; [|done..].
  do 3 f_equal. unfold L at 1. rewrite order_by_id_length. f_equal. lia.
Qed.

Lemma removeDuplicates_reports_plan_witness :
  let s := Sample.table (Some 1000)
             [ Sample.voter 2 (Some "ALI") (Some "omar") None;
               Sample.voter 1 (Some "Ali") (Some "Omar") None;
               Sample.voter 3 (Some "Sami") (Some "Omar") None ] in
  let plan := Dedup.idsToDelete (Store.order_by_id (Store.rows s)) in
  (Dedup.removeDuplicates 1 "y" s).2
  = Some (Finished (Dedup.Applied plan [] (Some (Z.of_nat (length plan))))).
Proof.
  cbv zeta.
  refine (proj1 (removeDuplicates_reports_plan
    (Sample.table (Some 1000)
       [ Sample.voter 2 (Some "ALI") (Some "omar") None;
         Sample.voter 1 (Some "Ali") (Some "Omar") None;
         Sample.voter 3 (Some "Sami") (Some "Omar") None ]) 1 "y" _ _ _ _ _ _ _)).
  - intros n. reflexivity.
  - vm_compute. lia.
  - decide_closed.
  - decide_closed.
  - vm_compute. lia.
  - reflexivity.
  - vm_compute. discriminate.
Defined.
